(** * tailwindcss-namespace: the class-namespace resolver, the source scanner
      and the stylesheet generators of [src/index.ts], embedded and verified.

    Conventions of the embedding.
    - A JavaScript string is a [string]; each [ascii] stands for one UTF-16
      code unit below 256 (the Latin-1 range).  Whitespace, sorting and
      hashing are written for that range.
    - A JavaScript number used as a counter is an [N]; the source only ever
      holds small non-negative integers there.
    - [Map]s and [Set]s that the source only reads by key are [gmap]s and
      [gset]s; those it iterates are association lists kept in insertion
      order.
    - The mutable tables of the plugin closure are threaded explicitly. *)

From Stdlib Require Import ZArith NArith List Ascii String Bool Lia DecimalString DecimalN.
From Stdlib Require Import Sorted Permutation.
From stdpp Require Import gmap strings list fin_maps.

Local Open Scope string_scope.

(* ===================================================================== *)
(** ** JavaScript string primitives used by the source *)
(* ===================================================================== *)

Module Js.

(** [\s] of a regular expression, which is also what [trim] removes:
    TAB, LF, VT, FF, CR, SPACE and NBSP are the members below 256. *)
Definition isWhiteSpace (c : ascii) : bool :=
  let n := N_of_ascii c in
  ((9 <=? n) && (n <=? 13) || (n =? 32) || (n =? 160))%N.

(** [\d] *)
Definition isDigit (c : ascii) : bool :=
  let n := N_of_ascii c in ((48 <=? n) && (n <=? 57))%N.

(** [a-zA-Z] *)
Definition isAlpha (c : ascii) : bool :=
  let n := N_of_ascii c in
  ((65 <=? n) && (n <=? 90) || (97 <=? n) && (n <=? 122))%N.

Definition isQuote (c : ascii) : bool :=
  (N_of_ascii c =? 34)%N || (N_of_ascii c =? 39)%N.

Fixpoint forallbStr (p : ascii -> bool) (s : string) : bool :=
  match s with
  | EmptyString => true
  | String c r => p c && forallbStr p r
  end.

Fixpoint existsbStr (p : ascii -> bool) (s : string) : bool :=
  match s with
  | EmptyString => false
  | String c r => p c || existsbStr p r
  end.

(** [s.split(/\s+/)]: the pieces between the maximal whitespace runs; a
    leading or trailing run leaves an empty piece, and the empty string
    splits into one empty piece. *)
Fixpoint splitWs (s : string) : list string :=
  match s with
  | EmptyString => [EmptyString]
  | String c r =>
      let pieces := splitWs r in
      if isWhiteSpace c then
        match r with
        | String c' _ => if isWhiteSpace c' then pieces else EmptyString :: pieces
        | EmptyString => EmptyString :: pieces
        end
      else
        match pieces with
        | p :: ps => String c p :: ps
        | [] => [String c EmptyString]
        end
  end.

(** [Boolean] applied to a string: false exactly on the empty string. *)
Definition truthy (s : string) : bool :=
  match s with EmptyString => false | _ => true end.

(** [xs.filter(Boolean)] *)
Definition filterBoolean (xs : list string) : list string := List.filter truthy xs.

(** The default comparison of [Array.prototype.sort]: code unit by code
    unit, a proper prefix first. *)
Definition strLe (a b : string) : bool := String.leb a b.

Fixpoint insertSorted (x : string) (xs : list string) : list string :=
  match xs with
  | [] => [x]
  | y :: ys => if strLe x y then x :: xs else y :: insertSorted x ys
  end.

(** [xs.sort()].  Equal strings are indistinguishable, so every comparison
    sort returns this list. *)
Fixpoint sort (xs : list string) : list string :=
  match xs with
  | [] => []
  | x :: r => insertSorted x (sort r)
  end.

(** [xs.join(sep)] *)
Fixpoint join (sep : string) (xs : list string) : string :=
  match xs with
  | [] => EmptyString
  | [x] => x
  | x :: r => x ++ sep ++ join sep r
  end.

(** [!s.trim()]: nothing is left once the whitespace is trimmed. *)
Definition isBlank (s : string) : bool := forallbStr isWhiteSpace s.

(** [s.includes(c)] for a one-character needle. *)
Definition includesChar (c : ascii) (s : string) : bool :=
  existsbStr (Ascii.eqb c) s.

(** [s.substring(0, n)] *)
Fixpoint take (n : nat) (s : string) : string :=
  match n, s with
  | S k, String c r => String c (take k r)
  | _, _ => EmptyString
  end.

(** [`${n}`] for a non-negative integer. *)
Definition numberToString (n : N) : string :=
  NilEmpty.string_of_uint (N.to_uint n).

(** [parseInt(ds, 10)] on a string of decimal digits. *)
Definition digitValue (c : ascii) : N := (N_of_ascii c - 48)%N.

Fixpoint parseDigits (acc : N) (s : string) : N :=
  match s with
  | EmptyString => acc
  | String c r => parseDigits (10 * acc + digitValue c)%N r
  end.

Definition parseInt (s : string) : N := parseDigits 0%N s.

(** [s.startsWith(p)], returning what follows the prefix. *)
Fixpoint stripPrefix (p s : string) : option string :=
  match p, s with
  | EmptyString, _ => Some s
  | String a p', String b s' => if Ascii.eqb a b then stripPrefix p' s' else None
  | String _ _, EmptyString => None
  end.

End Js.

(* ===================================================================== *)
(** ** MD5 ([crypto.createHash("md5").update(s).digest("hex")]) *)
(* ===================================================================== *)

Module Md5.

Local Open Scope Z_scope.

Definition mask32 (x : Z) : Z := Z.land x 4294967295.
Definition add32 (x y : Z) : Z := mask32 (x + y).
Definition not32 (x : Z) : Z := Z.lxor x 4294967295.
Definition rotl32 (x s : Z) : Z :=
  mask32 (Z.lor (Z.shiftl x s) (Z.shiftr x (32 - s))).

(** The string is hashed as its UTF-8 bytes: a code unit below 128 is one
    byte, one in 128..255 is two. *)
Definition utf8 (c : ascii) : list Z :=
  let n := Z.of_N (N_of_ascii c) in
  if n <? 128 then [n]
  else [Z.lor 192 (Z.shiftr n 6); Z.lor 128 (Z.land n 63)].

Fixpoint bytesOf (s : string) : list Z :=
  match s with
  | EmptyString => []
  | String c r => (utf8 c ++ bytesOf r)%list
  end.

Definition K : list Z :=
  [ 3614090360; 3905402710; 606105819; 3250441966;
    4118548399; 1200080426; 2821735955; 4249261313;
    1770035416; 2336552879; 4294925233; 2304563134;
    1804603682; 4254626195; 2792965006; 1236535329;
    4129170786; 3225465664; 643717713; 3921069994;
    3593408605; 38016083; 3634488961; 3889429448;
    568446438; 3275163606; 4107603335; 1163531501;
    2850285829; 4243563512; 1735328473; 2368359562;
    4294588738; 2272392833; 1839030562; 4259657740;
    2763975236; 1272893353; 4139469664; 3200236656;
    681279174; 3936430074; 3572445317; 76029189;
    3654602809; 3873151461; 530742520; 3299628645;
    4096336452; 1126891415; 2878612391; 4237533241;
    1700485571; 2399980690; 4293915773; 2240044497;
    1873313359; 4264355552; 2734768916; 1309151649;
    4149444226; 3174756917; 718787259; 3951481745 ].

Definition S : list Z :=
  [ 7; 12; 17; 22; 7; 12; 17; 22; 7; 12; 17; 22; 7; 12; 17; 22;
    5; 9; 14; 20; 5; 9; 14; 20; 5; 9; 14; 20; 5; 9; 14; 20;
    4; 11; 16; 23; 4; 11; 16; 23; 4; 11; 16; 23; 4; 11; 16; 23;
    6; 10; 15; 21; 6; 10; 15; 21; 6; 10; 15; 21; 6; 10; 15; 21 ].

Definition nthZ (l : list Z) (i : Z) : Z := List.nth (Z.to_nat i) l 0.

(** Message padding: a 1 bit, zeros up to 56 modulo 64, then the bit length
    as 8 little-endian bytes. *)
Fixpoint leBytes (n : nat) (x : Z) : list Z :=
  match n with
  | O => []
  | Datatypes.S k => Z.land x 255 :: leBytes k (Z.shiftr x 8)
  end.

Definition pad (msg : list Z) : list Z :=
  let len := Z.of_nat (List.length msg) in
  let zeros := Z.to_nat ((55 - len) mod 64) in
  (msg ++ 128 :: List.repeat 0 zeros ++ leBytes 8 (8 * len))%list.

Fixpoint wordsOf (fuel : nat) (bs : list Z) : list Z :=
  match fuel, bs with
  | Datatypes.S k, b0 :: b1 :: b2 :: b3 :: r =>
      (b0 + Z.shiftl b1 8 + Z.shiftl b2 16 + Z.shiftl b3 24) :: wordsOf k r
  | _, _ => []
  end.

Record state := mk { sa : Z; sb : Z; sc : Z; sd : Z }.

Definition init : state :=
  mk 1732584193 4023233417 2562383102 271733878.

Definition step (M : list Z) (st : state) (i : Z) : state :=
  let '(mk a b c d) := st in
  let '(f, g) :=
    if i <? 16 then (Z.lor (Z.land b c) (Z.land (not32 b) d), i)
    else if i <? 32 then (Z.lor (Z.land d b) (Z.land (not32 d) c), (5 * i + 1) mod 16)
    else if i <? 48 then (Z.lxor (Z.lxor b c) d, (3 * i + 5) mod 16)
    else (Z.lxor c (Z.lor b (not32 d)), (7 * i) mod 16) in
  let f' := add32 (add32 (add32 f a) (nthZ K i)) (nthZ M g) in
  mk d (add32 b (rotl32 f' (nthZ S i))) b c.

Definition rounds : list Z := List.map Z.of_nat (List.seq 0 64).

Definition block (st : state) (M : list Z) : state :=
  let r := List.fold_left (step M) rounds st in
  mk (add32 (sa st) (sa r)) (add32 (sb st) (sb r))
     (add32 (sc st) (sc r)) (add32 (sd st) (sd r)).

Fixpoint blocks (fuel : nat) (st : state) (ws : list Z) : state :=
  match fuel, ws with
  | Datatypes.S k, _ :: _ => blocks k (block st (List.firstn 16 ws)) (List.skipn 16 ws)
  | _, _ => st
  end.

Definition hexDigit (x : Z) : ascii :=
  let d := x mod 16 in
  ascii_of_N (Z.to_N (if d <? 10 then 48 + d else 87 + d)).

Fixpoint hexBytes (bs : list Z) : string :=
  match bs with
  | [] => EmptyString
  | b :: r => String (hexDigit (Z.shiftr b 4)) (String (hexDigit b) (hexBytes r))
  end.

Definition digest (s : string) : list Z :=
  let bs := pad (bytesOf s) in
  let ws := wordsOf (List.length bs) bs in
  let st := blocks (List.length ws) init ws in
  (leBytes 4 (sa st) ++ leBytes 4 (sb st) ++ leBytes 4 (sc st) ++ leBytes 4 (sd st))%list.

Definition hex (s : string) : string := hexBytes (digest s).

End Md5.

(* ===================================================================== *)
(** ** Identifier normalizer *)
(* ===================================================================== *)

(** [classStr.split(/\s+/).filter(Boolean).sort().join(" ")] *)
Definition normalizeClassString (classStr : string) : string :=
  Js.join " " (Js.sort (Js.filterBoolean (Js.splitWs classStr))).

(** [/^[a-zA-Z_-][a-zA-Z0-9_-]*$/.test(str)] *)
Definition isIdentStart (c : ascii) : bool :=
  Js.isAlpha c || Ascii.eqb c "_" || Ascii.eqb c "-".

Definition isIdentPart (c : ascii) : bool :=
  isIdentStart c || Js.isDigit c.

Definition isValidCssIdentifier (str : string) : bool :=
  match str with
  | EmptyString => false
  | String c r => isIdentStart c && Js.forallbStr isIdentPart r
  end.

(* ===================================================================== *)
(** ** Namespace resolver *)
(* ===================================================================== *)

(** The two tables of the plugin closure: [namespaceVersions] and
    [namespaceToClasses]. *)
Record Tables := mkTables {
  namespaceVersions : gmap string N;
  namespaceToClasses : gmap string (gset string) }.

Definition emptyTables : Tables := mkTables ∅ ∅.

(** What [processClassValue] returns. *)
Record Resolution := mkResolution {
  resNormalizedClasses : string;
  resGeneratedClassName : string }.

(** [`${namespace}-${version}`] *)
Definition versionedName (namespace : string) (version : N) : string :=
  namespace ++ "-" ++ Js.numberToString version.

(** [classes && classes.has(x)] *)
Definition setHas (classes : option (gset string)) (x : string) : bool :=
  match classes with
  | Some s => bool_decide (x ∈ s)
  | None => false
  end.

(** [namespaceVersions.get(namespace) || 0] *)
Definition highestVersionOf (t : Tables) (namespace : string) : N :=
  default 0%N (namespaceVersions t !! namespace).

(** The loop [for (version = 1; version <= highestVersion; version++)],
    leaving at the first version whose set has the classes; [remaining]
    counts the iterations still to run. *)
Fixpoint scanVersions (classes : gmap string (gset string))
    (namespace normalizedClasses : string) (version : N) (remaining : nat)
    : option N :=
  match remaining with
  | O => None
  | S k =>
      if setHas (classes !! versionedName namespace version) normalizedClasses
      then Some version
      else scanVersions classes namespace normalizedClasses (version + 1)%N k
  end.

(** [`tw-${md5(normalizedClasses).substring(0, 6)}`] *)
Definition hashName (normalizedClasses : string) : string :=
  "tw-" ++ Js.take 6 (Md5.hex normalizedClasses).

(** The guard [!namespace || !isValidCssIdentifier(namespace)], negated:
    the hint that is used, if any. *)
Definition usableNamespace (namespace : option string) : option string :=
  match namespace with
  | Some ns => if Js.truthy ns && isValidCssIdentifier ns then Some ns else None
  | None => None
  end.

Definition processClassValue (t : Tables) (classValue : string)
    (namespace : option string) : Tables * Resolution :=
  let normalizedClasses := normalizeClassString classValue in
  match usableNamespace namespace with
  | None => (t, mkResolution normalizedClasses (hashName normalizedClasses))
  | Some ns =>
      match namespaceToClasses t !! ns with
      | None =>
          (mkTables (<[ns := 0%N]> (namespaceVersions t))
                    (<[ns := {[normalizedClasses]}]> (namespaceToClasses t)),
           mkResolution normalizedClasses ns)
      | Some existingClasses =>
          if bool_decide (normalizedClasses ∈ existingClasses)
          then (t, mkResolution normalizedClasses ns)
          else
            let highestVersion := highestVersionOf t ns in
            match scanVersions (namespaceToClasses t) ns normalizedClasses
                    1%N (N.to_nat highestVersion) with
            | Some matchedVersion =>
                (t, mkResolution normalizedClasses (versionedName ns matchedVersion))
            | None =>
                let newVersion := (highestVersionOf t ns + 1)%N in
                (mkTables (<[ns := newVersion]> (namespaceVersions t))
                          (<[versionedName ns newVersion := {[normalizedClasses]}]>
                             (namespaceToClasses t)),
                 mkResolution normalizedClasses (versionedName ns newVersion))
            end
      end
  end.

(** The name alone, and the tables alone. *)
Definition resolveName (t : Tables) (classValue : string) (namespace : option string) : string :=
  resGeneratedClassName (snd (processClassValue t classValue namespace)).

Definition resolveTables (t : Tables) (classValue : string) (namespace : option string) : Tables :=
  fst (processClassValue t classValue namespace).

(* ===================================================================== *)
(** ** Mapping store *)
(* ===================================================================== *)

Record ClassMapping := mkClassMapping {
  originalClasses : string;
  normalizedClasses : string;
  generatedClassName : string;
  namespace : option string;
  sourceFile : string }.

Record FileMapping := mkFileMapping {
  fmSourceFile : string;
  cssFile : string;
  mappings : list ClassMapping }.

(** A JavaScript [Map] that is iterated: an association list in insertion
    order.  [set] on a present key keeps the key's place. *)
Section OrderedMap.
Context {K V : Type} `{EqDecision K}.

Fixpoint omGet (k : K) (m : list (K * V)) : option V :=
  match m with
  | [] => None
  | (k', v) :: r => if decide (k = k') then Some v else omGet k r
  end.

Fixpoint omSet (k : K) (v : V) (m : list (K * V)) : list (K * V) :=
  match m with
  | [] => [(k, v)]
  | (k', v') :: r =>
      if decide (k = k') then (k, v) :: r else (k', v') :: omSet k v r
  end.

Fixpoint omDelete (k : K) (m : list (K * V)) : list (K * V) :=
  match m with
  | [] => []
  | (k', v') :: r =>
      if decide (k = k') then r else (k', v') :: omDelete k r
  end.

Definition omHas (k : K) (m : list (K * V)) : bool :=
  match omGet k m with Some _ => true | None => false end.
End OrderedMap.

(** [fileMappings]: source path to [FileMapping]. *)
Abbreviation FileMappings := (list (string * FileMapping)).

(** [generatedClassName.match(new RegExp(`^${namespace}-(\\d+)$`))] followed
    by [parseInt(match[1], 10)].  The namespace is a valid identifier here,
    so it stands for itself in the pattern. *)
Definition versionOfName (namespace generatedClassName : string) : option N :=
  match Js.stripPrefix (namespace ++ "-") generatedClassName with
  | Some ds =>
      if Js.truthy ds && Js.forallbStr Js.isDigit ds
      then Some (Js.parseInt ds) else None
  | None => None
  end.

(** The value of [allNamespaces] or of a version entry after
    [.add(normalizedClasses)], the set being created when missing. *)
Definition addTo (old : option (gset string)) (x : string) : gset string :=
  default ∅ old ∪ {[x]}.

(** First pass of [cleanupNamespaceVersions]: one class mapping. *)
Definition collectMapping
    (acc : list (string * gset string) * list (string * list (N * gset string)))
    (classMapping : ClassMapping)
    : list (string * gset string) * list (string * list (N * gset string)) :=
  let '(allNamespaces, allVersionedNamespaces) := acc in
  match usableNamespace (namespace classMapping) with
  | None => acc
  | Some ns =>
      match versionOfName ns (generatedClassName classMapping) with
      | Some version =>
          let versions := default [] (omGet ns allVersionedNamespaces) in
          let classes := addTo (omGet version versions) (normalizedClasses classMapping) in
          (allNamespaces, omSet ns (omSet version classes versions) allVersionedNamespaces)
      | None =>
          let classes := addTo (omGet ns allNamespaces) (normalizedClasses classMapping) in
          (omSet ns classes allNamespaces, allVersionedNamespaces)
      end
  end.

Definition allClassMappings (fileMappings : FileMappings) : list ClassMapping :=
  List.flat_map (fun e => mappings (snd e)) fileMappings.

Definition collectNamespaces (fileMappings : FileMappings)
    : list (string * gset string) * list (string * list (N * gset string)) :=
  List.fold_left collectMapping (allClassMappings fileMappings) ([], []).

(** [Math.max(...versions.keys())]; the key list is never empty where the
    source takes it. *)
Definition maxVersionOf (versions : list (N * gset string)) : N :=
  List.fold_left N.max (List.map fst versions) 0%N.

(** Second pass of [cleanupNamespaceVersions]: one entry of [allNamespaces]. *)
Definition rebuildNamespace
    (allVersionedNamespaces : list (string * list (N * gset string)))
    (t : Tables) (entry : string * gset string) : Tables :=
  let '(ns, classes) := entry in
  let versions := default [] (omGet ns allVersionedNamespaces) in
  mkTables
    (<[ns := maxVersionOf versions]> (namespaceVersions t))
    (List.fold_left
       (fun table e => <[versionedName ns (fst e) := snd e]> table)
       versions
       (<[ns := classes]> (namespaceToClasses t))).

(** [cleanupNamespaceVersions()]: the tables are cleared and rebuilt from the
    file mappings alone. *)
Definition cleanupNamespaceVersions (fileMappings : FileMappings) : Tables :=
  let '(allNamespaces, allVersionedNamespaces) := collectNamespaces fileMappings in
  List.fold_left (rebuildNamespace allVersionedNamespaces) allNamespaces emptyTables.

(* ===================================================================== *)
(** ** Source scanner *)
(* ===================================================================== *)

Module Scan.

(** The longest prefix of [s] whose characters satisfy [p], and the rest. *)
Fixpoint span (p : ascii -> bool) (s : string) : string * string :=
  match s with
  | EmptyString => (EmptyString, EmptyString)
  | String c r =>
      if p c then let '(a, b) := span p r in (String c a, b)
      else (EmptyString, s)
  end.

Definition notQuote (c : ascii) : bool := negb (Js.isQuote c).

(** One attribute found by a pattern: the three capture groups. *)
Record Attr := mkAttr { prefix : string; classValue : string; suffix : string }.

Definition fullMatch (a : Attr) : string := prefix a ++ classValue a ++ suffix a.

(** In the patterns below [q] stands for the class of the two quote
    characters, single and double.

    [\s*=\s*q] at the head of [s] (with an opening brace before the quote
    when [brace] is set): the text matched and what follows.  Each [\s*] is
    followed by a character that is no whitespace, so it takes the whole
    run. *)
Definition matchEqQuote (brace : bool) (s : string) : option (string * string) :=
  let '(ws1, s1) := span Js.isWhiteSpace s in
  match s1 with
  | String "=" s2 =>
      let '(ws2, s3) := span Js.isWhiteSpace s2 in
      let afterBrace :=
        if brace then
          match s3 with
          | String "{" s4 => Some ("{", s4)
          | _ => None
          end
        else Some (EmptyString, s3) in
      match afterBrace with
      | Some (b, String q s5) =>
          if Js.isQuote q
          then Some (ws1 ++ "=" ++ ws2 ++ b ++ String q EmptyString, s5)
          else None
      | _ => None
      end
  | _ => None
  end.

(** [CLASS_ATTR_REGEX = /(\s+class\s*=\s*q)([^q]+)(q)/g] tried at the head
    of [s].  The run [[^q]+] is followed by a quote, so it is maximal. *)
Definition matchClassAttr (s : string) : option Attr :=
  let '(ws, s1) := span Js.isWhiteSpace s in
  if Js.truthy ws then
    match Js.stripPrefix "class" s1 with
    | Some s2 =>
        match matchEqQuote false s2 with
        | Some (eq, s3) =>
            let '(value, s4) := span notQuote s3 in
            match s4 with
            | String q _ =>
                if Js.truthy value
                then Some (mkAttr (ws ++ "class" ++ eq) value (String q EmptyString))
                else None
            | EmptyString => None
            end
        | None => None
        end
    | None => None
    end
  else None.

(** [JSX_CLASS_REGEX = /(\s+className\s*=\s*\{q)([^q]+)(q\})/g] tried at
    the head of [s]. *)
Definition matchJsxClassAttr (s : string) : option Attr :=
  let '(ws, s1) := span Js.isWhiteSpace s in
  if Js.truthy ws then
    match Js.stripPrefix "className" s1 with
    | Some s2 =>
        match matchEqQuote true s2 with
        | Some (eq, s3) =>
            let '(value, s4) := span notQuote s3 in
            match s4 with
            | String q (String "}" _) =>
                if Js.truthy value
                then Some (mkAttr (ws ++ "className" ++ eq) value
                             (String q (String "}" EmptyString)))
                else None
            | _ => None
            end
        | None => None
        end
    | None => None
    end
  else None.

(** [NAMESPACE_ATTR_REGEX = /tw-namespace\s*=\s*q(V)q/g], where [V] is
    [[^q]*], tried at the head of [s]; the prefix is the text up to the
    opening quote. *)
Definition matchNamespaceAttr (s : string) : option Attr :=
  match Js.stripPrefix "tw-namespace" s with
  | Some s1 =>
      match matchEqQuote false s1 with
      | Some (eq, s2) =>
          let '(value, s3) := span notQuote s2 in
          match s3 with
          | String q _ => Some (mkAttr ("tw-namespace" ++ eq) value (String q EmptyString))
          | EmptyString => None
          end
      | None => None
      end
  | None => None
  end.

(** [/\s*tw-namespace\s*=\s*q[^q]*q/g] tried at the head of [s]: the length
    of the match. *)
Definition matchNamespaceRemoval (s : string) : option nat :=
  let '(ws, s1) := span Js.isWhiteSpace s in
  match matchNamespaceAttr s1 with
  | Some a => Some (String.length ws + String.length (fullMatch a))
  | None => None
  end.

(** The matches that successive [exec] calls of a global pattern return on
    [s]: at each offset from [lastIndex] on, the pattern is tried; a match
    moves [lastIndex] past itself.  [pos] is the offset of [s] in the whole
    text and [skip] the number of characters still before [lastIndex]. *)
Fixpoint execAll (matchAt : string -> option Attr) (s : string) (pos skip : nat)
    : list (nat * Attr) :=
  match s with
  | EmptyString => []
  | String _ r =>
      match skip with
      | S k => execAll matchAt r (S pos) k
      | O =>
          match matchAt s with
          | Some a => (pos, a) :: execAll matchAt r (S pos) (String.length (fullMatch a) - 1)
          | None => execAll matchAt r (S pos) 0
          end
      end
  end.

(** [text.replace(pattern, EMPTY)] for a global pattern whose match at an
    offset may depend on the character before it ([prev]), as [^] does. *)
Fixpoint removeAllAt (matchAt : option ascii -> string -> option nat)
    (s : string) (prev : option ascii) (skip : nat) : string :=
  match s with
  | EmptyString => EmptyString
  | String c r =>
      match skip with
      | S k => removeAllAt matchAt r (Some c) k
      | O =>
          match matchAt prev s with
          | Some len => removeAllAt matchAt r (Some c) (len - 1)
          | None => String c (removeAllAt matchAt r (Some c) 0)
          end
      end
  end.

Definition removeAll (matchAt : string -> option nat) (s : string) : string :=
  removeAllAt (fun _ => matchAt) s None 0.

(** [s.substring(from)]: what is left after the first [from] characters. *)
Fixpoint substringFrom (from : nat) (s : string) : string :=
  match from, s with
  | S k, String _ r => substringFrom k r
  | _, _ => s
  end.

(** [s.substring(from, to)] with [from <= to]. *)
Definition substring (from to : nat) (s : string) : string :=
  Js.take (to - from) (substringFrom from s).

End Scan.

(** An entry of [namespaces] in [processFile]. *)
Record NamespaceAttr := mkNamespaceAttr { index : nat; value : string }.

(** [namespaces.sort((a, b) => a.index - b.index)], a stable sort. *)
Fixpoint insertByIndex (x : NamespaceAttr) (xs : list NamespaceAttr) : list NamespaceAttr :=
  match xs with
  | [] => [x]
  | y :: ys => if (index y <=? index x)%nat then y :: insertByIndex x ys else x :: xs
  end.

Definition sortByIndex (xs : list NamespaceAttr) : list NamespaceAttr :=
  List.fold_left (fun acc x => insertByIndex x acc) xs [].

(** First pass of [processFile]: the namespace attributes and their offsets. *)
Definition findNamespaces (code : string) : list NamespaceAttr :=
  sortByIndex
    (List.map (fun m => mkNamespaceAttr (fst m) (Scan.classValue (snd m)))
       (Scan.execAll Scan.matchNamespaceAttr code 0 0)).

(** The loop of [findNamespaceForPosition] runs from the last entry down and
    returns at the first one before [position]. *)
Definition findNamespaceForPosition (namespaces : list NamespaceAttr) (position : nat)
    : option string :=
  option_map value (List.find (fun n => (index n <? position)%nat) (List.rev namespaces)).

(** The variables a rewriting loop of [processFile] carries. *)
Record Pass := mkPass {
  passTables : Tables;
  lastIndex : nat;
  resultCode : string;
  passMappings : list ClassMapping;
  passChanged : bool }.

(** The body of a rewriting loop for one match; [skipBraces] tells whether
    the loop has the test [classValue.includes] on an opening brace. *)
Definition rewriteMatch (skipBraces : bool) (namespaces : list NamespaceAttr)
    (text id : string) (st : Pass) (m : nat * Scan.Attr) : Pass :=
  let '(matchIndex, a) := m in
  let classValue := Scan.classValue a in
  if Js.isBlank classValue || (skipBraces && Js.includesChar "{" classValue) then st
  else
    let resultCode1 := resultCode st ++ Scan.substring (lastIndex st) matchIndex text in
    let namespace := findNamespaceForPosition namespaces matchIndex in
    let '(t, r) := processClassValue (passTables st) classValue namespace in
    mkPass t
      (matchIndex + String.length (Scan.fullMatch a))
      (resultCode1 ++ Scan.prefix a ++ resGeneratedClassName r ++ Scan.suffix a)
      (passMappings st ++
         [mkClassMapping classValue (resNormalizedClasses r) (resGeneratedClassName r)
            namespace id])
      true.

(** A whole rewriting loop and the [resultCode += text.substring(lastIndex)]
    that follows it. *)
Definition rewritePass (matchAt : string -> option Scan.Attr) (skipBraces : bool)
    (namespaces : list NamespaceAttr) (text id : string)
    (t : Tables) (mappings0 : list ClassMapping) (changed0 : bool) : Pass :=
  let st := List.fold_left (rewriteMatch skipBraces namespaces text id)
              (Scan.execAll matchAt text 0 0)
              (mkPass t 0 EmptyString mappings0 changed0) in
  mkPass (passTables st) (lastIndex st)
    (resultCode st ++ Scan.substringFrom (lastIndex st) text)
    (passMappings st) (passChanged st).

(** What [processFile] returns. *)
Record Processed := mkProcessed {
  processedCode : string;
  changed : bool;
  fileClassMappings : list ClassMapping }.

Definition processFile (t : Tables) (code id : string) : Tables * Processed :=
  let namespaces := findNamespaces code in
  let p1 := rewritePass Scan.matchClassAttr true namespaces code id t [] false in
  if passChanged p1 then
    let p2 := rewritePass Scan.matchJsxClassAttr false namespaces (resultCode p1) id
                (passTables p1) (passMappings p1) true in
    (passTables p2,
     mkProcessed (Scan.removeAll Scan.matchNamespaceRemoval (resultCode p2))
       true (passMappings p2))
  else
    (passTables p1, mkProcessed (resultCode p1) false (passMappings p1)).

(* ===================================================================== *)
(** ** Stylesheet generators *)
(* ===================================================================== *)

Module Css.

(** The line feed the source writes as a backslash followed by n. *)
Definition nl : string := String "010" EmptyString.

(** [originalClasses.split(/\s+/).filter(Boolean)] *)
Definition utilitiesOf (classMapping : ClassMapping) : list string :=
  Js.filterBoolean (Js.splitWs (originalClasses classMapping)).

(** The loop [css += `  @apply ${utility};\n`]. *)
Definition applyLines (css : string) (utilities : list string) : string :=
  List.fold_left (fun css utility => css ++ "  @apply " ++ utility ++ ";" ++ nl)
    utilities css.

(** One rule: the selector text, the apply lines, the closing brace and a
    blank line, appended to [css]. *)
Definition appendRule (css selector : string) (utilities : list string) : string :=
  applyLines (css ++ selector ++ " {" ++ nl) utilities ++ "}" ++ nl ++ nl.

Definition standardStep (acc : string * gset string) (classMapping : ClassMapping)
    : string * gset string :=
  let '(css, processedClasses) := acc in
  let className := generatedClassName classMapping in
  if bool_decide (className ∈ processedClasses) then acc
  else (appendRule css ("." ++ className) (utilitiesOf classMapping),
        processedClasses ∪ {[className]}).

Definition standardCss (classMappings : list ClassMapping) : string :=
  fst (List.fold_left standardStep classMappings (EmptyString, ∅)).

Definition generateStandardCss (mapping : FileMapping) : string :=
  standardCss (mappings mapping).

(** A [Set] of class names that is read back in order: no duplicates, in
    insertion order. *)
Definition setAdd (x : string) (s : list string) : list string :=
  if bool_decide (x ∈ s) then s else (s ++ [x])%list.

Definition recordUtility (className : string)
    (utilityToClasses : list (string * list string)) (utility : string)
    : list (string * list string) :=
  omSet utility (setAdd className (default [] (omGet utility utilityToClasses)))
    utilityToClasses.

Definition recordMapping
    (acc : list (string * list string) * list (string * list string))
    (classMapping : ClassMapping)
    : list (string * list string) * list (string * list string) :=
  let '(utilityToClasses, classDefinitions) := acc in
  let className := generatedClassName classMapping in
  let utilities := utilitiesOf classMapping in
  (List.fold_left (recordUtility className) utilities utilityToClasses,
   omSet className utilities classDefinitions).

(** [Array.from(classes).sort().join(",")] *)
Definition classKeyOf (classes : list string) : string :=
  Js.join "," (Js.sort classes).

Definition groupStep (utilityGroups : list (string * list string))
    (e : string * list string) : list (string * list string) :=
  let '(utility, classes) := e in
  let classKey := classKeyOf classes in
  omSet classKey (default [] (omGet classKey utilityGroups) ++ [utility])%list utilityGroups.

(** [s.split(",")] *)
Fixpoint splitChar (sep : ascii) (s : string) : list string :=
  match s with
  | EmptyString => [EmptyString]
  | String c r =>
      if Ascii.eqb c sep then EmptyString :: splitChar sep r
      else
        match splitChar sep r with
        | p :: ps => String c p :: ps
        | [] => [String c EmptyString]
        end
  end.

(** [`${className}:${utility}`] *)
Definition pairKey (className utility : string) : string :=
  className ++ ":" ++ utility.

Definition markProcessed (classes utilities : list string) (processed : gset string)
    : gset string :=
  List.fold_left
    (fun acc className =>
       List.fold_left (fun acc utility => acc ∪ {[pairKey className utility]})
         utilities acc)
    classes processed.

(** First output loop: the groups with several classes. *)
Definition emitGroup (acc : string * gset string) (e : string * list string)
    : string * gset string :=
  let '(css, processedUtilityClasses) := acc in
  let '(classKey, utilities) := e in
  let classes := Js.filterBoolean (splitChar "," classKey) in
  if (List.length classes <=? 1)%nat || (List.length utilities =? 0)%nat then acc
  else
    (appendRule css (Js.join ", " (List.map (fun c => "." ++ c) classes)) utilities,
     markProcessed classes utilities processedUtilityClasses).

(** Second output loop: what is left for each class. *)
Definition emitRemaining (processedUtilityClasses : gset string) (css : string)
    (e : string * list string) : string :=
  let '(className, utilities) := e in
  let remainingUtilities :=
    List.filter
      (fun u => negb (bool_decide (pairKey className u ∈ processedUtilityClasses)))
      utilities in
  if (0 <? List.length remainingUtilities)%nat
  then appendRule css ("." ++ className) remainingUtilities
  else css.

(** The body shared, line for line, by [generateOptimizedCss] and
    [generateGlobalOptimizedCss]. *)
Definition optimizedCss (classMappings : list ClassMapping) : string :=
  let '(utilityToClasses, classDefinitions) :=
    List.fold_left recordMapping classMappings ([], []) in
  let utilityGroups := List.fold_left groupStep utilityToClasses [] in
  let '(css, processedUtilityClasses) :=
    List.fold_left emitGroup utilityGroups (EmptyString, ∅) in
  List.fold_left (emitRemaining processedUtilityClasses) classDefinitions css.

Definition generateOptimizedCss (mapping : FileMapping) : string :=
  optimizedCss (mappings mapping).

Definition generateGlobalOptimizedCss (fileMappings : FileMappings) : string :=
  "/* Generated by tailwindcss-namespace with global optimization */" ++ nl ++ nl
  ++ optimizedCss (allClassMappings fileMappings).

Definition generateCssContent (fileMappings : FileMappings) (optimize : bool) : string :=
  List.fold_left
    (fun content e =>
       content ++ "/* Styles for " ++ fst e ++ " */" ++ nl ++ nl
       ++ (if optimize then generateOptimizedCss (snd e) else generateStandardCss (snd e)))
    fileMappings
    ("/* Generated by tailwindcss-namespace */" ++ nl ++ nl).

(** The offset of the first [*/] of [s]. *)
Fixpoint commentEnd (s : string) : option nat :=
  match s with
  | String "*" (String "/" _) => Some 0
  | String _ r => option_map S (commentEnd r)
  | EmptyString => None
  end.

(** [/\/\*[\s\S]*?\*\//g] tried at the head of [s]: the lazy body stops at
    the first closing mark. *)
Definition matchComment (s : string) : option nat :=
  match Js.stripPrefix "/*" s with
  | Some r => option_map (fun n => 2 + n + 2) (commentEnd r)
  | None => None
  end.

Definition isLineBreak (c : ascii) : bool :=
  (N_of_ascii c =? 10)%N || (N_of_ascii c =? 13)%N.

(** The length of the longest prefix of [s] that ends in CR or LF, if any;
    [n] is the length of the prefix already read. *)
Fixpoint lastLineBreak (s : string) (n : nat) : option nat :=
  match s with
  | EmptyString => None
  | String c r =>
      match lastLineBreak r (S n) with
      | Some k => Some k
      | None => if isLineBreak c then Some (S n) else None
      end
  end.

(** [/^\s*[\r\n]/gm] tried at the head of [s], [prev] being the character
    before it: the greedy run gives characters back until CR or LF can end
    the match. *)
Definition matchBlankLine (prev : option ascii) (s : string) : option nat :=
  let atLineStart := match prev with None => true | Some c => isLineBreak c end in
  if atLineStart then lastLineBreak (fst (Scan.span Js.isWhiteSpace s)) 0 else None.

Definition getContentLengthExcludingComments (content : string) : nat :=
  let contentWithoutComments := Scan.removeAll matchComment content in
  let contentWithoutEmptyLines :=
    Scan.removeAllAt matchBlankLine contentWithoutComments None 0 in
  String.length contentWithoutEmptyLines.

Inductive Mode := GlobalOptimized | ComponentOptimized | Standard.

(** The [optimizeCss === auto] branch of [updateCssFiles]: the mode kept and
    the content written to the main stylesheet. *)
Definition autoSelect (fileMappings : FileMappings) : Mode * string :=
  let optimizedMainCssContent := generateCssContent fileMappings true in
  let standardMainCssContent := generateCssContent fileMappings false in
  let globalOptimizedCssContent := generateGlobalOptimizedCss fileMappings in
  let optimizedLength := getContentLengthExcludingComments optimizedMainCssContent in
  let standardLength := getContentLengthExcludingComments standardMainCssContent in
  let globalOptimizedLength := getContentLengthExcludingComments globalOptimizedCssContent in
  if (globalOptimizedLength <=? optimizedLength)%nat
     && (globalOptimizedLength <=? standardLength)%nat
  then (GlobalOptimized, globalOptimizedCssContent)
  else if (optimizedLength <=? standardLength)%nat
  then (ComponentOptimized, optimizedMainCssContent)
  else (Standard, standardMainCssContent).

End Css.

(* ===================================================================== *)
(** ** The plugin state and its entry points *)
(* ===================================================================== *)

(** The [optimizeCss] option. *)
Inductive OptimizeCss := OptimizeBool (b : bool) | OptimizeAuto.

(** The mutable state of the closure. *)
Record Plugin := mkPlugin {
  tables : Tables;
  fileMappings : FileMappings }.

Definition emptyPlugin : Plugin := mkPlugin emptyTables [].

(** [updateCssFiles()]: nothing happens without file mappings; otherwise the
    tables are rebuilt and the main stylesheet is written.  The second
    component is the content written, if any. *)
Definition updateCssFiles (optimizeCss : OptimizeCss) (p : Plugin) : Plugin * option string :=
  match fileMappings p with
  | [] => (p, None)
  | _ :: _ =>
      (mkPlugin (cleanupNamespaceVersions (fileMappings p)) (fileMappings p),
       Some match optimizeCss with
            | OptimizeAuto => snd (Css.autoSelect (fileMappings p))
            | OptimizeBool b => Css.generateCssContent (fileMappings p) b
            end)
  end.

(** [transform(code, id)] on a supported source file.  [relativePath] and
    [cssFilePath] are what [path.relative] and [getCssFilePathForSource]
    return for [id]. *)
Definition transform (optimizeCss : OptimizeCss) (p : Plugin)
    (id relativePath cssFilePath code : string) : Plugin * option string :=
  let '(t, r) := processFile (tables p) code id in
  if changed r then
    let stored :=
      omSet relativePath (mkFileMapping relativePath cssFilePath (fileClassMappings r))
        (fileMappings p) in
    (fst (updateCssFiles optimizeCss (mkPlugin t stored)), Some (processedCode r))
  else (mkPlugin t (fileMappings p), None).

(** The [unlink] handler of the watcher. *)
Definition unlink (optimizeCss : OptimizeCss) (p : Plugin) (relativePath : string) : Plugin :=
  if omHas relativePath (fileMappings p) then
    fst (updateCssFiles optimizeCss
           (mkPlugin (tables p) (omDelete relativePath (fileMappings p))))
  else p.

(** [file.startsWith(prefix)] *)
Definition startsWith (prefix file : string) : bool :=
  match Js.stripPrefix prefix file with Some _ => true | None => false end.

(** The removal loop of the [unlinkDir] handler. *)
Definition removeByPathPrefix (prefix : string) (fms : FileMappings) : FileMappings :=
  List.filter (fun e => negb (startsWith prefix (fst e))) fms.

(** The [unlinkDir] handler of the watcher. *)
Definition unlinkDir (optimizeCss : OptimizeCss) (p : Plugin) (relativePath : string) : Plugin :=
  fst (updateCssFiles optimizeCss
         (mkPlugin (tables p) (removeByPathPrefix relativePath (fileMappings p)))).

(* ===================================================================== *)
(** ** More string primitives of the source *)
(* ===================================================================== *)

Module Str.

(** The text before the first occurrence of [pattern] in [s] and the text
    after it, as [s.indexOf(pattern)] locates it. *)
Fixpoint splitAtFirst (pattern s : string) : option (string * string) :=
  match Js.stripPrefix pattern s with
  | Some after => Some (EmptyString, after)
  | None =>
      match s with
      | EmptyString => None
      | String c r =>
          match splitAtFirst pattern r with
          | Some (before, after) => Some (String c before, after)
          | None => None
          end
      end
  end.

(** [s.includes(pattern)] *)
Definition includes (pattern s : string) : bool :=
  match splitAtFirst pattern s with Some _ => true | None => false end.

(** [s.endsWith(suffix)] *)
Fixpoint endsWith (suffix s : string) : bool :=
  String.eqb suffix s
  || match s with
     | String _ r => endsWith suffix r
     | EmptyString => false
     end.

(** [s.trim()] *)
Definition trimStart (s : string) : string := snd (Scan.span Js.isWhiteSpace s).

Fixpoint trimEnd (s : string) : string :=
  match s with
  | EmptyString => EmptyString
  | String c r =>
      match trimEnd r with
      | EmptyString => if Js.isWhiteSpace c then EmptyString else String c EmptyString
      | String c' r' => String c (String c' r')
      end
  end.

Definition trim (s : string) : string := trimEnd (trimStart s).

(** The replacement text of [s.replace(pattern, replacement)] for a string
    pattern: a dollar sign followed by a dollar sign, an ampersand, a
    backquote or a quote stands for a dollar sign, the text matched, the
    text before it or the text after it; there are no capture groups, so
    any other dollar sign stands for itself. *)
Fixpoint getSubstitution (matched before after replacement : string) : string :=
  match replacement with
  | EmptyString => EmptyString
  | String c rest =>
      if Ascii.eqb c "$" then
        match rest with
        | String d rest' =>
            if Ascii.eqb d "$"
            then String "$" (getSubstitution matched before after rest')
            else if Ascii.eqb d "&"
            then matched ++ getSubstitution matched before after rest'
            else if Ascii.eqb d "`"
            then before ++ getSubstitution matched before after rest'
            else if Ascii.eqb d "'"
            then after ++ getSubstitution matched before after rest'
            else String "$" (getSubstitution matched before after rest)
        | EmptyString => String "$" EmptyString
        end
      else String c (getSubstitution matched before after rest)
  end.

(** [s.replace(pattern, replacement)] for a string pattern: the first
    occurrence only. *)
Definition replaceFirst (pattern replacement s : string) : string :=
  match splitAtFirst pattern s with
  | Some (before, after) =>
      before ++ getSubstitution pattern before after replacement ++ after
  | None => s
  end.

(** [s.replace(/c/g, d)] for single characters. *)
Fixpoint replaceChar (c d : ascii) (s : string) : string :=
  match s with
  | EmptyString => EmptyString
  | String x r => String (if Ascii.eqb x c then d else x) (replaceChar c d r)
  end.

End Str.

(* ===================================================================== *)
(** ** Component stylesheets *)
(* ===================================================================== *)

(** The comment at the head of a component stylesheet. *)
Definition componentHeader (sourceFile : string) : string :=
  "/* Generated for " ++ sourceFile ++ " */" ++ Css.nl ++ Css.nl.

(** [generateIndividualComponentCss]: the content written. *)
Definition generateIndividualComponentCss (sourceFile : string) (mapping : FileMapping)
    (optimize : bool) : string :=
  componentHeader sourceFile
  ++ (if optimize then Css.generateOptimizedCss mapping else Css.generateStandardCss mapping).

(** The set [componentClassNames] of [generateComponentCssFromGlobal]. *)
Definition componentClassNames (mapping : FileMapping) : list string :=
  List.fold_left (fun names classMapping => Css.setAdd (generatedClassName classMapping) names)
    (mappings mapping) [].

(** The variables of the extraction loop. *)
Record Extraction := mkExtraction {
  componentCss : string;
  inRelevantRule : bool;
  currentRule : string }.

(** The body of the loop over the lines of the global stylesheet. *)
Definition extractLine (names : list string) (st : Extraction) (line : string) : Extraction :=
  let containsComponentClass :=
    Js.includesChar "{" line
    && (let selectorPart := Str.trim (List.hd EmptyString (Css.splitChar "{" line)) in
        List.existsb (fun className => Str.includes ("." ++ className) selectorPart) names) in
  if containsComponentClass then mkExtraction (componentCss st) true (line ++ Css.nl)
  else if inRelevantRule st then
    let currentRule1 := currentRule st ++ line ++ Css.nl in
    if Js.includesChar "}" line
    then mkExtraction (componentCss st ++ currentRule1) false EmptyString
    else mkExtraction (componentCss st) true currentRule1
  else st.

(** [generateComponentCssFromGlobal]: the content written. *)
Definition generateComponentCssFromGlobal (sourceFile : string) (mapping : FileMapping)
    (globalCss : string) : string :=
  componentCss
    (List.fold_left (extractLine (componentClassNames mapping))
       (Css.splitChar "010" globalCss)
       (mkExtraction (componentHeader sourceFile) false EmptyString)).



(* ===================================================================== *)
(** ** The options and the hooks *)
(* ===================================================================== *)

Inductive PluginMode := ModeBuild | ModeAll.

(** [TailwindNamespaceOptions]: every field may be missing. *)
Record TailwindNamespaceOptions := mkOptions {
  optMode : option PluginMode;
  optNamespaceDir : option string;
  optExtensions : option (list string);
  optOptimizeCss : option OptimizeCss }.

(** The constants of the closure. *)
Record Config := mkConfig {
  cfgMode : PluginMode;
  cfgNamespaceDir : string;
  cfgExtensions : list string;
  cfgOptimizeCss : OptimizeCss }.

Definition SUPPORTED_EXTENSIONS : list string :=
  [".svelte"; ".jsx"; ".tsx"; ".vue"; ".astro"; ".html"].

(** The head of [tailwindcssNamespace]: [||] falls back on a missing or
    empty string, and on a missing list, but not on an empty list. *)
Definition configure (options : TailwindNamespaceOptions) : Config :=
  mkConfig
    (default ModeAll (optMode options))
    (match optNamespaceDir options with
     | Some dir => if Js.truthy dir then dir else ".tw-namespace"
     | None => ".tw-namespace"
     end)
    (default SUPPORTED_EXTENSIONS (optExtensions options))
    (default (OptimizeBool true) (optOptimizeCss options)).

(** The double quote and the backslash. *)
Definition dq : string := String "034" EmptyString.
Definition backslash : ascii := "092".

Definition VIRTUAL_CSS_IMPORT : string :=
  "@import " ++ dq ++ "tailwindcss-namespace" ++ dq ++ ";".

(** [CSS_FILE_REGEX.test(id)]: the path ends in a dot and one of the
    stylesheet extensions. *)
Definition isCssFile (id : string) : bool :=
  List.existsb (fun ext => Str.endsWith ("." ++ ext) id)
    ["css"; "scss"; "sass"; "less"; "styl"; "stylus"; "pcss"; "postcss"].

(** [extensions.some((ext) => id.endsWith(ext))] *)
Definition hasSupportedExtension (cfg : Config) (id : string) : bool :=
  List.existsb (fun ext => Str.endsWith ext id) (cfgExtensions cfg).

(** The stylesheet branch of the [transform] hook.  [relativeToMain] is
    what [path.relative] returns for the directory of [id] and the main
    stylesheet. *)
Definition transformCss (code relativeToMain : string) : option string :=
  if Str.includes VIRTUAL_CSS_IMPORT code then
    let relativePath := Str.replaceChar backslash "/" relativeToMain in
    Some (Str.replaceFirst VIRTUAL_CSS_IMPORT
            ("@import " ++ dq ++ relativePath ++ dq ++ ";") code)
  else None.

(** The [transform] hook.  [production] tells whether [NODE_ENV] is
    production; [relativePath] and [cssFilePath] are as in [transform]. *)
Definition transformHook (cfg : Config) (production : bool) (p : Plugin)
    (code id relativeToMain relativePath cssFilePath : string) : Plugin * option string :=
  if isCssFile id then (p, transformCss code relativeToMain)
  else if match cfgMode cfg with ModeBuild => negb production | ModeAll => false end
  then (p, None)
  else if negb (hasSupportedExtension cfg id) then (p, None)
  else transform (cfgOptimizeCss cfg) p id relativePath cssFilePath code.

(** The [change] handler of the watcher; [code] is the content read from
    the file. *)
Definition watchChange (cfg : Config) (p : Plugin)
    (file relativePath cssFilePath code : string) : Plugin :=
  if hasSupportedExtension cfg file then
    if omHas relativePath (fileMappings p) then
      let '(t, r) := processFile (tables p) code file in
      if changed r then
        fst (updateCssFiles (cfgOptimizeCss cfg)
               (mkPlugin t
                  (omSet relativePath
                     (mkFileMapping relativePath cssFilePath (fileClassMappings r))
                     (fileMappings p))))
      else mkPlugin t (fileMappings p)
    else p
  else p.

(** A file found by [recursiveReadDir], with the paths derived from it and
    the content read. *)
Record SourceFile := mkSourceFile {
  sfFile : string;
  sfRelativePath : string;
  sfCssFile : string;
  sfContent : string }.

(** The loop body of [scanAllSourceFiles]. *)
Definition scanSourceFile (p : Plugin) (f : SourceFile) : Plugin :=
  let '(t, r) := processFile (tables p) (sfContent f) (sfFile f) in
  if changed r && (0 <? List.length (fileClassMappings r))%nat then
    mkPlugin t
      (omSet (sfRelativePath f)
         (mkFileMapping (sfRelativePath f) (sfCssFile f) (fileClassMappings r))
         (fileMappings p))
  else mkPlugin t (fileMappings p).

Definition scanAllSourceFiles (optimizeCss : OptimizeCss) (p : Plugin)
    (files : list SourceFile) : Plugin :=
  fst (updateCssFiles optimizeCss (List.fold_left scanSourceFile files p)).

(** The [buildStart] hook; [files] is what the scan of the source directory
    finds. *)
Definition buildStart (cfg : Config) (production : bool) (p : Plugin)
    (files : list SourceFile) : Plugin :=
  let p1 := if production then scanAllSourceFiles (cfgOptimizeCss cfg) p files else p in
  fst (updateCssFiles (cfgOptimizeCss cfg) p1).

(* ===================================================================== *)
(** ** Vocabulary of the properties *)
(* ===================================================================== *)

Definition isHexDigit (c : ascii) : bool :=
  let n := N_of_ascii c in
  ((48 <=? n) && (n <=? 57) || (97 <=? n) && (n <=? 102))%N.

Definition sampleMapping (original generated : string) : ClassMapping :=
  mkClassMapping original (normalizeClassString original) generated None "App.svelte".

Definition sampleFiles : FileMappings :=
  [("App.svelte",
    mkFileMapping "App.svelte" "App.css"
      [sampleMapping "a b" "x"; sampleMapping "b c" "y"; sampleMapping "d" "z"])].

(** The versions of every namespace are there from 1 up to its counter. *)
Definition dense (t : Tables) : Prop :=
  forall ns v, namespaceVersions t !! ns = Some v ->
  forall k, (1 <= k <= v)%N ->
  is_Some (namespaceToClasses t !! versionedName ns k).

(** A namespace without a base entry has no counter above 0. *)
Definition countersBacked (t : Tables) : Prop :=
  forall ns, namespaceToClasses t !! ns = None -> highestVersionOf t ns = 0%N.

(** The operations on the tables: a resolver call, or a rebuild pass over
    the file mappings of the moment. *)
Inductive TableOp :=
| Resolve (classValue : string) (hint : option string)
| Rebuild (fms : FileMappings).

Definition applyOp (t : Tables) (op : TableOp) : Tables :=
  match op with
  | Resolve classValue hint => resolveTables t classValue hint
  | Rebuild fms => cleanupNamespaceVersions fms
  end.

Definition runOps (ops : list TableOp) : Tables :=
  List.fold_left applyOp ops emptyTables.

Definition isResolve (op : TableOp) : Prop :=
  match op with Resolve _ _ => True | Rebuild _ => False end.

(** A class mapping of [live] that stands behind the base entry of [ns], or
    behind its version [v], with canonical classes [c]. *)
Definition baseBacked (live : list ClassMapping) (ns c : string) : Prop :=
  exists cm, In cm live /\ usableNamespace (namespace cm) = Some ns /\
             normalizedClasses cm = c /\
             versionOfName ns (generatedClassName cm) = None.

Definition versionBacked (live : list ClassMapping) (ns : string) (v : N) (c : string) : Prop :=
  exists cm, In cm live /\ usableNamespace (namespace cm) = Some ns /\
             normalizedClasses cm = c /\
             versionOfName ns (generatedClassName cm) = Some v.

(** The entry [key] of the class table, holding [c], is backed by [live]. *)
Definition entryBacked (live : list ClassMapping) (key c : string) : Prop :=
  baseBacked live key c
  \/ exists ns v, key = versionedName ns v /\ versionBacked live ns v c.

(** What the first pass has gathered is backed by the mappings read. *)
Definition gathered (live : list ClassMapping)
    (acc : list (string * gset string) * list (string * list (N * gset string))) : Prop :=
  (forall ns s, In (ns, s) (fst acc) ->
     (exists c, c ∈ s) /\ forall c, c ∈ s -> baseBacked live ns c)
  /\ (forall ns vs v s, In (ns, vs) (snd acc) -> In (v, s) vs ->
     (exists c, c ∈ s) /\ forall c, c ∈ s -> versionBacked live ns v c).

(** Three source files that use one hint with three sets of classes. *)
Definition srcA : string := "<button tw-namespace='btn' class='p-1'>A</button>".
Definition srcB : string := "<button tw-namespace='btn' class='p-2'>B</button>".
Definition srcC : string := "<button tw-namespace='btn' class='p-3'>C</button>".

Definition pluginA : Plugin :=
  fst (transform (OptimizeBool true) emptyPlugin
         "/app/src/A.svelte" "src/A.svelte" "src/A.css" srcA).
Definition pluginAB : Plugin :=
  fst (transform (OptimizeBool true) pluginA
         "/app/src/components/B.svelte" "src/components/B.svelte" "src/components/B.css" srcB).
Definition pluginABC : Plugin :=
  fst (transform (OptimizeBool true) pluginAB
         "/app/src/C.svelte" "src/C.svelte" "src/C.css" srcC).

(** The full text of [a] sits in [text] at offset [i]. *)
Definition occursAt (text : string) (i : nat) (a : Scan.Attr) : Prop :=
  (0 < String.length (Scan.fullMatch a))%nat
  /\ exists rest, Scan.substringFrom i text = Scan.fullMatch a ++ rest.

(** The occurrences sit in [text] at their offsets, in increasing order and
    without overlap, none starting before [from]. *)
Inductive located (text : string) : nat -> list (nat * Scan.Attr) -> Prop :=
| located_nil from : located text from []
| located_cons from i a r :
    (from <= i)%nat -> occursAt text i a ->
    located text (i + String.length (Scan.fullMatch a)) r ->
    located text from ((i, a) :: r).

(** The test at the head of a rewriting loop, negated. *)
Definition keptOccurrence (skipBraces : bool) (o : nat * Scan.Attr) : bool :=
  negb (Js.isBlank (Scan.classValue (snd o))
        || (skipBraces && Js.includesChar "{" (Scan.classValue (snd o)))).

(** One class mapping per occurrence, resolved in order with the hint found
    for its offset, the tables being threaded through. *)
Fixpoint resolveInOrder (id : string) (namespaces : list NamespaceAttr) (t : Tables)
    (occs : list (nat * Scan.Attr)) : Tables * list (Scan.Attr * ClassMapping) :=
  match occs with
  | [] => (t, [])
  | (i, a) :: r =>
      let hint := findNamespaceForPosition namespaces i in
      let '(t1, res) := processClassValue t (Scan.classValue a) hint in
      let '(t2, ms) := resolveInOrder id namespaces t1 r in
      (t2, (a, mkClassMapping (Scan.classValue a) (resNormalizedClasses res)
                 (resGeneratedClassName res) hint id) :: ms)
  end.

(** The attribute with its class text replaced by the generated name. *)
Definition rewrittenText (am : Scan.Attr * ClassMapping) : string :=
  Scan.prefix (fst am) ++ generatedClassName (snd am) ++ Scan.suffix (fst am).

(** [g0 ++ p1 ++ g1 ++ ... ++ pn ++ gn] *)
Fixpoint interleave (gaps parts : list string) : string :=
  match gaps, parts with
  | g :: gs, p :: ps => g ++ p ++ interleave gs ps
  | g :: _, [] => g
  | [], _ => EmptyString
  end.



Definition matcherSound (matchAt : string -> option Scan.Attr) : Prop :=
  forall s a, matchAt s = Some a ->
    (0 < String.length (Scan.fullMatch a))%nat /\ exists rest, s = Scan.fullMatch a ++ rest.


(** Reading a generated stylesheet back: a line that opens a rule gives the
    class names of its selector list, an apply line inside it gives one
    utility for each of them, a closing brace ends the rule. *)
Module Sheet.

(** A line without the two characters that open a rule, if it ends with
    them. *)
Fixpoint dropBrace (line : string) : option string :=
  match line with
  | EmptyString => None
  | String c r =>
      if String.eqb line " {" then Some EmptyString
      else option_map (String c) (dropBrace r)
  end.

Fixpoint dropLast (s : string) : string :=
  match s with
  | EmptyString => EmptyString
  | String c r =>
      match r with
      | EmptyString => EmptyString
      | String _ _ => String c (dropLast r)
      end
  end.

Fixpoint dropSpaces (s : string) : string :=
  match s with
  | String " " r => dropSpaces r
  | _ => s
  end.

(** The class name of one selector of a selector list. *)
Definition selectorName (piece : string) : string :=
  match dropSpaces piece with
  | String "." r => r
  | other => other
  end.

Definition selectorNames (selector : string) : list string :=
  List.map selectorName (Css.splitChar "," selector).

Fixpoint parseLines (current : list string) (lines : list string)
    : list (string * string) :=
  match lines with
  | [] => []
  | line :: rest =>
      match Js.stripPrefix "  @apply " line with
      | Some body =>
          (List.map (fun name => (name, dropLast body)) current
           ++ parseLines current rest)%list
      | None =>
          if String.eqb line "}" then parseLines [] rest
          else
            match dropBrace line with
            | Some selector => parseLines (selectorNames selector) rest
            | None => parseLines current rest
            end
      end
  end.

(** The pairs (class name, utility) a stylesheet applies. *)
Definition associations (css : string) : list (string * string) :=
  parseLines [] (Css.splitChar "010" css).

End Sheet.

(** The class mappings agree on the utilities of every generated name. *)
Definition consistentNames (cms : list ClassMapping) : Prop :=
  forall cm1 cm2, In cm1 cms -> In cm2 cms ->
    generatedClassName cm1 = generatedClassName cm2 ->
    forall u, In u (Css.utilitiesOf cm1) <-> In u (Css.utilitiesOf cm2).

(** Some class mapping gives the utility [u] to the name [n]. *)
Definition applies (cms : list ClassMapping) (n u : string) : Prop :=
  exists cm, In cm cms /\ generatedClassName cm = n /\ In u (Css.utilitiesOf cm).

(** A rule of a stylesheet: the class names of its selector list and its
    utilities. *)
Definition Rule : Type := list string * list string.

Definition selectorOf (names : list string) : string :=
  Js.join ", " (List.map (fun c => "." ++ c) names).

Definition ruleText (r : Rule) : string :=
  Css.appendRule EmptyString (selectorOf (fst r)) (snd r).

Fixpoint renderRules (rules : list Rule) : string :=
  match rules with
  | [] => EmptyString
  | r :: rest => ruleText r ++ renderRules rest
  end.

Definition ruleAssociations (r : Rule) : list (string * string) :=
  List.flat_map (fun u => List.map (fun n => (n, u)) (fst r)) (snd r).

(** No character of [s] satisfies [p]. *)
Definition noneStr (p : ascii -> bool) (s : string) : bool :=
  negb (Js.existsbStr p s).

Definition isNewline : ascii -> bool := Ascii.eqb "010".

(** What the parser needs of a rule: at least one class name, every name a
    valid identifier, no utility with a line feed. *)
Definition ruleOk (r : Rule) : Prop :=
  fst r <> []
  /\ (forall n, In n (fst r) -> isValidCssIdentifier n = true)
  /\ (forall u, In u (snd r) -> noneStr isNewline u = true).

(** The generators, rule by rule: the same loops as in [Css], collecting
    the rules instead of their text. *)
Definition standardRulesStep (acc : list Rule * gset string) (classMapping : ClassMapping)
    : list Rule * gset string :=
  let '(rules, processedClasses) := acc in
  let className := generatedClassName classMapping in
  if bool_decide (className ∈ processedClasses) then acc
  else ((rules ++ [([className], Css.utilitiesOf classMapping)])%list,
        processedClasses ∪ {[className]}).

Definition standardRules (classMappings : list ClassMapping) : list Rule :=
  fst (List.fold_left standardRulesStep classMappings ([], ∅)).

(** The classes of a group key, and the test that lets a group through. *)
Definition classesOfKey (classKey : string) : list string :=
  Js.filterBoolean (Css.splitChar "," classKey).

Definition groupEmitted (e : string * list string) : bool :=
  negb ((List.length (classesOfKey (fst e)) <=? 1)%nat || (List.length (snd e) =? 0)%nat).

Definition emitGroupRules (acc : list Rule * gset string) (e : string * list string)
    : list Rule * gset string :=
  if groupEmitted e
  then ((fst acc ++ [(classesOfKey (fst e), snd e)])%list,
        Css.markProcessed (classesOfKey (fst e)) (snd e) (snd acc))
  else acc.

Definition remainingOf (processed : gset string) (e : string * list string) : list string :=
  List.filter (fun u => negb (bool_decide (Css.pairKey (fst e) u ∈ processed))) (snd e).

Definition emitRemainingRules (processed : gset string) (rules : list Rule)
    (e : string * list string) : list Rule :=
  if (0 <? List.length (remainingOf processed e))%nat
  then (rules ++ [([fst e], remainingOf processed e)])%list
  else rules.

Definition optimizedRules (classMappings : list ClassMapping) : list Rule :=
  let '(utilityToClasses, classDefinitions) :=
    List.fold_left Css.recordMapping classMappings ([], []) in
  let utilityGroups := List.fold_left Css.groupStep utilityToClasses [] in
  let '(rules, processed) := List.fold_left emitGroupRules utilityGroups ([], ∅) in
  List.fold_left (emitRemainingRules processed) classDefinitions rules.

(** A source in which the hint btn-1 meets version 1 of the hint btn, and
    the file mapping its scan gives. *)
Definition collidingSource : string :=
  "<a tw-namespace='btn-1' class='p-9'><b tw-namespace='btn' class='p-1'><c tw-namespace='btn' class='p-2'>".

Definition collidingMapping : FileMapping :=
  mkFileMapping "App.svelte" "App.css"
    (fileClassMappings (snd (processFile emptyTables collidingSource "/app/App.svelte"))).

Definition sampleFileMapping : FileMapping :=
  mkFileMapping "App.svelte" "App.css"
    [sampleMapping "a b" "x"; sampleMapping "b c" "y"; sampleMapping "d" "z"].

Definition applyLine (u : string) : string := "  @apply " ++ u ++ ";".

(** [m] maps every utility to the classes that [rel] relates to it. *)
Definition tracks (rel : string -> string -> Prop) (m : list (string * list string)) : Prop :=
  List.NoDup (List.map fst m)
  /\ (forall u cls, In (u, cls) m -> forall n, In n cls <-> rel n u)
  /\ (forall n u, rel n u -> exists cls, In (u, cls) m).

(** [defs] holds, for every generated name of [l], the utilities of one of
    its class mappings. *)
Definition defines (l : list ClassMapping) (defs : list (string * list string)) : Prop :=
  List.NoDup (List.map fst defs)
  /\ (forall n us, In (n, us) defs ->
        exists cm, In cm l /\ generatedClassName cm = n /\ us = Css.utilitiesOf cm)
  /\ (forall cm, In cm l -> exists us, In (generatedClassName cm, us) defs).

Definition grouped (p : list (string * list string)) (groups : list (string * list string))
    : Prop :=
  List.NoDup (List.map fst groups)
  /\ (forall key us, In (key, us) groups ->
        forall u, In u us <-> exists cls, In (u, cls) p /\ Css.classKeyOf cls = key)
  /\ (forall u cls, In (u, cls) p -> exists us, In (Css.classKeyOf cls, us) groups).

(** The order of [Array.prototype.sort] on strings, as a relation. *)
Definition leStr (a b : string) : Prop := Js.strLe a b = true.

(** The tokens of a class string. *)
Definition tokensOf (s : string) : list string := Js.filterBoolean (Js.splitWs s).

(** Every set of the class table is a singleton. *)
Definition singletons (t : Tables) : Prop :=
  forall key s, namespaceToClasses t !! key = Some s -> exists c, s = {[c]}.

Definition shadowOps : list TableOp :=
  [Resolve "p-9" (Some "btn-1"); Resolve "p-1" (Some "btn")].

(** What the first pass has gathered holds every backed set. *)
Definition collected (live : list ClassMapping)
    (acc : list (string * gset string) * list (string * list (N * gset string))) : Prop :=
  (forall ns c, baseBacked live ns c ->
     exists s, omGet ns (fst acc) = Some s /\ c ∈ s)
  /\ (forall ns v c, versionBacked live ns v c ->
     exists vs s, omGet ns (snd acc) = Some vs /\ omGet v vs = Some s /\ c ∈ s).

(** A class mapping as a scan of the file [id] records it. *)
Definition wellFormedMapping (id : string) (m : ClassMapping) : Prop :=
  sourceFile m = id
  /\ normalizedClasses m = normalizeClassString (originalClasses m)
  /\ Js.isBlank (originalClasses m) = false
  /\ isValidCssIdentifier (generatedClassName m) = true
  /\ match usableNamespace (namespace m) with
     | None => generatedClassName m = hashName (normalizedClasses m)
     | Some ns =>
         generatedClassName m = ns
         \/ exists v, (1 <= v)%N /\ generatedClassName m = versionedName ns v
     end.

(** The class mappings that bring a generated name for the first time;
    [seen] holds the names met before. *)
Fixpoint firstByName (seen : gset string) (cms : list ClassMapping) : list ClassMapping :=
  match cms with
  | [] => []
  | cm :: rest =>
      if bool_decide (generatedClassName cm ∈ seen) then firstByName seen rest
      else cm :: firstByName (seen ∪ {[generatedClassName cm]}) rest
  end.

(** The rule of one class mapping. *)
Definition ruleOfMapping (cm : ClassMapping) : Rule :=
  ([generatedClassName cm], Css.utilitiesOf cm).

(** The rules of one file in the main stylesheet and in its own. *)
Definition rulesOfFile (optimize : bool) (mapping : FileMapping) : list Rule :=
  if optimize then optimizedRules (mappings mapping) else standardRules (mappings mapping).

(** The last character of [s], or [prev] when [s] is empty. *)
Fixpoint lastOf (prev : option ascii) (s : string) : option ascii :=
  match s with
  | EmptyString => prev
  | String c r => lastOf (Some c) r
  end.

(** The test of the extraction loop on the selector list of a rule: some
    class name of the component occurs in it after a dot. *)
Definition relevantRule (names : list string) (r : Rule) : bool :=
  List.existsb (fun className => Str.includes ("." ++ className) (selectorOf (fst r))) names.

(** A rule as the extraction loop copies it: without the blank line. *)
Definition compactRuleText (r : Rule) : string :=
  (selectorOf (fst r) ++ " {") ++ Css.nl
  ++ Css.applyLines EmptyString (snd r) ++ "}" ++ Css.nl.

Fixpoint renderCompact (rules : list Rule) : string :=
  match rules with
  | [] => EmptyString
  | r :: rest => compactRuleText r ++ renderCompact rest
  end.

Definition isBrace (c : ascii) : bool := Ascii.eqb c "{" || Ascii.eqb c "}".

(** The lines of a rule in a generated stylesheet. *)
Definition ruleLines (r : Rule) : list string :=
  (selectorOf (fst r) ++ " {")
  :: (List.map applyLine (snd r) ++ ["}"; EmptyString])%list.

(** Two files, one using the hint btn twice and one using the hint
    btn-1x. *)
Definition leakFiles : FileMappings :=
  [("A.svelte",
    mkFileMapping "A.svelte" "A.css"
      [mkClassMapping "p-1" "p-1" "btn" (Some "btn") "A.svelte"]);
   ("B.svelte",
    mkFileMapping "B.svelte" "B.css"
      [mkClassMapping "p-2 m-1" "m-1 p-2" "btn-1x" (Some "btn-1x") "B.svelte"])].

(** A scan of [code] rewrites something: some plain class attribute has a
    class text that is neither blank nor holds an opening brace. *)
Definition rewritable (code : string) : bool :=
  negb (Nat.eqb (List.length (List.filter (keptOccurrence true)
                                (Scan.execAll Scan.matchClassAttr code 0 0))) 0).

(** What happens to a plugin instance: a call of the transform hook, an
    event of the watcher, the build start, or one of the other places that
    regenerate the stylesheets (the options hook in production, the start
    of the server, a request for a stylesheet). *)
Inductive Event :=
| Transform (production : bool) (code id relativeToMain relativePath cssFilePath : string)
| Change (file relativePath cssFilePath code : string)
| Unlink (relativePath : string)
| UnlinkDir (relativePath : string)
| BuildStart (production : bool) (files : list SourceFile)
| Regenerate.

(** The watcher is only set up outside the build mode. *)
Definition handle (cfg : Config) (p : Plugin) (e : Event) : Plugin :=
  match e with
  | Transform production code id relativeToMain relativePath cssFilePath =>
      fst (transformHook cfg production p code id relativeToMain relativePath cssFilePath)
  | Change file relativePath cssFilePath code =>
      match cfgMode cfg with
      | ModeBuild => p
      | ModeAll => watchChange cfg p file relativePath cssFilePath code
      end
  | Unlink relativePath =>
      match cfgMode cfg with
      | ModeBuild => p
      | ModeAll => unlink (cfgOptimizeCss cfg) p relativePath
      end
  | UnlinkDir relativePath =>
      match cfgMode cfg with
      | ModeBuild => p
      | ModeAll => unlinkDir (cfgOptimizeCss cfg) p relativePath
      end
  | BuildStart production files => buildStart cfg production p files
  | Regenerate => fst (updateCssFiles (cfgOptimizeCss cfg) p)
  end.

Definition run (cfg : Config) (events : list Event) : Plugin :=
  List.fold_left (handle cfg) events emptyPlugin.

(** The tables are those a rebuild gives for the tracked files, unless no
    file is tracked. *)
Definition synced (p : Plugin) : Prop :=
  fileMappings p = [] \/ tables p = cleanupNamespaceVersions (fileMappings p).

(** [before] ends where [pattern] occurs in [s] for the first time. *)
Definition firstOccurrence (pattern s before after : string) : Prop :=
  s = before ++ pattern ++ after
  /\ forall before' after', s = before' ++ pattern ++ after' ->
       (String.length before <= String.length before')%nat.

(* ===================================================================== *)
(** * Properties *)
(* ===================================================================== *)

(** ** The hash agrees with the test vectors of RFC 1321 *)

Example md5_empty : Md5.hex EmptyString = "d41d8cd98f00b204e9800998ecf8427e".
Proof. vm_compute. reflexivity. Qed.

Example md5_abc : Md5.hex "abc" = "900150983cd24fb0d6963f7d28e17f72".
Proof. vm_compute. reflexivity. Qed.

Example md5_message_digest :
  Md5.hex "message digest" = "f96b697d7cb7938d525a2f31aaf161d0".
Proof. vm_compute. reflexivity. Qed.

Example md5_two_blocks :
  Md5.hex "xxxxxxxxxxxxxxxxxxxxxxxxxxxxxxxxxxxxxxxxxxxxxxxxxxxxxxxxxxxxxxxxxxxxxx"
  = "7d56c0f83fd1e320d60ea2f13dfdeedd".
Proof. vm_compute. reflexivity. Qed.

Example md5_latin1 :
  Md5.hex ("caf" ++ String (ascii_of_N 233) "") = "07117fe4a1ebd544965dc19573183da2".
Proof. vm_compute. reflexivity. Qed.

(** ** Characters and strings *)

Lemma forallbStr_app (p : ascii -> bool) (a b : string) :
  Js.forallbStr p (a ++ b) = Js.forallbStr p a && Js.forallbStr p b.
Proof.
  induction a as [|c a IH]; simpl; [reflexivity|].
  rewrite IH. apply andb_assoc.
Qed.

Lemma forallbStr_impl (p q : ascii -> bool) (s : string) :
  (forall c, p c = true -> q c = true) ->
  Js.forallbStr p s = true -> Js.forallbStr q s = true.
Proof.
  intros Hpq. induction s as [|c s IH]; simpl; [reflexivity|].
  intros [Hc Hs]%andb_true_iff. rewrite (Hpq _ Hc), (IH Hs). reflexivity.
Qed.

Lemma forallbStr_take (p : ascii -> bool) (n : nat) (s : string) :
  Js.forallbStr p s = true -> Js.forallbStr p (Js.take n s) = true.
Proof.
  revert s. induction n as [|n IH]; intros [|c s]; simpl; try reflexivity.
  intros [Hc Hs]%andb_true_iff. rewrite Hc. simpl. apply IH, Hs.
Qed.

Lemma string_of_uint_digits (u : Decimal.uint) :
  Js.forallbStr Js.isDigit (NilEmpty.string_of_uint u) = true.
Proof. induction u; simpl; auto. Qed.

Lemma numberToString_digits (n : N) :
  Js.forallbStr Js.isDigit (Js.numberToString n) = true.
Proof. apply string_of_uint_digits. Qed.

Lemma isDigit_isIdentPart (c : ascii) : Js.isDigit c = true -> isIdentPart c = true.
Proof. intros H. unfold isIdentPart. rewrite H. apply orb_true_r. Qed.

(** A valid identifier followed by a dash and a decimal number is a valid
    identifier. *)
Lemma versionedName_valid (ns : string) (v : N) :
  isValidCssIdentifier ns = true -> isValidCssIdentifier (versionedName ns v) = true.
Proof.
  destruct ns as [|c ns]; [discriminate|].
  unfold versionedName. simpl.
  intros [Hc Hs]%andb_true_iff. rewrite Hc. simpl.
  rewrite forallbStr_app, Hs. simpl.
  apply (forallbStr_impl Js.isDigit); [apply isDigit_isIdentPart|].
  apply numberToString_digits.
Qed.

(** ** The digest is 32 lowercase hexadecimal digits *)

Lemma hexDigit_isHexDigit (x : Z) : isHexDigit (Md5.hexDigit x) = true.
Proof.
  unfold Md5.hexDigit.
  assert (H : (0 <= x mod 16 < 16)%Z) by (apply Z.mod_pos_bound; lia).
  remember (x mod 16)%Z as d eqn:E. clear E.
  assert (Hd : (d = 0 \/ d = 1 \/ d = 2 \/ d = 3 \/ d = 4 \/ d = 5 \/ d = 6 \/ d = 7 \/
                d = 8 \/ d = 9 \/ d = 10 \/ d = 11 \/ d = 12 \/ d = 13 \/ d = 14 \/
                d = 15)%Z) by lia.
  repeat (destruct Hd as [-> | Hd]; [reflexivity|]). subst d. reflexivity.
Qed.

Lemma hexBytes_isHexDigit (bs : list Z) :
  Js.forallbStr isHexDigit (Md5.hexBytes bs) = true.
Proof.
  induction bs as [|b bs IH]; simpl; [reflexivity|].
  rewrite !hexDigit_isHexDigit, IH. reflexivity.
Qed.

Lemma hexBytes_length (bs : list Z) :
  String.length (Md5.hexBytes bs) = (2 * List.length bs)%nat.
Proof. induction bs as [|b bs IH]; simpl; [reflexivity|]. rewrite IH. lia. Qed.

Lemma leBytes_length (n : nat) (x : Z) : List.length (Md5.leBytes n x) = n.
Proof. revert x. induction n as [|n IH]; intros x; simpl; [reflexivity|]. rewrite IH. reflexivity. Qed.

Lemma md5_hex_length (s : string) : String.length (Md5.hex s) = 32%nat.
Proof.
  unfold Md5.hex, Md5.digest. rewrite hexBytes_length.
  rewrite !List.length_app, !leBytes_length. reflexivity.
Qed.

Lemma take_length (n : nat) (s : string) :
  (n <= String.length s)%nat -> String.length (Js.take n s) = n.
Proof.
  revert s. induction n as [|n IH]; intros [|c s]; simpl; intros H; try lia.
  rewrite IH; lia.
Qed.

Lemma isHexDigit_isIdentPart (c : ascii) : isHexDigit c = true -> isIdentPart c = true.
Proof.
  unfold isHexDigit, isIdentPart, isIdentStart, Js.isAlpha, Js.isDigit.
  set (n := N_of_ascii c). intros H.
  repeat match goal with
         | |- context [(?a <=? ?b)%N] => destruct (N.leb_spec a b)
         | H : context [(?a <=? ?b)%N] |- _ => destruct (N.leb_spec a b)
         end; simpl in *; try reflexivity; try discriminate; try lia.
Qed.

Lemma hashName_valid (u : string) : isValidCssIdentifier (hashName u) = true.
Proof.
  unfold hashName.
  assert (H : Js.forallbStr isIdentPart (Js.take 6 (Md5.hex u)) = true).
  { apply (forallbStr_impl isHexDigit); [apply isHexDigit_isIdentPart|].
    apply forallbStr_take, hexBytes_isHexDigit. }
  revert H. generalize (Js.take 6 (Md5.hex u)). intros h H. simpl. exact H.
Qed.

Lemma usableNamespace_Some (hint : option string) (ns : string) :
  usableNamespace hint = Some ns <-> hint = Some ns /\ isValidCssIdentifier ns = true.
Proof.
  unfold usableNamespace. destruct hint as [h|]; [|split; [discriminate|intros [? _]; discriminate]].
  destruct h as [|c h]; simpl.
  - split; [discriminate|]. intros [[= <-] H]. discriminate.
  - destruct (isIdentStart c && Js.forallbStr isIdentPart h) eqn:E.
    + split; [intros [= <-]; auto|]. intros [[= <-] _]. reflexivity.
    + split; [discriminate|]. intros [[= <-] H]. simpl in H. congruence.
Qed.

Lemma usableNamespace_None (hint : option string) :
  usableNamespace hint = None <->
  hint = None \/ exists h, hint = Some h /\ isValidCssIdentifier h = false.
Proof.
  unfold usableNamespace. destruct hint as [h|].
  - destruct h as [|c h]; simpl.
    + split; [right; eexists; eauto | reflexivity].
    + destruct (isIdentStart c && Js.forallbStr isIdentPart h) eqn:E.
      * split; [discriminate|]. intros [? | (h' & [= <-] & H)]; [discriminate|].
        simpl in H. congruence.
      * split; [right; eexists; split; [reflexivity|exact E] | reflexivity].
  - split; [left; reflexivity | reflexivity].
Qed.

(* ===================================================================== *)
(** ** The normalizer *)
(* ===================================================================== *)

(** C2.  The source sorts the tokens but never removes a duplicate: a
    repeated token stays in the canonical form, so two class strings with
    the same tokens and different repetitions are told apart. *)
Theorem normalize_keeps_duplicates :
  normalizeClassString "b a a" = "a a b"
  /\ normalizeClassString "a b" = "a b"
  /\ normalizeClassString "b a a" <> normalizeClassString "a b".
Proof. repeat split; try reflexivity. vm_compute. discriminate. Qed.

(* ===================================================================== *)
(** ** The resolver *)
(* ===================================================================== *)

Section ScanVersions.
Variable classes : gmap string (gset string).
Variables ns c : string.

Let has (v : N) : bool := setHas (classes !! versionedName ns v) c.

(** The loop returns the first version from [v0] on whose set has the
    classes, and nothing when none of the [n] versions tried has them. *)
Lemma scanVersions_spec (n : nat) (v0 : N) :
  match scanVersions classes ns c v0 n with
  | Some v =>
      (v0 <= v < v0 + N.of_nat n)%N /\ has v = true /\
      forall v', (v0 <= v' < v)%N -> has v' = false
  | None => forall v', (v0 <= v' < v0 + N.of_nat n)%N -> has v' = false
  end.
Proof.
  revert v0. induction n as [|n IH]; intros v0; simpl.
  - intros v' Hv'. lia.
  - fold (has v0). destruct (has v0) eqn:E.
    + split; [lia|]. split; [exact E|]. intros v' Hv'. lia.
    + specialize (IH (v0 + 1)%N).
      destruct (scanVersions classes ns c (v0 + 1) n) as [v|].
      * destruct IH as (Hr & Hv & Hlow). split; [lia|]. split; [exact Hv|].
        intros v' Hv'. destruct (N.eq_dec v' v0) as [->|Hne]; [exact E|].
        apply Hlow. lia.
      * intros v' Hv'. destruct (N.eq_dec v' v0) as [->|Hne]; [exact E|].
        apply IH. lia.
Qed.

Lemma scanVersions_lowest (h v : N) :
  (1 <= v <= h)%N -> has v = true ->
  (forall v', (1 <= v' < v)%N -> has v' = false) ->
  scanVersions classes ns c 1 (N.to_nat h) = Some v.
Proof.
  intros Hv Hhas Hlow.
  pose proof (scanVersions_spec (N.to_nat h) 1) as Hs.
  destruct (scanVersions classes ns c 1 (N.to_nat h)) as [w|].
  - destruct Hs as (Hr & Hw & Hwlow). f_equal.
    destruct (N.lt_trichotomy w v) as [Hlt | [-> | Hgt]]; [|reflexivity|].
    + rewrite Hlow in Hw by lia. discriminate.
    + rewrite Hwlow in Hhas by lia. discriminate.
  - rewrite Hs in Hhas by lia. discriminate.
Qed.

Lemma scanVersions_none (h : N) :
  (forall v, (1 <= v <= h)%N -> has v = false) ->
  scanVersions classes ns c 1 (N.to_nat h) = None.
Proof.
  intros Hnone.
  pose proof (scanVersions_spec (N.to_nat h) 1) as Hs.
  destruct (scanVersions classes ns c 1 (N.to_nat h)) as [w|]; [|reflexivity].
  destruct Hs as (Hr & Hw & _). rewrite Hnone in Hw by lia. discriminate.
Qed.
End ScanVersions.

Lemma usableNamespace_valid (ns : string) :
  isValidCssIdentifier ns = true -> usableNamespace (Some ns) = Some ns.
Proof. intros H. apply usableNamespace_Some. auto. Qed.

(** C1.  From empty tables, under the hint btn: the first canonical set gets
    the bare name, a second one gets version 1, and the first one again gets
    the bare name back and leaves the tables alone.  In general, for a
    namespace already seen: a set of the base entry is answered with the
    bare name; otherwise a set held by some version 1..highest is answered
    with the name of the lowest such version; otherwise the set is stored
    under version highest+1.  An unseen namespace is stored as the base
    entry with counter 0. *)
Theorem resolver_versioning :
  (forall cv1 cv2 cv3 : string,
     normalizeClassString cv1 = "bg-blue-500 p-2" ->
     normalizeClassString cv2 = "bg-red-500 p-2" ->
     normalizeClassString cv3 = "bg-blue-500 p-2" ->
     let t1 := resolveTables emptyTables cv1 (Some "btn") in
     let t2 := resolveTables t1 cv2 (Some "btn") in
     resolveName emptyTables cv1 (Some "btn") = "btn" /\
     resolveName t1 cv2 (Some "btn") = "btn-1" /\
     resolveName t2 cv3 (Some "btn") = "btn" /\
     resolveTables t2 cv3 (Some "btn") = t2)
  /\
  (forall (t : Tables) (classValue ns : string),
     isValidCssIdentifier ns = true ->
     let c := normalizeClassString classValue in
     let h := highestVersionOf t ns in
     let has (v : N) := setHas (namespaceToClasses t !! versionedName ns v) c in
     (namespaceToClasses t !! ns = None ->
        processClassValue t classValue (Some ns) =
          (mkTables (<[ns := 0%N]> (namespaceVersions t))
                    (<[ns := {[c]}]> (namespaceToClasses t)),
           mkResolution c ns)) /\
     (forall base, namespaceToClasses t !! ns = Some base -> c ∈ base ->
        processClassValue t classValue (Some ns) = (t, mkResolution c ns)) /\
     (forall base v, namespaceToClasses t !! ns = Some base -> c ∉ base ->
        (1 <= v <= h)%N -> has v = true ->
        (forall v', (1 <= v' < v)%N -> has v' = false) ->
        processClassValue t classValue (Some ns) =
          (t, mkResolution c (versionedName ns v))) /\
     (forall base, namespaceToClasses t !! ns = Some base -> c ∉ base ->
        (forall v, (1 <= v <= h)%N -> has v = false) ->
        processClassValue t classValue (Some ns) =
          (mkTables (<[ns := (h + 1)%N]> (namespaceVersions t))
                    (<[versionedName ns (h + 1) := {[c]}]> (namespaceToClasses t)),
           mkResolution c (versionedName ns (h + 1))))).
Proof.
  split.
  - intros cv1 cv2 cv3 H1 H2 H3.
    unfold resolveName, resolveTables, processClassValue.
    rewrite H1, H2, H3. vm_compute. repeat split; reflexivity.
  - intros t classValue ns Hvalid c h has. subst c h has.
    unfold processClassValue. rewrite (usableNamespace_valid _ Hvalid).
    repeat split.
    + intros ->. reflexivity.
    + intros base -> Hin. rewrite bool_decide_eq_true_2 by exact Hin. reflexivity.
    + intros base v -> Hnin Hv Hhas Hlow.
      rewrite bool_decide_eq_false_2 by exact Hnin.
      rewrite (scanVersions_lowest _ _ _ _ v Hv Hhas Hlow). reflexivity.
    + intros base -> Hnin Hnone.
      rewrite bool_decide_eq_false_2 by exact Hnin.
      rewrite (scanVersions_none _ _ _ _ Hnone). reflexivity.
Qed.

Lemma resolver_versioning_witness :
  normalizeClassString "bg-blue-500 p-2" = "bg-blue-500 p-2"
  /\ normalizeClassString "p-2 bg-red-500" = "bg-red-500 p-2"
  /\ normalizeClassString "p-2  bg-blue-500" = "bg-blue-500 p-2"
  /\ (let t1 := resolveTables emptyTables "bg-blue-500 p-2" (Some "btn") in
      let t2 := resolveTables t1 "p-2 bg-red-500" (Some "btn") in
      resolveName emptyTables "bg-blue-500 p-2" (Some "btn") = "btn" /\
      resolveName t1 "p-2 bg-red-500" (Some "btn") = "btn-1" /\
      resolveName t2 "p-2  bg-blue-500" (Some "btn") = "btn" /\
      resolveTables t2 "p-2  bg-blue-500" (Some "btn") = t2)
  /\ (let t2 := runOps [Resolve "bg-blue-500 p-2" (Some "btn");
                        Resolve "p-2 bg-red-500" (Some "btn")] in
      isValidCssIdentifier "btn" = true
      /\ namespaceToClasses t2 !! "btn" = Some {["bg-blue-500 p-2"]}
      /\ processClassValue t2 "bg-red-500   p-2" (Some "btn")
         = (t2, mkResolution "bg-red-500 p-2" "btn-1")).
Proof.
  split; [reflexivity|]. split; [reflexivity|]. split; [reflexivity|].
  split; [apply (proj1 resolver_versioning); reflexivity|].
  cbv zeta. split; [reflexivity|].
  assert (Hbase : namespaceToClasses
                    (runOps [Resolve "bg-blue-500 p-2" (Some "btn");
                             Resolve "p-2 bg-red-500" (Some "btn")]) !! "btn"
                  = Some {["bg-blue-500 p-2"]}) by (vm_compute; reflexivity).
  split; [exact Hbase|].
  refine (proj1 (proj2 (proj2
            (proj2 resolver_versioning _ "bg-red-500   p-2" "btn" eq_refl)))
            _ 1%N Hbase _ _ _ _).
  - intros Hin. apply elem_of_singleton in Hin. vm_compute in Hin. discriminate Hin.
  - vm_compute. split; discriminate.
  - vm_compute. reflexivity.
  - intros v' Hv'. lia.
Defined.

(** C5.  With no usable hint the answer is tw- followed by the first six
    hexadecimal digits of the MD5 of the canonical form; the tables are
    neither read nor written, so the name depends on the canonical form
    alone. *)
Theorem hash_fallback (t : Tables) (classValue : string) (hint : option string) :
  hint = None \/ (exists h, hint = Some h /\ isValidCssIdentifier h = false) ->
  let u := normalizeClassString classValue in
  processClassValue t classValue hint
    = (t, mkResolution u ("tw-" ++ Js.take 6 (Md5.hex u)))
  /\ String.length (Js.take 6 (Md5.hex u)) = 6%nat
  /\ Js.forallbStr isHexDigit (Js.take 6 (Md5.hex u)) = true
  /\ (forall (t' : Tables) (classValue' : string) (hint' : option string),
        hint' = None \/ (exists h, hint' = Some h /\ isValidCssIdentifier h = false) ->
        normalizeClassString classValue' = u ->
        resolveName t' classValue' hint' = resolveName t classValue hint).
Proof.
  intros Hhint u.
  assert (Hgen : forall t0 cv0 hint0,
             hint0 = None \/ (exists h, hint0 = Some h /\ isValidCssIdentifier h = false) ->
             processClassValue t0 cv0 hint0
             = (t0, mkResolution (normalizeClassString cv0)
                      ("tw-" ++ Js.take 6 (Md5.hex (normalizeClassString cv0))))).
  { intros t0 cv0 hint0 H0. unfold processClassValue.
    rewrite (proj2 (usableNamespace_None hint0) H0). reflexivity. }
  split; [apply Hgen, Hhint|].
  split; [apply take_length; rewrite md5_hex_length; lia|].
  split; [apply forallbStr_take, hexBytes_isHexDigit|].
  intros t' cv' hint' Hhint' Hu.
  unfold resolveName. rewrite (Hgen _ _ _ Hhint'), (Hgen _ _ _ Hhint), Hu.
  reflexivity.
Qed.

Lemma hash_fallback_witness :
  (exists h, Some "not an identifier" = Some h /\ isValidCssIdentifier h = false)
  /\ processClassValue emptyTables "p-2   bg-blue-500" (Some "not an identifier")
     = (emptyTables, mkResolution "bg-blue-500 p-2" "tw-dee05f").
Proof.
  split; [eexists; split; reflexivity|].
  etransitivity;
    [apply (hash_fallback emptyTables "p-2   bg-blue-500" (Some "not an identifier"));
     right; eexists; split; reflexivity|].
  vm_compute. reflexivity.
Defined.

(** C10.  Whatever the class string, the hint and the tables, the name the
    resolver returns is a valid CSS identifier: a hash name, a valid hint,
    or a valid hint followed by a dash and a decimal number. *)
Theorem generated_name_valid (t : Tables) (classValue : string) (hint : option string) :
  isValidCssIdentifier (resolveName t classValue hint) = true.
Proof.
  unfold resolveName, processClassValue.
  destruct (usableNamespace hint) as [ns|] eqn:Hu.
  - apply usableNamespace_Some in Hu as [_ Hvalid].
    destruct (namespaceToClasses t !! ns) as [existing|]; [|exact Hvalid].
    case_bool_decide; [exact Hvalid|].
    destruct (scanVersions _ _ _ _ _); apply versionedName_valid, Hvalid.
  - apply hashName_valid.
Qed.

(* ===================================================================== *)
(** ** Auto-select *)
(* ===================================================================== *)

(** C6.  When the auto mode writes a main stylesheet, its length without
    comments and blank lines is the least of the three candidate lengths,
    so no candidate is shorter; the global candidate is kept whenever it
    reaches the least length, else the component one whenever it does, else
    the standard one. *)
Theorem auto_select_smallest (p : Plugin) (content : string) :
  snd (updateCssFiles OptimizeAuto p) = Some content ->
  let global := Css.generateGlobalOptimizedCss (fileMappings p) in
  let component := Css.generateCssContent (fileMappings p) true in
  let standard := Css.generateCssContent (fileMappings p) false in
  let g := Css.getContentLengthExcludingComments global in
  let o := Css.getContentLengthExcludingComments component in
  let s := Css.getContentLengthExcludingComments standard in
  let least := Nat.min g (Nat.min o s) in
  Css.getContentLengthExcludingComments content = least
  /\ (g = least -> content = global)
  /\ (g <> least -> o = least -> content = component)
  /\ (g <> least -> o <> least -> content = standard).
Proof.
  unfold updateCssFiles. destruct (fileMappings p) as [|e fms] eqn:Hfms; [discriminate|].
  cbn [snd]. intros [= <-]. unfold Css.autoSelect.
  set (global := Css.generateGlobalOptimizedCss (e :: fms)).
  set (component := Css.generateCssContent (e :: fms) true).
  set (standard := Css.generateCssContent (e :: fms) false).
  set (g := Css.getContentLengthExcludingComments global).
  set (o := Css.getContentLengthExcludingComments component).
  set (s := Css.getContentLengthExcludingComments standard).
  cbv zeta.
  destruct (Nat.leb_spec g o) as [Hgo|Hgo]; destruct (Nat.leb_spec g s) as [Hgs|Hgs];
    cbn [andb snd]; try destruct (Nat.leb_spec o s) as [Hos|Hos]; cbn [snd];
    fold g o s; repeat split; intros; try reflexivity; lia.
Qed.

Lemma auto_select_smallest_witness :
  snd (updateCssFiles OptimizeAuto (mkPlugin emptyTables sampleFiles))
    = Some (Css.generateGlobalOptimizedCss sampleFiles)
  /\ Css.getContentLengthExcludingComments (Css.generateGlobalOptimizedCss sampleFiles)
     = Nat.min
         (Css.getContentLengthExcludingComments (Css.generateGlobalOptimizedCss sampleFiles))
         (Nat.min
            (Css.getContentLengthExcludingComments (Css.generateCssContent sampleFiles true))
            (Css.getContentLengthExcludingComments (Css.generateCssContent sampleFiles false))).
Proof.
  assert (H : snd (updateCssFiles OptimizeAuto (mkPlugin emptyTables sampleFiles))
              = Some (Css.generateGlobalOptimizedCss sampleFiles))
    by (vm_compute; reflexivity).
  split; [exact H|].
  exact (proj1 (auto_select_smallest (mkPlugin emptyTables sampleFiles) _ H)).
Defined.

(* ===================================================================== *)
(** ** Version numbers *)
(* ===================================================================== *)

Lemma dense_empty : dense emptyTables.
Proof. intros ns v H. cbn in H. rewrite lookup_empty in H. discriminate. Qed.

Lemma countersBacked_empty : countersBacked emptyTables.
Proof. intros ns _. unfold highestVersionOf. cbn. rewrite lookup_empty. reflexivity. Qed.

(** What a resolver call does to the tables, case by case. *)
Lemma resolveTables_cases (t : Tables) (classValue : string) (hint : option string) :
  resolveTables t classValue hint = t
  \/ (exists ns, namespaceToClasses t !! ns = None /\
        resolveTables t classValue hint =
          mkTables (<[ns := 0%N]> (namespaceVersions t))
                   (<[ns := {[normalizeClassString classValue]}]> (namespaceToClasses t)))
  \/ (exists ns, is_Some (namespaceToClasses t !! ns) /\
        resolveTables t classValue hint =
          mkTables (<[ns := (highestVersionOf t ns + 1)%N]> (namespaceVersions t))
                   (<[versionedName ns (highestVersionOf t ns + 1)
                        := {[normalizeClassString classValue]}]> (namespaceToClasses t))).
Proof.
  unfold resolveTables, processClassValue.
  destruct (usableNamespace hint) as [ns|]; [|left; reflexivity].
  destruct (namespaceToClasses t !! ns) as [existing|] eqn:E.
  - case_bool_decide; [left; reflexivity|].
    destruct (scanVersions _ _ _ _ _); [left; reflexivity|].
    right; right. exists ns. rewrite E. split; [eauto|reflexivity].
  - right; left. exists ns. split; [exact E|reflexivity].
Qed.

Lemma resolve_dense (t : Tables) (classValue : string) (hint : option string) :
  dense t -> dense (resolveTables t classValue hint).
Proof.
  intros Hd.
  destruct (resolveTables_cases t classValue hint)
    as [-> | [(ns & Hnone & ->) | (ns & Hsome & ->)]]; [exact Hd| |].
  - intros ns' v Hv k Hk. cbn in *.
    destruct (decide (ns = ns')) as [<-|Hne].
    + rewrite lookup_insert_eq in Hv. injection Hv as <-. lia.
    + rewrite lookup_insert_ne in Hv by exact Hne.
      destruct (Hd ns' v Hv k Hk) as [s Hs].
      destruct (decide (ns = versionedName ns' k)) as [->|Hne'].
      * rewrite lookup_insert_eq. eauto.
      * rewrite lookup_insert_ne by exact Hne'. eauto.
  - intros ns' v Hv k Hk. cbn in *.
    set (key := versionedName ns (highestVersionOf t ns + 1)) in *.
    destruct (decide (key = versionedName ns' k)) as [<-|Hne'].
    + rewrite lookup_insert_eq. eauto.
    + rewrite lookup_insert_ne by exact Hne'.
      destruct (decide (ns = ns')) as [<-|Hne].
      * rewrite lookup_insert_eq in Hv. injection Hv as <-.
        assert (k <> (highestVersionOf t ns + 1)%N) by (intros ->; apply Hne'; reflexivity).
        unfold highestVersionOf in *.
        destruct (namespaceVersions t !! ns) as [h|] eqn:Eh; cbn in *.
        -- apply (Hd ns h Eh k). lia.
        -- lia.
      * rewrite lookup_insert_ne in Hv by exact Hne. apply (Hd ns' v Hv k Hk).
Qed.

Lemma resolve_countersBacked (t : Tables) (classValue : string) (hint : option string) :
  countersBacked t -> countersBacked (resolveTables t classValue hint).
Proof.
  intros Hb.
  destruct (resolveTables_cases t classValue hint)
    as [-> | [(ns & Hnone & ->) | (ns & [base Hsome] & ->)]]; [exact Hb| |];
    intros ns' Hn; unfold highestVersionOf in *; cbn in *.
  - destruct (decide (ns = ns')) as [<-|Hne].
    + rewrite lookup_insert_eq in Hn. discriminate.
    + rewrite lookup_insert_ne in Hn by exact Hne.
      rewrite lookup_insert_ne by exact Hne. apply Hb, Hn.
  - destruct (decide (versionedName ns (default 0%N (namespaceVersions t !! ns) + 1) = ns'))
      as [<-|Hne'].
    + rewrite lookup_insert_eq in Hn. discriminate.
    + rewrite lookup_insert_ne in Hn by exact Hne'.
      assert (ns <> ns') by (intros <-; congruence).
      rewrite lookup_insert_ne by assumption. apply Hb, Hn.
Qed.

Lemma resolve_monotone (t : Tables) (classValue : string) (hint : option string) (ns : string) :
  countersBacked t ->
  (highestVersionOf t ns <= highestVersionOf (resolveTables t classValue hint) ns)%N.
Proof.
  intros Hb.
  destruct (resolveTables_cases t classValue hint)
    as [-> | [(ns0 & Hnone & ->) | (ns0 & Hsome & ->)]]; [lia| |].
  - destruct (decide (ns0 = ns)) as [->|Hne].
    + rewrite (Hb ns Hnone). lia.
    + unfold highestVersionOf. cbn. rewrite lookup_insert_ne by exact Hne. lia.
  - destruct (decide (ns0 = ns)) as [->|Hne].
    + unfold highestVersionOf at 2. cbn. rewrite lookup_insert_eq. cbn. lia.
    + unfold highestVersionOf. cbn. rewrite lookup_insert_ne by exact Hne. lia.
Qed.

(* ===================================================================== *)
(** ** The rebuild pass *)
(* ===================================================================== *)

Section OrderedMapFacts.
Context {K V : Type} `{EqDecision K}.

Lemma omGet_In (k : K) (v : V) (m : list (K * V)) :
  omGet k m = Some v -> In (k, v) m.
Proof.
  induction m as [|[k' v'] m IH]; simpl; [discriminate|].
  destruct (decide (k = k')) as [->|Hne]; [intros [= ->]; left; reflexivity|].
  intros H. right. apply IH, H.
Qed.

Lemma omSet_In (k k' : K) (v v' : V) (m : list (K * V)) :
  In (k', v') (omSet k v m) -> (k' = k /\ v' = v) \/ In (k', v') m.
Proof.
  induction m as [|[k0 v0] m IH]; simpl.
  - intros [[= <- <-]|[]]. left. auto.
  - destruct (decide (k = k0)) as [->|Hne]; simpl.
    + intros [[= <- <-]|H]; [left; auto|right; right; exact H].
    + intros [H|H]; [right; left; exact H|].
      destruct (IH H) as [?|?]; [left; assumption|right; right; assumption].
Qed.
End OrderedMapFacts.

Lemma default_omGet_In {K W : Type} `{EqDecision K} (k : K) (x : W)
    (m : list (K * list W)) :
  In x (default [] (omGet k m)) -> exists l, In (k, l) m /\ In x l.
Proof.
  destruct (omGet k m) as [l|] eqn:E; simpl; [|intros []].
  intros H. exists l. split; [apply omGet_In, E|exact H].
Qed.

Lemma addTo_elem (old : option (gset string)) (x c : string) :
  c ∈ addTo old x -> c = x \/ exists s, old = Some s /\ c ∈ s.
Proof.
  unfold addTo. intros [H|H]%elem_of_union.
  - destruct old as [s|]; simpl in H; [right; eauto|]. set_solver.
  - left. set_solver.
Qed.

Lemma addTo_inhabited (old : option (gset string)) (x : string) :
  exists c, c ∈ addTo old x.
Proof. exists x. unfold addTo. set_solver. Qed.

Lemma baseBacked_mono (l l' : list ClassMapping) ns c :
  (forall cm, In cm l -> In cm l') -> baseBacked l ns c -> baseBacked l' ns c.
Proof. intros Hsub (cm & Hin & H). exists cm. split; [apply Hsub, Hin|exact H]. Qed.

Lemma versionBacked_mono (l l' : list ClassMapping) ns v c :
  (forall cm, In cm l -> In cm l') -> versionBacked l ns v c -> versionBacked l' ns v c.
Proof. intros Hsub (cm & Hin & H). exists cm. split; [apply Hsub, Hin|exact H]. Qed.

Lemma collectMapping_gathered (l : list ClassMapping) acc (cm : ClassMapping) :
  gathered l acc -> gathered (l ++ [cm]) (collectMapping acc cm).
Proof.
  intros [Hbase Hver].
  assert (Hsub : forall x, In x l -> In x (l ++ [cm])) by (intros; apply in_or_app; auto).
  assert (Hcm : In cm (l ++ [cm])) by (apply in_or_app; right; left; reflexivity).
  assert (Hold : gathered (l ++ [cm]) acc).
  { split.
    - intros ns s Hin. destruct (Hbase ns s Hin) as [Hne Hb]. split; [exact Hne|].
      intros c Hc. eapply baseBacked_mono; eauto.
    - intros ns vs v s Hin Hin'. destruct (Hver ns vs v s Hin Hin') as [Hne Hb].
      split; [exact Hne|]. intros c Hc. eapply versionBacked_mono; eauto. }
  destruct Hold as [Hbase' Hver'].
  destruct acc as [allNs allVer]. unfold collectMapping.
  destruct (usableNamespace (namespace cm)) as [ns|] eqn:Hu; [|split; assumption].
  destruct (versionOfName ns (generatedClassName cm)) as [version|] eqn:Hv.
  - split; [exact Hbase'|]. cbn [fst snd] in *.
    intros ns' vs v s Hin Hin'.
    apply omSet_In in Hin as [[-> ->]|Hin]; [|eapply Hver'; eauto].
    apply omSet_In in Hin' as [[-> ->]|Hin']; [|].
    + split; [apply addTo_inhabited|]. intros c Hc.
      apply addTo_elem in Hc as [->|(s0 & Hs0 & Hc)].
      * exists cm. auto.
      * apply omGet_In in Hs0.
        apply default_omGet_In in Hs0 as (vs0 & Hvs0 & Hs0).
        eapply Hver'; eauto.
    + apply default_omGet_In in Hin' as (vs0 & Hvs0 & Hs0). eapply Hver'; eauto.
  - split; [|exact Hver']. cbn [fst snd] in *.
    intros ns' s Hin.
    apply omSet_In in Hin as [[-> ->]|Hin]; [|eapply Hbase'; eauto].
    split; [apply addTo_inhabited|]. intros c Hc.
    apply addTo_elem in Hc as [->|(s0 & Hs0 & Hc)].
    + exists cm. auto.
    + apply omGet_In in Hs0. eapply Hbase'; eauto.
Qed.

Lemma collect_gathered (l : list ClassMapping) :
  gathered l (List.fold_left collectMapping l ([], [])).
Proof.
  induction l as [|cm l IH] using rev_ind.
  - split; simpl; intros; contradiction.
  - rewrite fold_left_app. simpl. apply collectMapping_gathered, IH.
Qed.

Section InsertVersions.
Variable ns : string.

Let insertVersions (vs : list (N * gset string)) (m : gmap string (gset string)) :=
  List.fold_left (fun table e => <[versionedName ns (fst e) := snd e]> table) vs m.

Lemma insertVersions_lookup vs (m : gmap string (gset string)) key s :
  insertVersions vs m !! key = Some s ->
  m !! key = Some s \/ exists v, In (v, s) vs /\ key = versionedName ns v.
Proof.
  unfold insertVersions. revert m.
  induction vs as [|[v0 s0] vs IH]; intros m; simpl; [auto|].
  intros H. apply IH in H as [H|(v & Hin & ->)].
  - destruct (decide (versionedName ns v0 = key)) as [<-|Hne].
    + rewrite lookup_insert_eq in H. injection H as <-. right. eauto.
    + rewrite lookup_insert_ne in H by exact Hne. auto.
  - right. eauto.
Qed.

Lemma insertVersions_is_Some vs (m : gmap string (gset string)) key :
  is_Some (m !! key) -> is_Some (insertVersions vs m !! key).
Proof.
  unfold insertVersions. revert m.
  induction vs as [|[v0 s0] vs IH]; intros m; simpl; [auto|].
  intros H. apply IH.
  destruct (decide (versionedName ns v0 = key)) as [<-|Hne].
  - rewrite lookup_insert_eq. eauto.
  - rewrite lookup_insert_ne by exact Hne. exact H.
Qed.
End InsertVersions.

Lemma fold_max_In (l : list N) (a : N) :
  List.fold_left N.max l a = a \/ In (List.fold_left N.max l a) l.
Proof.
  revert a. induction l as [|x l IH]; intros a; simpl; [auto|].
  destruct (IH (N.max a x)) as [H|H]; [|auto].
  rewrite H. destruct (N.max_spec a x) as [[_ ->]|[_ ->]]; auto.
Qed.

Lemma maxVersionOf_In (vs : list (N * gset string)) :
  maxVersionOf vs <> 0%N -> exists s, In (maxVersionOf vs, s) vs.
Proof.
  unfold maxVersionOf. intros Hne.
  destruct (fold_max_In (List.map fst vs) 0%N) as [H|H]; [contradiction|].
  apply in_map_iff in H as ([v s] & Hv & Hin). simpl in Hv. rewrite <- Hv. eauto.
Qed.

Section Rebuild.
Variable allVer : list (string * list (N * gset string)).

Lemma rebuild_classes (l : list (string * gset string)) (t0 : Tables) key s :
  namespaceToClasses (List.fold_left (rebuildNamespace allVer) l t0) !! key = Some s ->
  namespaceToClasses t0 !! key = Some s
  \/ exists ns s0, In (ns, s0) l /\
       ((key = ns /\ s = s0)
        \/ exists v, In (v, s) (default [] (omGet ns allVer)) /\ key = versionedName ns v).
Proof.
  revert t0. induction l as [|[ns s0] l IH]; intros t0; simpl; [auto|].
  intros H. apply IH in H as [H|(ns' & s' & Hin & H)].
  - cbn in H. apply insertVersions_lookup in H as [H|(v & Hin & ->)].
    + destruct (decide (ns = key)) as [<-|Hne].
      * rewrite lookup_insert_eq in H. injection H as <-.
        right. exists ns, s0. auto.
      * rewrite lookup_insert_ne in H by exact Hne. auto.
    + right. exists ns, s0. split; [auto|]. right. eauto.
  - right. exists ns', s'. auto.
Qed.

Lemma rebuild_versions (l : list (string * gset string)) (t0 : Tables) ns h :
  namespaceVersions (List.fold_left (rebuildNamespace allVer) l t0) !! ns = Some h ->
  namespaceVersions t0 !! ns = Some h
  \/ exists s0, In (ns, s0) l /\ h = maxVersionOf (default [] (omGet ns allVer)).
Proof.
  revert t0. induction l as [|[ns0 s0] l IH]; intros t0; simpl; [auto|].
  intros H. apply IH in H as [H|(s' & Hin & H)].
  - cbn in H. destruct (decide (ns0 = ns)) as [<-|Hne].
    + rewrite lookup_insert_eq in H. injection H as <-. right. eauto.
    + rewrite lookup_insert_ne in H by exact Hne. auto.
  - right. eauto.
Qed.

Lemma rebuild_counters (l : list (string * gset string)) (t0 : Tables) :
  (forall ns, is_Some (namespaceVersions t0 !! ns) -> is_Some (namespaceToClasses t0 !! ns)) ->
  forall ns,
    is_Some (namespaceVersions (List.fold_left (rebuildNamespace allVer) l t0) !! ns) ->
    is_Some (namespaceToClasses (List.fold_left (rebuildNamespace allVer) l t0) !! ns).
Proof.
  revert t0. induction l as [|[ns0 s0] l IH]; intros t0 H0; simpl; [exact H0|].
  apply IH. intros ns Hns. cbn in *. apply insertVersions_is_Some.
  destruct (decide (ns0 = ns)) as [<-|Hne].
  - rewrite lookup_insert_eq. eauto.
  - rewrite lookup_insert_ne in Hns by exact Hne.
    rewrite lookup_insert_ne by exact Hne. apply H0, Hns.
Qed.
End Rebuild.

Lemma cleanup_countersBacked (fms : FileMappings) :
  countersBacked (cleanupNamespaceVersions fms).
Proof.
  unfold cleanupNamespaceVersions. destruct (collectNamespaces fms) as [allNs allVer].
  intros ns Hnone. unfold highestVersionOf.
  destruct (namespaceVersions _ !! ns) as [h|] eqn:E; [|reflexivity].
  assert (Hs : is_Some (namespaceToClasses
                          (List.fold_left (rebuildNamespace allVer) allNs emptyTables) !! ns)).
  { apply rebuild_counters; [|rewrite E; eauto].
    intros ns' [x Hx]. cbn in Hx. rewrite lookup_empty in Hx. discriminate. }
  rewrite Hnone in Hs. destruct Hs as [? [=]].
Qed.

(** The entries of the rebuilt tables, traced back to the live mappings. *)
Lemma cleanup_backed (fms : FileMappings) :
  let live := allClassMappings fms in
  let t := cleanupNamespaceVersions fms in
  (forall key s, namespaceToClasses t !! key = Some s ->
     (exists c, c ∈ s) /\ forall c, c ∈ s -> entryBacked live key c)
  /\ (forall ns h, namespaceVersions t !! ns = Some h ->
     (exists c, baseBacked live ns c)
     /\ (h <> 0%N -> exists c, versionBacked live ns h c)).
Proof.
  intros live t. subst t. unfold cleanupNamespaceVersions, collectNamespaces.
  fold live. pose proof (collect_gathered live) as Hg.
  destruct (List.fold_left collectMapping live ([], [])) as [allNs allVer].
  destruct Hg as [Hbase Hver].
  cbn [fst snd] in *. split.
  - intros key s H. apply rebuild_classes in H as [H|(ns & s0 & Hin & H)].
    { cbn in H. rewrite lookup_empty in H. discriminate. }
    destruct H as [[-> ->]|(v & Hv & ->)].
    + destruct (Hbase ns s0 Hin) as [Hne Hb]. split; [exact Hne|].
      intros c Hc. left. apply Hb, Hc.
    + apply default_omGet_In in Hv as (vs & Hvs & Hv).
      destruct (Hver ns vs v s Hvs Hv) as [Hne Hb]. split; [exact Hne|].
      intros c Hc. right. exists ns, v. split; [reflexivity|apply Hb, Hc].
  - intros ns h H. apply rebuild_versions in H as [H|(s0 & Hin & ->)].
    { cbn in H. rewrite lookup_empty in H. discriminate. }
    destruct (Hbase ns s0 Hin) as [[c Hc] Hb]. split; [exists c; apply Hb, Hc|].
    intros Hne. apply maxVersionOf_In in Hne as [s Hs].
    apply default_omGet_In in Hs as (vs & Hvs & Hs).
    destruct (Hver ns vs _ s Hvs Hs) as [[c' Hc'] Hb']. exists c'. apply Hb', Hc'.
Qed.

Lemma entryBacked_single (live : list ClassMapping) (key c : string) :
  entryBacked live key c -> exists cm, In cm live /\ entryBacked [cm] key c.
Proof.
  intros [(cm & Hin & H)|(ns & v & -> & cm & Hin & H)]; exists cm; (split; [exact Hin|]).
  - left. exists cm. split; [left; reflexivity|exact H].
  - right. exists ns, v. split; [reflexivity|]. exists cm. split; [left; reflexivity|exact H].
Qed.

Lemma allClassMappings_In (fms : FileMappings) (cm : ClassMapping) :
  In cm (allClassMappings fms) <-> exists file fm, In (file, fm) fms /\ In cm (mappings fm).
Proof.
  unfold allClassMappings. rewrite in_flat_map. split.
  - intros ([file fm] & Hin & Hcm). eauto.
  - intros (file & fm & Hin & Hcm). exists (file, fm). auto.
Qed.

(** C9.  After a rebuild pass over the file mappings, every entry of the
    class table is a non-empty set whose members are each backed by a live
    class mapping (as the base entry of its hint or as the version its
    generated name carries), every counter belongs to a hint with a live
    base mapping and, when above 0, to a live mapping of that version; an
    entry that no live mapping backs is absent, in particular one whose
    backing mappings all lay under a removed path prefix.  The handler for
    a removed directory drops the file mappings under the prefix and, when
    a file mapping is left, runs the pass over what is left. *)
Theorem rebuild_consistency (fms : FileMappings) :
  let live := allClassMappings fms in
  let t := cleanupNamespaceVersions fms in
  (forall key s, namespaceToClasses t !! key = Some s ->
     (exists c, c ∈ s) /\ forall c, c ∈ s -> entryBacked live key c)
  /\ (forall ns h, namespaceVersions t !! ns = Some h ->
     (exists c, baseBacked live ns c)
     /\ (h <> 0%N -> exists c, versionBacked live ns h c))
  /\ (forall key, (forall c, ~ entryBacked live key c) ->
     namespaceToClasses t !! key = None)
  /\ (forall prefix key,
     (forall file fm cm c,
        In (file, fm) fms -> In cm (mappings fm) -> entryBacked [cm] key c ->
        startsWith prefix file = true) ->
     namespaceToClasses (cleanupNamespaceVersions (removeByPathPrefix prefix fms)) !! key
       = None)
  /\ (forall optimizeCss t0 prefix,
     let p' := unlinkDir optimizeCss (mkPlugin t0 fms) prefix in
     fileMappings p' = removeByPathPrefix prefix fms
     /\ (forall e, In e (fileMappings p') -> startsWith prefix (fst e) = false)
     /\ (fileMappings p' <> [] ->
         tables p' = cleanupNamespaceVersions (fileMappings p'))).
Proof.
  assert (Habsent : forall fms0 key,
             (forall c, ~ entryBacked (allClassMappings fms0) key c) ->
             namespaceToClasses (cleanupNamespaceVersions fms0) !! key = None).
  { intros fms0 key Hno.
    destruct (namespaceToClasses (cleanupNamespaceVersions fms0) !! key) as [s|] eqn:E;
      [|reflexivity].
    destruct (proj1 (cleanup_backed fms0) key s E) as [[c Hc] Hb].
    destruct (Hno c (Hb c Hc)). }
  intros live t. destruct (cleanup_backed fms) as [H1 H2].
  split; [exact H1|]. split; [exact H2|]. split; [apply Habsent|]. split.
  - intros prefix key Hunder. apply Habsent. intros c Hb.
    apply entryBacked_single in Hb as (cm & Hin & Hb).
    apply allClassMappings_In in Hin as (file & fm & Hin & Hcm).
    unfold removeByPathPrefix in Hin. apply filter_In in Hin as [Hin Hkeep].
    cbn [fst] in Hkeep. rewrite (Hunder file fm cm c Hin Hcm Hb) in Hkeep. discriminate.
  - intros optimizeCss t0 prefix. cbv zeta.
    assert (Hfm : fileMappings (unlinkDir optimizeCss (mkPlugin t0 fms) prefix)
                  = removeByPathPrefix prefix fms).
    { unfold unlinkDir, updateCssFiles. cbn [fileMappings tables].
      destruct (removeByPathPrefix prefix fms); reflexivity. }
    split; [exact Hfm|]. rewrite Hfm. split.
    + intros e [_ He]%filter_In. apply negb_true_iff, He.
    + unfold unlinkDir, updateCssFiles. cbn [fileMappings tables].
      destruct (removeByPathPrefix prefix fms); [contradiction|reflexivity].
Qed.

Lemma rebuild_consistency_witness :
  namespaceToClasses (cleanupNamespaceVersions (fileMappings pluginABC)) !! "btn-1"
    = Some {["p-2"]}
  /\ entryBacked (allClassMappings (fileMappings pluginABC)) "btn-1" "p-2"
  /\ namespaceToClasses
       (cleanupNamespaceVersions
          (removeByPathPrefix "src/components" (fileMappings pluginABC))) !! "btn-1"
     = None.
Proof.
  assert (H : namespaceToClasses (cleanupNamespaceVersions (fileMappings pluginABC)) !! "btn-1"
              = Some {["p-2"]}) by (vm_compute; reflexivity).
  split; [exact H|]. split.
  - apply (proj1 (rebuild_consistency (fileMappings pluginABC)) "btn-1" _ H).
    apply elem_of_singleton. reflexivity.
  - apply (proj1 (proj2 (proj2 (proj2 (rebuild_consistency (fileMappings pluginABC)))))).
    intros file fm cm c Hin Hcm Hb.
    assert (Hfms : fileMappings pluginABC =
      [("src/A.svelte", mkFileMapping "src/A.svelte" "src/A.css"
          [mkClassMapping "p-1" "p-1" "btn" (Some "btn") "/app/src/A.svelte"]);
       ("src/components/B.svelte",
        mkFileMapping "src/components/B.svelte" "src/components/B.css"
          [mkClassMapping "p-2" "p-2" "btn-1" (Some "btn") "/app/src/components/B.svelte"]);
       ("src/C.svelte", mkFileMapping "src/C.svelte" "src/C.css"
          [mkClassMapping "p-3" "p-3" "btn-2" (Some "btn") "/app/src/C.svelte"])])
      by (vm_compute; reflexivity).
    rewrite Hfms in Hin.
    destruct Hin as [[= <- <-]|[[= <- <-]|[[= <- <-]|[]]]]; [|reflexivity|];
      destruct Hcm as [<-|[]];
      destruct Hb as [(cm & [<-|[]] & Hu & _ & Hv)|(ns & v & Hk & cm & [<-|[]] & Hu & _ & Hv)];
      vm_compute in Hu; try discriminate Hu; injection Hu as <-;
      vm_compute in Hv; try discriminate Hv;
      injection Hv as <-; vm_compute in Hk; discriminate Hk.
Defined.

Lemma runOps_snoc (ops : list TableOp) (op : TableOp) :
  runOps (ops ++ [op]) = applyOp (runOps ops) op.
Proof. unfold runOps. rewrite fold_left_app. reflexivity. Qed.

Lemma runOps_countersBacked (ops : list TableOp) : countersBacked (runOps ops).
Proof.
  induction ops as [|op ops IH] using rev_ind; [apply countersBacked_empty|].
  rewrite runOps_snoc. destruct op as [cv hint|fms]; simpl.
  - apply resolve_countersBacked, IH.
  - apply cleanup_countersBacked.
Qed.

Lemma runOps_dense (ops : list TableOp) : Forall isResolve ops -> dense (runOps ops).
Proof.
  induction ops as [|op ops IH] using rev_ind; intros Hall; [apply dense_empty|].
  rewrite runOps_snoc. apply Forall_app in Hall as [Hops Hop].
  inversion Hop as [|? ? Hres _]; subst.
  destruct op as [cv hint|fms]; [|destruct Hres].
  simpl. apply resolve_dense, IH, Hops.
Qed.

(** C8, as the code has it.  From empty tables, resolver calls alone keep
    the versions of every namespace dense from 1 up to its counter; and in
    any state reached by resolver calls and rebuild passes, a resolver call
    never lowers the counter of any namespace. *)
Theorem version_numbers (ops : list TableOp) :
  (Forall isResolve ops -> dense (runOps ops))
  /\ (forall classValue hint ns,
        (highestVersionOf (runOps ops) ns
         <= highestVersionOf (applyOp (runOps ops) (Resolve classValue hint)) ns)%N).
Proof.
  split; [apply runOps_dense|].
  intros classValue hint ns. simpl. apply resolve_monotone, runOps_countersBacked.
Qed.

Lemma version_numbers_witness :
  Forall isResolve [Resolve "p-1" (Some "btn"); Resolve "p-2" (Some "btn")]
  /\ dense (runOps [Resolve "p-1" (Some "btn"); Resolve "p-2" (Some "btn")]).
Proof.
  assert (H : Forall isResolve [Resolve "p-1" (Some "btn"); Resolve "p-2" (Some "btn")])
    by (repeat constructor).
  split; [exact H|].
  exact (proj1 (version_numbers [Resolve "p-1" (Some "btn"); Resolve "p-2" (Some "btn")]) H).
Defined.

(** C8, as stated, fails once rebuild passes take part.  Three files use
    the hint btn with different classes and get btn, btn-1 and btn-2.  When
    the second file is deleted the rebuild keeps the counter at 2 with no
    version 1 left; when the third is deleted too the counter drops to 0. *)
Lemma version_numbers_counterexample :
  let p4 := unlink (OptimizeBool true) pluginABC "src/components/B.svelte" in
  let p5 := unlink (OptimizeBool true) p4 "src/C.svelte" in
  tables p4 =
    runOps [Resolve "p-1" (Some "btn"); Rebuild (fileMappings pluginA);
            Resolve "p-2" (Some "btn"); Rebuild (fileMappings pluginAB);
            Resolve "p-3" (Some "btn"); Rebuild (fileMappings pluginABC);
            Rebuild (fileMappings p4)]
  /\ ~ dense (tables p4)
  /\ (highestVersionOf (tables p5) "btn" < highestVersionOf (tables p4) "btn")%N.
Proof.
  cbv zeta. split; [vm_compute; reflexivity|]. split.
  - intros Hd.
    assert (Hv : namespaceVersions
                   (tables (unlink (OptimizeBool true) pluginABC "src/components/B.svelte"))
                   !! "btn" = Some 2%N) by (vm_compute; reflexivity).
    specialize (Hd "btn" 2%N Hv 1%N ltac:(lia)).
    vm_compute in Hd. destruct Hd as [s Hs]. discriminate Hs.
  - vm_compute. reflexivity.
Qed.

Local Arguments String.append : simpl nomatch.

(** ** Strings: append, take and what is left *)

Lemma str_app_assoc (a b c : string) : (a ++ b) ++ c = a ++ b ++ c.
Proof. induction a as [|x a IH]; simpl; [reflexivity|]. rewrite IH. reflexivity. Qed.

Lemma str_app_nil_r (a : string) : a ++ EmptyString = a.
Proof. induction a as [|x a IH]; simpl; [reflexivity|]. rewrite IH. reflexivity. Qed.

Lemma str_length_app (a b : string) :
  String.length (a ++ b) = (String.length a + String.length b)%nat.
Proof. induction a as [|x a IH]; simpl; [reflexivity|]. rewrite IH. reflexivity. Qed.

Lemma substringFrom_0 (s : string) : Scan.substringFrom 0 s = s.
Proof. destruct s; reflexivity. Qed.

Lemma substringFrom_app (a b : string) :
  Scan.substringFrom (String.length a) (a ++ b) = b.
Proof. induction a as [|x a IH]; simpl; [apply substringFrom_0|exact IH]. Qed.

Lemma substringFrom_add (n m : nat) (s : string) :
  Scan.substringFrom (n + m) s = Scan.substringFrom m (Scan.substringFrom n s).
Proof.
  revert s. induction n as [|n IH]; intros s; simpl.
  - reflexivity.
  - destruct s as [|c s]; simpl; [destruct m; reflexivity|apply IH].
Qed.

Lemma take_substringFrom (n : nat) (s : string) :
  Js.take n s ++ Scan.substringFrom n s = s.
Proof.
  revert s. induction n as [|n IH]; intros [|c s]; simpl; try reflexivity.
  rewrite IH. reflexivity.
Qed.

(** ** The matchers return a prefix of the text they are tried on *)

Lemma span_app (p : ascii -> bool) (s : string) :
  fst (Scan.span p s) ++ snd (Scan.span p s) = s.
Proof.
  induction s as [|c s IH]; simpl; [reflexivity|].
  destruct (p c); simpl; [|reflexivity].
  destruct (Scan.span p s) as [a b]. simpl in *. rewrite IH. reflexivity.
Qed.

Lemma span_eq (p : ascii -> bool) (s a b : string) :
  Scan.span p s = (a, b) -> s = a ++ b.
Proof. intros H. rewrite <- (span_app p s), H. reflexivity. Qed.

Lemma stripPrefix_app (p s r : string) : Js.stripPrefix p s = Some r -> s = p ++ r.
Proof.
  revert s. induction p as [|a p IH]; intros s; simpl.
  - intros [= ->]. reflexivity.
  - destruct s as [|b s]; [discriminate|].
    destruct (Ascii.eqb_spec a b) as [->|]; [|discriminate].
    intros H. rewrite (IH _ H). reflexivity.
Qed.

Lemma matchEqQuote_app (brace : bool) (s eq r : string) :
  Scan.matchEqQuote brace s = Some (eq, r) -> s = eq ++ r.
Proof.
  unfold Scan.matchEqQuote.
  destruct (Scan.span Js.isWhiteSpace s) as [ws1 s1] eqn:E1.
  destruct s1 as [|c s2]; [discriminate|].
  destruct (Ascii.eqb_spec c "=") as [->|Hne].
  2:{ destruct c as [[] [] [] [] [] [] [] []]; try discriminate. contradiction. }
  destruct (Scan.span Js.isWhiteSpace s2) as [ws2 s3] eqn:E2.
  apply span_eq in E1, E2. subst s s2.
  destruct brace.
  - destruct s3 as [|c s4]; [discriminate|].
    destruct (Ascii.eqb_spec c "{") as [->|Hne].
    2:{ destruct c as [[] [] [] [] [] [] [] []]; try discriminate. contradiction. }
    destruct s4 as [|q s5]; [discriminate|].
    destruct (Js.isQuote q); [|discriminate]. intros [= <- <-].
    rewrite !str_app_assoc. simpl. rewrite !str_app_assoc. reflexivity.
  - destruct s3 as [|q s5]; [discriminate|].
    destruct (Js.isQuote q); [|discriminate]. intros [= <- <-].
    rewrite !str_app_assoc. simpl. rewrite !str_app_assoc. reflexivity.
Qed.

Lemma truthy_length (s : string) : Js.truthy s = true -> (0 < String.length s)%nat.
Proof. destruct s; simpl; [discriminate|lia]. Qed.

Lemma matchClassAttr_sound : matcherSound Scan.matchClassAttr.
Proof.
  intros s a. unfold Scan.matchClassAttr.
  destruct (Scan.span Js.isWhiteSpace s) as [ws s1] eqn:E1.
  destruct (Js.truthy ws) eqn:Hws; [|discriminate].
  destruct (Js.stripPrefix "class" s1) as [s2|] eqn:E2; [|discriminate].
  destruct (Scan.matchEqQuote false s2) as [[eq s3]|] eqn:E3; [|discriminate].
  destruct (Scan.span Scan.notQuote s3) as [v s4] eqn:E4.
  destruct s4 as [|q s5]; [discriminate|].
  destruct (Js.truthy v); [|discriminate]. intros [= <-].
  apply span_eq in E1, E4. apply stripPrefix_app in E2. apply matchEqQuote_app in E3.
  subst. unfold Scan.fullMatch. cbn [Scan.prefix Scan.classValue Scan.suffix]. split.
  - rewrite !str_length_app. apply truthy_length in Hws. lia.
  - exists s5. rewrite !str_app_assoc. reflexivity.
Qed.

Lemma matchJsxClassAttr_sound : matcherSound Scan.matchJsxClassAttr.
Proof.
  intros s a. unfold Scan.matchJsxClassAttr.
  destruct (Scan.span Js.isWhiteSpace s) as [ws s1] eqn:E1.
  destruct (Js.truthy ws) eqn:Hws; [|discriminate].
  destruct (Js.stripPrefix "className" s1) as [s2|] eqn:E2; [|discriminate].
  destruct (Scan.matchEqQuote true s2) as [[eq s3]|] eqn:E3; [|discriminate].
  destruct (Scan.span Scan.notQuote s3) as [v s4] eqn:E4.
  destruct s4 as [|q [|c s5]]; try discriminate.
  destruct (Ascii.eqb_spec c "}") as [->|Hne].
  2:{ destruct c as [[] [] [] [] [] [] [] []]; try discriminate. contradiction. }
  destruct (Js.truthy v); [|discriminate]. intros [= <-].
  apply span_eq in E1, E4. apply stripPrefix_app in E2. apply matchEqQuote_app in E3.
  subst. unfold Scan.fullMatch. cbn [Scan.prefix Scan.classValue Scan.suffix]. split.
  - rewrite !str_length_app. apply truthy_length in Hws. lia.
  - exists s5. rewrite !str_app_assoc. reflexivity.
Qed.

Lemma matchNamespaceAttr_sound : matcherSound Scan.matchNamespaceAttr.
Proof.
  intros s a. unfold Scan.matchNamespaceAttr.
  destruct (Js.stripPrefix "tw-namespace" s) as [s1|] eqn:E1; [|discriminate].
  destruct (Scan.matchEqQuote false s1) as [[eq s2]|] eqn:E2; [|discriminate].
  destruct (Scan.span Scan.notQuote s2) as [v s3] eqn:E3.
  destruct s3 as [|q s4]; [discriminate|]. intros [= <-].
  apply span_eq in E3. apply stripPrefix_app in E1. apply matchEqQuote_app in E2.
  subst. unfold Scan.fullMatch. cbn [Scan.prefix Scan.classValue Scan.suffix]. split.
  - rewrite !str_length_app. simpl. lia.
  - exists s4. rewrite !str_app_assoc. reflexivity.
Qed.

(** ** Successive matches are located, ordered and disjoint *)

Lemma located_weaken (text : string) (from from' : nat) occs :
  (from' <= from)%nat -> located text from occs -> located text from' occs.
Proof.
  intros Hle H. destruct H as [|from i a r Hi Ha Hr]; constructor; auto. lia.
Qed.

Lemma execAll_located (matchAt : string -> option Scan.Attr) :
  matcherSound matchAt ->
  forall s pre skip,
    located (pre ++ s) (String.length pre + skip)
      (Scan.execAll matchAt s (String.length pre) skip).
Proof.
  intros Hsound. induction s as [|c s IH]; intros pre skip; simpl; [constructor|].
  assert (Hpre : pre ++ String c s = (pre ++ String c EmptyString) ++ s)
    by (rewrite str_app_assoc; reflexivity).
  assert (Hlen : String.length (pre ++ String c EmptyString) = S (String.length pre))
    by (rewrite str_length_app; simpl; lia).
  assert (Hrec : forall k n, (n <= S (String.length pre) + k)%nat ->
             located (pre ++ String c s) n
               (Scan.execAll matchAt s (S (String.length pre)) k)).
  { intros k n Hn. pose proof (IH (pre ++ String c EmptyString) k) as H.
    rewrite Hlen, <- Hpre in H. eapply located_weaken; [|exact H]. exact Hn. }
  destruct skip as [|k].
  - destruct (matchAt (String c s)) as [a|] eqn:E.
    + destruct (Hsound _ _ E) as [Hpos [rest Hrest]].
      constructor; [lia| |].
      * split; [exact Hpos|]. exists rest. rewrite substringFrom_app. exact Hrest.
      * apply Hrec. lia.
    + apply Hrec. lia.
  - apply Hrec. lia.
Qed.

Lemma located_filter (text : string) (f : nat * Scan.Attr -> bool) from occs :
  located text from occs -> located text from (List.filter f occs).
Proof.
  induction 1 as [|from i a r Hi Ha Hr IH]; simpl; [constructor|].
  destruct (f (i, a)).
  - constructor; assumption.
  - eapply located_weaken; [|exact IH]. lia.
Qed.

Lemma located_In (text : string) from occs i a :
  located text from occs -> In (i, a) occs -> (from <= i)%nat /\ occursAt text i a.
Proof.
  induction 1 as [|from j b r Hj Hb Hr IH]; simpl; [intros []|].
  intros [[= -> ->]|Hin]; [auto|].
  destruct (IH Hin) as [Hle Ho]. split; [lia|exact Ho].
Qed.

(** ** A rewriting loop splices the names into the text *)

Lemma interleave_length_gaps_nil (g : string) : interleave [g] [] = g.
Proof. reflexivity. Qed.

Section RewriteLoop.
Variable skipBraces : bool.
Variable namespaces : list NamespaceAttr.
Variables text id : string.

Lemma rewriteMatch_skip (st : Pass) (o : nat * Scan.Attr) :
  keptOccurrence skipBraces o = false ->
  rewriteMatch skipBraces namespaces text id st o = st.
Proof.
  destruct o as [i a]. unfold keptOccurrence, rewriteMatch. cbn [snd].
  intros H%negb_false_iff. rewrite H. reflexivity.
Qed.

Lemma rewriteMatch_keep (st : Pass) (i : nat) (a : Scan.Attr) t1 res :
  keptOccurrence skipBraces (i, a) = true ->
  processClassValue (passTables st) (Scan.classValue a)
    (findNamespaceForPosition namespaces i) = (t1, res) ->
  rewriteMatch skipBraces namespaces text id st (i, a)
  = mkPass t1 (i + String.length (Scan.fullMatch a))
      ((resultCode st ++ Scan.substring (lastIndex st) i text)
       ++ Scan.prefix a ++ resGeneratedClassName res ++ Scan.suffix a)
      (passMappings st ++
         [mkClassMapping (Scan.classValue a) (resNormalizedClasses res)
            (resGeneratedClassName res) (findNamespaceForPosition namespaces i) id])
      true.
Proof.
  unfold keptOccurrence, rewriteMatch. cbn [snd].
  intros H%negb_true_iff Hres. rewrite H, Hres. reflexivity.
Qed.

Lemma rewrite_loop (occs : list (nat * Scan.Attr)) :
  forall st : Pass,
  located text (lastIndex st) occs ->
  let st' := List.fold_left (rewriteMatch skipBraces namespaces text id) occs st in
  let kept := List.filter (keptOccurrence skipBraces) occs in
  let resolved := resolveInOrder id namespaces (passTables st) kept in
  passTables st' = fst resolved
  /\ passMappings st' = (passMappings st ++ List.map snd (snd resolved))%list
  /\ passChanged st' = passChanged st || negb (Nat.eqb (List.length kept) 0)
  /\ exists gaps,
       List.length gaps = S (List.length kept)
       /\ Scan.substringFrom (lastIndex st) text
          = interleave gaps (List.map (fun o => Scan.fullMatch (snd o)) kept)
       /\ resultCode st' ++ Scan.substringFrom (lastIndex st') text
          = resultCode st ++ interleave gaps (List.map rewrittenText (snd resolved)).
Proof.
  induction occs as [|[i a] r IH]; intros st Hloc.
  - cbn. repeat split.
    + rewrite app_nil_r. reflexivity.
    + rewrite orb_false_r. reflexivity.
    + exists [Scan.substringFrom (lastIndex st) text]. auto.
  - inversion Hloc as [|? ? ? ? Hi [Hpos [rest Hrest]] Hr]; subst.
    cbn [List.fold_left List.filter].
    destruct (keptOccurrence skipBraces (i, a)) eqn:Hk.
    + cbn [resolveInOrder].
      destruct (processClassValue (passTables st) (Scan.classValue a)
                  (findNamespaceForPosition namespaces i)) as [t1 res] eqn:Hres.
      rewrite (rewriteMatch_keep st i a t1 res Hk Hres).
      match goal with
      | |- context [List.fold_left _ r ?s] => specialize (IH s Hr)
      end.
      cbv zeta in IH.
      cbn [passTables lastIndex resultCode passMappings passChanged] in IH.
      destruct (resolveInOrder id namespaces t1
                  (List.filter (keptOccurrence skipBraces) r)) as [t2 ms] eqn:Hms.
      destruct IH as (Ht & Hm & Hc & gaps & Hlen & Hsrc & Hout).
      cbn [fst snd] in *. repeat split.
      * exact Ht.
      * rewrite Hm. cbn [List.map snd]. rewrite <- List.app_assoc. reflexivity.
      * rewrite Hc. cbn [List.length Nat.eqb negb]. rewrite orb_true_r. reflexivity.
      * exists (Scan.substring (lastIndex st) i text :: gaps).
        split; [cbn [List.length]; rewrite Hlen; reflexivity|].
        assert (Hsplit : Scan.substringFrom (lastIndex st) text
                         = Scan.substring (lastIndex st) i text ++ Scan.fullMatch a
                           ++ Scan.substringFrom (i + String.length (Scan.fullMatch a)) text).
        { rewrite (substringFrom_add i), Hrest, substringFrom_app, <- Hrest.
          unfold Scan.substring.
          rewrite <- (take_substringFrom (i - lastIndex st)
                        (Scan.substringFrom (lastIndex st) text)) at 1.
          rewrite <- substringFrom_add.
          replace (lastIndex st + (i - lastIndex st))%nat with i by lia.
          reflexivity. }
        split.
        -- cbn [List.map interleave snd]. rewrite Hsplit, Hsrc. reflexivity.
        -- rewrite Hout. cbn [List.map interleave].
           change (rewrittenText (a, ?m))
             with (Scan.prefix a ++ generatedClassName m ++ Scan.suffix a).
           cbn [generatedClassName]. rewrite !str_app_assoc. reflexivity.
    + rewrite rewriteMatch_skip by exact Hk.
      apply IH. eapply located_weaken; [|exact Hr]. lia.
Qed.
End RewriteLoop.

(** ** The nearest preceding hint *)








(** ** The scanner *)

Lemma execAll_located_0 (matchAt : string -> option Scan.Attr) (text : string) :
  matcherSound matchAt -> located text 0 (Scan.execAll matchAt text 0 0).
Proof. intros Hs. exact (execAll_located matchAt Hs text EmptyString 0). Qed.

(** A rewriting pass, from its loop. *)
Lemma rewritePass_spec (matchAt : string -> option Scan.Attr) (skipBraces : bool)
    (namespaces : list NamespaceAttr) (text id : string) (t : Tables)
    (mappings0 : list ClassMapping) (changed0 : bool) :
  matcherSound matchAt ->
  let p := rewritePass matchAt skipBraces namespaces text id t mappings0 changed0 in
  let kept := List.filter (keptOccurrence skipBraces) (Scan.execAll matchAt text 0 0) in
  let resolved := resolveInOrder id namespaces t kept in
  passTables p = fst resolved
  /\ passMappings p = (mappings0 ++ List.map snd (snd resolved))%list
  /\ passChanged p = changed0 || negb (Nat.eqb (List.length kept) 0)
  /\ exists gaps,
       List.length gaps = S (List.length kept)
       /\ text = interleave gaps (List.map (fun o => Scan.fullMatch (snd o)) kept)
       /\ resultCode p = interleave gaps (List.map rewrittenText (snd resolved)).
Proof.
  intros Hsound p kept resolved.
  pose proof (rewrite_loop skipBraces namespaces text id
                (Scan.execAll matchAt text 0 0)
                (mkPass t 0 EmptyString mappings0 changed0)
                (execAll_located_0 matchAt text Hsound)) as H.
  cbv zeta in H. cbn [passTables passMappings passChanged lastIndex resultCode] in H.
  destruct H as (Ht & Hm & Hc & gaps & Hlen & Hsrc & Hout).
  subst p. unfold rewritePass. cbn [passTables passMappings passChanged resultCode].
  repeat split; try assumption.
  exists gaps. repeat split; assumption.
Qed.

(** The two passes of [processFile]. *)
Lemma processFile_passes (t : Tables) (code id : string) :
  let namespaces := findNamespaces code in
  let kept := List.filter (keptOccurrence true)
                (Scan.execAll Scan.matchClassAttr code 0 0) in
  let resolved := resolveInOrder id namespaces t kept in
  exists gaps,
    List.length gaps = S (List.length kept)
    /\ code = interleave gaps (List.map (fun o => Scan.fullMatch (snd o)) kept)
    /\ let text1 := interleave gaps (List.map rewrittenText (snd resolved)) in
       match kept with
       | [] => processFile t code id = (t, mkProcessed code false [])
       | _ :: _ =>
           let p2 := rewritePass Scan.matchJsxClassAttr false namespaces text1 id
                       (fst resolved) (List.map snd (snd resolved)) true in
           processFile t code id
           = (passTables p2,
              mkProcessed (Scan.removeAll Scan.matchNamespaceRemoval (resultCode p2))
                true (passMappings p2))
           /\ exists later,
                passMappings p2 = (List.map snd (snd resolved) ++ later)%list
       end.
Proof.
  intros namespaces kept resolved.
  pose proof (rewritePass_spec Scan.matchClassAttr true namespaces code id t [] false
                matchClassAttr_sound) as H.
  cbv zeta in H. fold kept in H. fold resolved in H.
  cbv zeta. unfold processFile. fold namespaces.
  set (p1 := rewritePass Scan.matchClassAttr true namespaces code id t [] false) in *.
  destruct H as (Ht & Hm & Hc & gaps & Hlen & Hsrc & Hout).
  clearbody p1. subst resolved. clearbody kept.
  exists gaps. split; [exact Hlen|]. split; [exact Hsrc|].
  rewrite Hc. cbn [orb].
  destruct kept as [|o kept'].
  - cbn [List.length Nat.eqb negb].
    cbn [resolveInOrder fst snd List.map app] in Ht, Hm, Hout.
    destruct gaps as [|g [|g' gaps']]; try discriminate Hlen.
    cbn [interleave List.map] in Hsrc, Hout.
    rewrite Ht, Hm, Hout, <- Hsrc. reflexivity.
  - cbn [List.length Nat.eqb negb].
    rewrite Ht, Hm, Hout. cbn [app]. split; [reflexivity|].
    destruct (rewritePass_spec Scan.matchJsxClassAttr false namespaces
                (interleave gaps
                   (List.map rewrittenText
                      (snd (resolveInOrder id namespaces t (o :: kept'))))) id
                (fst (resolveInOrder id namespaces t (o :: kept')))
                (List.map snd (snd (resolveInOrder id namespaces t (o :: kept')))) true
                matchJsxClassAttr_sound) as (_ & Hm2 & _).
    eexists. exact Hm2.
Qed.

(** A scan reports a change exactly when some plain class attribute has a
    class text that is neither blank nor holds an opening brace. *)
Lemma processFile_changed (t : Tables) (code id : string) :
  changed (snd (processFile t code id))
  = negb (Nat.eqb (List.length (List.filter (keptOccurrence true)
                                  (Scan.execAll Scan.matchClassAttr code 0 0))) 0).
Proof.
  destruct (processFile_passes t code id) as (gaps & _ & _ & H). cbv zeta in H.
  destruct (List.filter (keptOccurrence true) (Scan.execAll Scan.matchClassAttr code 0 0))
    as [|o kept].
  - rewrite H. reflexivity.
  - destruct H as [H _]. rewrite H. reflexivity.
Qed.

Lemma processFile_unchanged (t : Tables) (code id : string) :
  changed (snd (processFile t code id)) = false ->
  processFile t code id = (t, mkProcessed code false []).
Proof.
  intros Hch. destruct (processFile_passes t code id) as (gaps & _ & _ & H).
  cbv zeta in H.
  destruct (List.filter (keptOccurrence true) (Scan.execAll Scan.matchClassAttr code 0 0))
    as [|o kept]; [exact H|].
  destruct H as [H _]. rewrite H in Hch. discriminate Hch.
Qed.




Lemma execAll_In (matchAt : string -> option Scan.Attr) (s : string) (pos skip i : nat)
    (a : Scan.Attr) :
  In (i, a) (Scan.execAll matchAt s pos skip) -> exists s', matchAt s' = Some a.
Proof.
  revert pos skip. induction s as [|c s IH]; intros pos skip; simpl; [intros []|].
  destruct skip as [|k]; [|apply IH].
  destruct (matchAt (String c s)) as [b|] eqn:E; [|apply IH].
  intros [[= _ <-]|H]; [eauto|eapply IH, H].
Qed.







(** ** Stylesheets: rendering rules and reading them back *)

Lemma applyLines_app (css : string) (us : list string) :
  Css.applyLines css us = css ++ Css.applyLines EmptyString us.
Proof.
  unfold Css.applyLines. revert css.
  induction us as [|u us IH]; intros css; simpl; [rewrite str_app_nil_r; reflexivity|].
  rewrite IH. symmetry. rewrite IH. rewrite !str_app_assoc. reflexivity.
Qed.

Lemma appendRule_app (css sel : string) (us : list string) :
  Css.appendRule css sel us = css ++ Css.appendRule EmptyString sel us.
Proof.
  unfold Css.appendRule. rewrite applyLines_app. symmetry. rewrite applyLines_app.
  rewrite !str_app_assoc. reflexivity.
Qed.

Lemma renderRules_app (a b : list Rule) :
  renderRules (a ++ b) = renderRules a ++ renderRules b.
Proof.
  induction a as [|r a IH]; simpl; [reflexivity|].
  rewrite IH, str_app_assoc. reflexivity.
Qed.

Lemma renderRules_snoc (a : list Rule) (names us : list string) :
  renderRules (a ++ [(names, us)])
  = Css.appendRule (renderRules a) (selectorOf names) us.
Proof.
  rewrite renderRules_app, appendRule_app. simpl. rewrite str_app_nil_r. reflexivity.
Qed.

(** *** Lines *)

Lemma splitChar_sep (sep : ascii) (a rest : string) :
  noneStr (Ascii.eqb sep) a = true ->
  Css.splitChar sep (a ++ String sep rest) = a :: Css.splitChar sep rest.
Proof.
  unfold noneStr. induction a as [|c a IH]; simpl.
  - intros _. rewrite Ascii.eqb_refl. reflexivity.
  - intros H. apply negb_true_iff, orb_false_iff in H as [Hc Ha].
    rewrite Ascii.eqb_sym, Hc. rewrite IH by (apply negb_true_iff, Ha). reflexivity.
Qed.

Lemma splitChar_none (sep : ascii) (a : string) :
  noneStr (Ascii.eqb sep) a = true -> Css.splitChar sep a = [a].
Proof.
  unfold noneStr. induction a as [|c a IH]; simpl; [reflexivity|].
  intros H. apply negb_true_iff, orb_false_iff in H as [Hc Ha].
  rewrite Ascii.eqb_sym, Hc. rewrite IH by (apply negb_true_iff, Ha). reflexivity.
Qed.

Lemma noneStr_app (p : ascii -> bool) (a b : string) :
  noneStr p (a ++ b) = noneStr p a && noneStr p b.
Proof.
  unfold noneStr. induction a as [|c a IH]; simpl; [reflexivity|].
  rewrite negb_orb. rewrite negb_orb. fold (noneStr p (a ++ b)).
  unfold noneStr in *. rewrite IH. rewrite andb_assoc. reflexivity.
Qed.

Lemma stripPrefix_same (p r : string) : Js.stripPrefix p (p ++ r) = Some r.
Proof.
  induction p as [|c p IH]; simpl; [reflexivity|]. rewrite Ascii.eqb_refl. exact IH.
Qed.

Lemma dropBrace_app (sel : string) : Sheet.dropBrace (sel ++ " {") = Some sel.
Proof.
  induction sel as [|c sel IH]; [reflexivity|].
  change (String c sel ++ " {") with (String c (sel ++ " {")).
  cbn [Sheet.dropBrace]. rewrite IH.
  destruct (String.eqb_spec (String c (sel ++ " {")) " {") as [E|_]; [|reflexivity].
  injection E as _ E. exfalso.
  apply (f_equal String.length) in E. rewrite str_length_app in E. simpl in E. lia.
Qed.

Lemma dropLast_app (u : string) (c : ascii) :
  Sheet.dropLast (u ++ String c EmptyString) = u.
Proof.
  induction u as [|x u IH]; [reflexivity|].
  change (String x u ++ String c EmptyString) with (String x (u ++ String c EmptyString)).
  cbn [Sheet.dropLast]. rewrite IH.
  destruct u; reflexivity.
Qed.

Lemma valid_noneStr (p : ascii -> bool) (s : string) :
  (forall c, p c = true -> isIdentPart c = false) ->
  isValidCssIdentifier s = true -> noneStr p s = true.
Proof.
  intros Hp Hv.
  assert (Hall : Js.forallbStr isIdentPart s = true).
  { destruct s as [|c s]; [discriminate|]. simpl in *.
    apply andb_true_iff in Hv as [Hc Hs]. unfold isIdentPart at 1. rewrite Hc, Hs.
    reflexivity. }
  clear Hv. unfold noneStr. induction s as [|c s IH]; simpl; [reflexivity|].
  simpl in Hall. apply andb_true_iff in Hall as [Hc Hs].
  destruct (p c) eqn:E; [rewrite (Hp c E) in Hc; discriminate|].
  simpl. apply IH, Hs.
Qed.

Lemma eqb_not_identPart (sep : ascii) :
  isIdentPart sep = false -> forall c, Ascii.eqb sep c = true -> isIdentPart c = false.
Proof. intros H c E. apply Ascii.eqb_eq in E. subst. exact H. Qed.

Lemma valid_no_comma (s : string) :
  isValidCssIdentifier s = true -> noneStr (Ascii.eqb ",") s = true.
Proof. apply valid_noneStr, eqb_not_identPart. reflexivity. Qed.

Lemma valid_no_newline (s : string) :
  isValidCssIdentifier s = true -> noneStr (Ascii.eqb "010") s = true.
Proof. apply valid_noneStr, eqb_not_identPart. reflexivity. Qed.

Lemma valid_no_colon (s : string) :
  isValidCssIdentifier s = true -> noneStr (Ascii.eqb ":") s = true.
Proof. apply valid_noneStr, eqb_not_identPart. reflexivity. Qed.

Lemma valid_truthy (s : string) : isValidCssIdentifier s = true -> Js.truthy s = true.
Proof. destruct s; [discriminate|reflexivity]. Qed.

(** *** Selector lists *)

Lemma join_cons2 (sep x y : string) (r : list string) :
  Js.join sep (x :: y :: r) = x ++ sep ++ Js.join sep (y :: r).
Proof. reflexivity. Qed.

Lemma join_prepend (sep p x : string) (r : list string) :
  p ++ Js.join sep (x :: r) = Js.join sep ((p ++ x) :: r).
Proof.
  destruct r as [|y r]; [reflexivity|].
  rewrite !join_cons2, str_app_assoc. reflexivity.
Qed.

Lemma splitChar_join_comma (x : string) (xs : list string) :
  noneStr (Ascii.eqb ",") x = true ->
  (forall y, In y xs -> noneStr (Ascii.eqb ",") y = true) ->
  Css.splitChar "," (Js.join ", " (x :: xs)) = x :: List.map (fun y => " " ++ y) xs.
Proof.
  revert x. induction xs as [|y xs IH]; intros x Hx Hxs.
  - simpl. apply splitChar_none, Hx.
  - rewrite join_cons2.
    change (x ++ ", " ++ Js.join ", " (y :: xs))
      with (x ++ String "," (" " ++ Js.join ", " (y :: xs))).
    rewrite splitChar_sep by exact Hx. rewrite join_prepend.
    rewrite IH; [reflexivity| |].
    + rewrite noneStr_app. rewrite (Hxs y) by (left; reflexivity). reflexivity.
    + intros z Hz. apply Hxs. right. exact Hz.
Qed.

Lemma selectorName_tail (names : list string) :
  List.map Sheet.selectorName
    (List.map (fun y => " " ++ y) (List.map (fun c => "." ++ c) names)) = names.
Proof.
  induction names as [|n names IH]; [reflexivity|].
  cbn [List.map]. rewrite IH. reflexivity.
Qed.

Lemma selectorNames_selectorOf (names : list string) :
  names <> [] ->
  (forall n, In n names -> isValidCssIdentifier n = true) ->
  Sheet.selectorNames (selectorOf names) = names.
Proof.
  intros Hne Hv. destruct names as [|n names]; [contradiction|].
  unfold Sheet.selectorNames, selectorOf. cbn [List.map].
  rewrite splitChar_join_comma.
  - cbn [List.map]. rewrite selectorName_tail. reflexivity.
  - rewrite noneStr_app. rewrite (valid_no_comma n) by (apply Hv; left; reflexivity).
    reflexivity.
  - intros y [m [<- Hm]]%in_map_iff. rewrite noneStr_app.
    rewrite (valid_no_comma m) by (apply Hv; right; exact Hm). reflexivity.
Qed.

(** *** The lines of a rule, and their reading *)

Lemma applyLines_cons (u : string) (us : list string) :
  Css.applyLines EmptyString (u :: us)
  = applyLine u ++ Css.nl ++ Css.applyLines EmptyString us.
Proof.
  change (Css.applyLines EmptyString (u :: us))
    with (Css.applyLines (EmptyString ++ "  @apply " ++ u ++ ";" ++ Css.nl) us).
  rewrite applyLines_app. unfold applyLine. rewrite !str_app_assoc. reflexivity.
Qed.

Lemma ruleText_eq (names us : list string) :
  ruleText (names, us)
  = (selectorOf names ++ " {") ++ Css.nl ++ Css.applyLines EmptyString us ++ "}" ++ Css.nl ++ Css.nl.
Proof.
  unfold ruleText, Css.appendRule. cbn [fst snd]. rewrite applyLines_app.
  rewrite !str_app_assoc. reflexivity.
Qed.

Lemma lines_applyLines (us : list string) (rest : string) :
  (forall u, In u us -> noneStr isNewline u = true) ->
  Css.splitChar "010" (Css.applyLines EmptyString us ++ rest)
  = (List.map applyLine us ++ Css.splitChar "010" rest)%list.
Proof.
  induction us as [|u us IH]; intros Hus; [reflexivity|].
  rewrite applyLines_cons, !str_app_assoc.
  change (Css.nl ++ ?x) with (String "010" x).
  rewrite splitChar_sep.
  - rewrite IH by (intros; apply Hus; right; assumption). reflexivity.
  - unfold applyLine. rewrite !noneStr_app.
    fold isNewline. rewrite (Hus u) by (left; reflexivity). reflexivity.
Qed.

Lemma ruleText_rest (names us : list string) (rest : string) :
  ruleText (names, us) ++ rest
  = (selectorOf names ++ " {")
    ++ String "010" (Css.applyLines EmptyString us
                     ++ "}" ++ String "010" (EmptyString ++ String "010" rest)).
Proof. rewrite ruleText_eq, !str_app_assoc. reflexivity. Qed.

Lemma selectorOf_no_newline (names : list string) :
  (forall n, In n names -> isValidCssIdentifier n = true) ->
  noneStr (Ascii.eqb "010") (selectorOf names) = true.
Proof.
  unfold selectorOf. induction names as [|n names IH]; intros Hv; [reflexivity|].
  assert (Hn : noneStr (Ascii.eqb "010") ("." ++ n) = true).
  { rewrite noneStr_app, (valid_no_newline n) by (apply Hv; left; reflexivity).
    reflexivity. }
  destruct names as [|m names]; [exact Hn|].
  cbn [List.map]. rewrite join_cons2.
  rewrite (noneStr_app _ ("." ++ n)), Hn, (noneStr_app _ ", ").
  cbn [List.map] in IH. rewrite IH by (intros; apply Hv; right; assumption).
  reflexivity.
Qed.

Lemma lines_rule (names us : list string) (rest : string) :
  ruleOk (names, us) ->
  Css.splitChar "010" (ruleText (names, us) ++ rest)
  = (selectorOf names ++ " {")
    :: (List.map applyLine us ++ "}" :: EmptyString :: Css.splitChar "010" rest)%list.
Proof.
  intros (Hne & Hnames & Hus). cbn [fst snd] in *.
  rewrite ruleText_rest, splitChar_sep.
  - rewrite lines_applyLines by exact Hus.
    rewrite splitChar_sep by reflexivity. rewrite splitChar_sep by reflexivity.
    reflexivity.
  - rewrite noneStr_app, selectorOf_no_newline by exact Hnames. reflexivity.
Qed.

(** The first character of a selector list is a dot. *)
Lemma selectorOf_dot (names : list string) :
  names <> [] -> exists r, selectorOf names = String "." r.
Proof.
  destruct names as [|n [|m names]]; [contradiction| |]; intros _; unfold selectorOf.
  - exists n. reflexivity.
  - cbn [List.map]. rewrite join_cons2. eexists. reflexivity.
Qed.

Lemma parse_applyLines (names us : list string) (rest : list string) :
  Sheet.parseLines names (List.map applyLine us ++ rest)
  = (ruleAssociations (names, us) ++ Sheet.parseLines names rest)%list.
Proof.
  unfold ruleAssociations. cbn [fst snd].
  induction us as [|u us IH]; [reflexivity|].
  cbn [List.map app Sheet.parseLines List.flat_map].
  unfold applyLine at 1. rewrite stripPrefix_same.
  change (u ++ ";") with (u ++ String ";" EmptyString). rewrite dropLast_app.
  rewrite IH, <- List.app_assoc. reflexivity.
Qed.

Lemma parse_rule (names us : list string) (current rest : list string) :
  ruleOk (names, us) ->
  Sheet.parseLines current
    ((selectorOf names ++ " {")
     :: (List.map applyLine us ++ "}" :: EmptyString :: rest)%list)
  = (ruleAssociations (names, us) ++ Sheet.parseLines [] rest)%list.
Proof.
  intros (Hne & Hnames & Hus). cbn [fst snd] in *.
  destruct (selectorOf_dot names Hne) as [r Hr].
  cbn [Sheet.parseLines].
  assert (H1 : Js.stripPrefix "  @apply " (selectorOf names ++ " {") = None)
    by (rewrite Hr; reflexivity).
  assert (H2 : String.eqb (selectorOf names ++ " {") "}" = false)
    by (rewrite Hr; reflexivity).
  rewrite H1, H2, dropBrace_app, selectorNames_selectorOf by assumption.
  rewrite parse_applyLines. reflexivity.
Qed.

Lemma associations_renderRules (rules : list Rule) :
  (forall r, In r rules -> ruleOk r) ->
  Sheet.associations (renderRules rules) = List.flat_map ruleAssociations rules.
Proof.
  unfold Sheet.associations. induction rules as [|[names us] rules IH]; intros Hok.
  - reflexivity.
  - cbn [renderRules List.flat_map].
    rewrite lines_rule by (apply Hok; left; reflexivity).
    rewrite parse_rule by (apply Hok; left; reflexivity).
    rewrite IH by (intros; apply Hok; right; assumption). reflexivity.
Qed.

(** ** The generators write the text of their rules *)

Lemma selectorOf_single (n : string) : selectorOf [n] = "." ++ n.
Proof. reflexivity. Qed.

Lemma standard_fold (cms : list ClassMapping) :
  forall rules processed,
    List.fold_left Css.standardStep cms (renderRules rules, processed)
    = (renderRules (fst (List.fold_left standardRulesStep cms (rules, processed))),
       snd (List.fold_left standardRulesStep cms (rules, processed))).
Proof.
  induction cms as [|cm cms IH]; intros rules processed; [reflexivity|].
  cbn [List.fold_left]. unfold Css.standardStep at 2, standardRulesStep at 2 4.
  case_bool_decide.
  - apply IH.
  - rewrite <- selectorOf_single, <- renderRules_snoc. apply IH.
Qed.

Lemma standardCss_rules (cms : list ClassMapping) :
  Css.standardCss cms = renderRules (standardRules cms).
Proof.
  unfold Css.standardCss, standardRules.
  change EmptyString with (renderRules []). rewrite standard_fold. reflexivity.
Qed.

Lemma emitGroup_fold (groups : list (string * list string)) :
  forall rules processed,
    List.fold_left Css.emitGroup groups (renderRules rules, processed)
    = (renderRules (fst (List.fold_left emitGroupRules groups (rules, processed))),
       snd (List.fold_left emitGroupRules groups (rules, processed))).
Proof.
  induction groups as [|[key us] groups IH]; intros rules processed; [reflexivity|].
  cbn [List.fold_left]. unfold Css.emitGroup at 2, emitGroupRules at 2 4.
  unfold groupEmitted, classesOfKey. cbn [fst snd].
  destruct ((List.length (Js.filterBoolean (Css.splitChar "," key)) <=? 1)%nat
            || (List.length us =? 0)%nat).
  - apply IH.
  - cbn [negb].
    change (Js.join ", " (List.map (fun c => "." ++ c) ?x)) with (selectorOf x).
    rewrite <- renderRules_snoc. apply IH.
Qed.

Lemma emitRemaining_fold (processed : gset string) (defs : list (string * list string)) :
  forall rules,
    List.fold_left (Css.emitRemaining processed) defs (renderRules rules)
    = renderRules (List.fold_left (emitRemainingRules processed) defs rules).
Proof.
  induction defs as [|[n us] defs IH]; intros rules; [reflexivity|].
  cbn [List.fold_left]. unfold Css.emitRemaining at 2, emitRemainingRules at 2.
  unfold remainingOf. cbn [fst snd].
  destruct (0 <? List.length _)%nat.
  - rewrite <- selectorOf_single, <- renderRules_snoc. apply IH.
  - apply IH.
Qed.

Lemma optimizedCss_rules (cms : list ClassMapping) :
  Css.optimizedCss cms = renderRules (optimizedRules cms).
Proof.
  unfold Css.optimizedCss, optimizedRules.
  destruct (List.fold_left Css.recordMapping cms ([], [])) as [u2c defs].
  change EmptyString with (renderRules []). rewrite emitGroup_fold.
  destruct (List.fold_left emitGroupRules _ _) as [rules processed].
  cbn [fst snd]. apply emitRemaining_fold.
Qed.

(** ** Ordered maps with distinct keys *)

Section OrderedMapKeys.
Context {K V : Type} `{EqDecision K}.

Lemma omSet_keys (k k' : K) (v : V) (m : list (K * V)) :
  In k' (List.map fst (omSet k v m)) <-> k' = k \/ In k' (List.map fst m).
Proof.
  induction m as [|[k0 v0] m IH]; simpl; [intuition|].
  destruct (decide (k = k0)) as [->|Hne]; simpl; [intuition|].
  rewrite IH. intuition.
Qed.

Lemma omSet_NoDup (k : K) (v : V) (m : list (K * V)) :
  List.NoDup (List.map fst m) -> List.NoDup (List.map fst (omSet k v m)).
Proof.
  induction m as [|[k0 v0] m IH]; simpl; intros Hnd.
  - constructor; [intros []|constructor].
  - inversion Hnd as [|? ? Hk0 Hm]; subst.
    destruct (decide (k = k0)) as [->|Hne]; simpl.
    + constructor; assumption.
    + constructor; [|apply IH, Hm].
      rewrite omSet_keys. intros [E|Hin]; [congruence|contradiction].
Qed.

Lemma omSet_In_iff (k k' : K) (v v' : V) (m : list (K * V)) :
  List.NoDup (List.map fst m) ->
  In (k', v') (omSet k v m) <-> (k' = k /\ v' = v) \/ (k' <> k /\ In (k', v') m).
Proof.
  induction m as [|[k0 v0] m IH]; simpl; intros Hnd.
  - split; [intros [[= <- <-]|[]]; auto|intros [[-> ->]|[_ []]]; auto].
  - inversion Hnd as [|? ? Hk0 Hm]; subst.
    destruct (decide (k = k0)) as [->|Hne]; simpl.
    + split.
      * intros [[= <- <-]|Hin]; [auto|]. right. split; [|auto].
        intros ->. apply Hk0. apply in_map_iff. exists (k0, v'). auto.
      * intros [[-> ->]|[Hne [[= <- <-]|Hin]]]; [auto|contradiction|auto].
    + rewrite (IH Hm). split.
      * intros [[= <- <-]|[?|?]]; [right; split; [congruence|auto]|auto|].
        right. intuition.
      * intros [?|[? [?|?]]]; [auto|auto|]. right. right. auto.
Qed.

Lemma omGet_None_keys (k : K) (m : list (K * V)) :
  omGet k m = None <-> ~ In k (List.map fst m).
Proof.
  induction m as [|[k0 v0] m IH]; simpl; [intuition|].
  destruct (decide (k = k0)) as [->|Hne]; [split; [discriminate|intros H; destruct H; auto]|].
  rewrite IH. intuition.
Qed.

Lemma omGet_Some_iff (k : K) (v : V) (m : list (K * V)) :
  List.NoDup (List.map fst m) -> omGet k m = Some v <-> In (k, v) m.
Proof.
  induction m as [|[k0 v0] m IH]; simpl; intros Hnd; [split; [discriminate|intros []]|].
  inversion Hnd as [|? ? Hk0 Hm]; subst.
  destruct (decide (k = k0)) as [->|Hne].
  - split; [intros [= ->]; auto|].
    intros [[= ->]|Hin]; [reflexivity|].
    exfalso. apply Hk0, in_map_iff. exists (k0, v). auto.
  - rewrite (IH Hm). split; [auto|]. intros [[= ? ?]|?]; [congruence|assumption].
Qed.

Lemma In_keys (k : K) (v : V) (m : list (K * V)) : In (k, v) m -> In k (List.map fst m).
Proof. intros H. apply in_map_iff. exists (k, v). auto. Qed.
End OrderedMapKeys.

Lemma setAdd_In (x n : string) (s : list string) :
  In n (Css.setAdd x s) <-> n = x \/ In n s.
Proof.
  unfold Css.setAdd. case_bool_decide as H.
  - apply list_elem_of_In in H. split; [auto|]. intros [->|?]; assumption.
  - rewrite in_app_iff. simpl. intuition.
Qed.

(** ** Recording which class uses which utility *)

Lemma tracks_ext (rel rel' : string -> string -> Prop) m :
  (forall n u, rel n u <-> rel' n u) -> tracks rel m -> tracks rel' m.
Proof.
  intros Hext (Hnd & Hin & Hcov). split; [exact Hnd|]. split.
  - intros u cls H n. rewrite <- Hext. apply Hin, H.
  - intros n u H. apply Hext in H. eapply Hcov, H.
Qed.

Lemma tracks_record (rel : string -> string -> Prop) m (name u0 : string) :
  tracks rel m ->
  tracks (fun n u => rel n u \/ (n = name /\ u = u0)) (Css.recordUtility name m u0).
Proof.
  intros (Hnd & Hin & Hcov). unfold Css.recordUtility.
  assert (Hold : forall n, In n (default [] (omGet u0 m)) <-> rel n u0).
  { intros n. destruct (omGet u0 m) as [c|] eqn:E; simpl.
    - apply Hin. apply omGet_Some_iff; assumption.
    - split; [intros []|]. intros Hr. destruct (Hcov _ _ Hr) as [cls Hcls].
      apply omGet_None_keys in E. destruct E. eapply In_keys, Hcls. }
  split; [apply omSet_NoDup, Hnd|]. split.
  - intros u cls H n. apply (proj1 (omSet_In_iff _ _ _ _ _ Hnd)) in H as [[-> ->]|[Hne H]].
    + rewrite setAdd_In, Hold. intuition.
    + rewrite (Hin u cls H). intuition.
  - intros n u [Hr|[-> ->]].
    + destruct (decide (u = u0)) as [->|Hne].
      * eexists. apply (proj2 (omSet_In_iff _ _ _ _ _ Hnd)). left. auto.
      * destruct (Hcov _ _ Hr) as [cls Hcls]. exists cls.
        apply (proj2 (omSet_In_iff _ _ _ _ _ Hnd)). right. auto.
    + eexists. apply (proj2 (omSet_In_iff _ _ _ _ _ Hnd)). left. auto.
Qed.

Lemma tracks_fold (rel : string -> string -> Prop) (name : string) (us : list string) :
  forall m, tracks rel m ->
  tracks (fun n u => rel n u \/ (n = name /\ In u us))
    (List.fold_left (Css.recordUtility name) us m).
Proof.
  induction us as [|u0 us IH] using rev_ind; intros m Hm.
  - simpl. eapply tracks_ext; [|exact Hm]. intros n u. simpl. intuition.
  - rewrite fold_left_app. simpl.
    eapply tracks_ext; [|apply tracks_record, IH, Hm].
    intros n u. cbv beta. rewrite in_app_iff. simpl. intuition.
Qed.

Lemma applies_snoc (l : list ClassMapping) (cm : ClassMapping) (n u : string) :
  applies (l ++ [cm]) n u
  <-> applies l n u \/ (n = generatedClassName cm /\ In u (Css.utilitiesOf cm)).
Proof.
  unfold applies. split.
  - intros (cm' & [Hin|[<-|[]]]%in_app_or & Hn & Hu); [left; eauto|right; auto].
  - intros [(cm' & Hin & Hn & Hu)|[-> Hu]].
    + exists cm'. split; [apply in_or_app; auto|auto].
    + exists cm. split; [apply in_or_app; right; left; reflexivity|auto].
Qed.

Lemma record_fold (l : list ClassMapping) :
  tracks (applies l) (fst (List.fold_left Css.recordMapping l ([], [])))
  /\ defines l (snd (List.fold_left Css.recordMapping l ([], []))).
Proof.
  induction l as [|cm l [IHt IHd]] using rev_ind.
  - simpl. split.
    + split; [constructor|]. split; [intros ? ? []|].
      intros n u (cm & [] & _).
    + split; [constructor|]. split; [intros ? ? []|intros ? []].
  - rewrite fold_left_app. simpl.
    destruct (List.fold_left Css.recordMapping l ([], [])) as [u2c defs].
    cbn [fst snd Css.recordMapping] in *. split.
    + eapply tracks_ext; [|apply tracks_fold, IHt].
      intros n u. cbv beta. rewrite applies_snoc. reflexivity.
    + destruct IHd as (Hnd & Hin & Hcov). split; [apply omSet_NoDup, Hnd|]. split.
      * intros n us H. apply (proj1 (omSet_In_iff _ _ _ _ _ Hnd)) in H as [[-> ->]|[Hne H]].
        -- exists cm. split; [apply in_or_app; right; left; reflexivity|auto].
        -- destruct (Hin n us H) as (cm' & Hcm' & Hn & Hus).
           exists cm'. split; [apply in_or_app; auto|auto].
      * intros cm' [Hcm'|[<-|[]]]%in_app_or.
        -- destruct (Hcov cm' Hcm') as [us Hus].
           destruct (decide (generatedClassName cm' = generatedClassName cm)) as [E|Hne].
           ++ eexists. apply (proj2 (omSet_In_iff _ _ _ _ _ Hnd)). left. split; [exact E|reflexivity].
           ++ exists us. apply (proj2 (omSet_In_iff _ _ _ _ _ Hnd)). right. auto.
        -- eexists. apply (proj2 (omSet_In_iff _ _ _ _ _ Hnd)). left. auto.
Qed.

(** ** Grouping the utilities by the classes that use them *)

Lemma group_fold (p : list (string * list string)) :
  grouped p (List.fold_left Css.groupStep p []).
Proof.
  induction p as [|[u0 cls0] p (Hnd & Hin & Hcov)] using rev_ind.
  - simpl. split; [constructor|]. split; [intros ? ? []|intros ? ? []].
  - rewrite fold_left_app. simpl. set (groups := List.fold_left Css.groupStep p []) in *.
    set (key0 := Css.classKeyOf cls0).
    assert (Hold : forall u, In u (default [] (omGet key0 groups))
                             <-> exists cls, In (u, cls) p /\ Css.classKeyOf cls = key0).
    { intros u. destruct (omGet key0 groups) as [us|] eqn:E; simpl.
      - apply Hin. apply omGet_Some_iff; assumption.
      - split; [intros []|]. intros (cls & Hcls & Hkey).
        destruct (Hcov _ _ Hcls) as [us Hus]. rewrite Hkey in Hus.
        apply omGet_None_keys in E. destruct E. eapply In_keys, Hus. }
    split; [apply omSet_NoDup, Hnd|]. split.
    + intros key us H u. apply (proj1 (omSet_In_iff _ _ _ _ _ Hnd)) in H as [[-> ->]|[Hne H]].
      * rewrite in_app_iff, Hold. simpl. split.
        -- intros [(cls & Hcls & Hkey)|[<-|[]]].
           ++ exists cls. split; [apply in_or_app; auto|exact Hkey].
           ++ exists cls0. split; [apply in_or_app; right; left; reflexivity|reflexivity].
        -- intros (cls & [Hcls|[[= <- <-]|[]]]%in_app_or & Hkey); [left; eauto|auto].
      * rewrite (Hin key us H). split.
        -- intros (cls & Hcls & Hkey). exists cls. split; [apply in_or_app; auto|exact Hkey].
        -- intros (cls & [Hcls|[[= <- <-]|[]]]%in_app_or & Hkey); [eauto|].
           subst key0. congruence.
    + intros u cls [Hcls|[[= <- <-]|[]]]%in_app_or.
      * destruct (Hcov _ _ Hcls) as [us Hus].
        destruct (decide (Css.classKeyOf cls = key0)) as [E|Hne].
        -- eexists. apply (proj2 (omSet_In_iff _ _ _ _ _ Hnd)). left. split; [exact E|reflexivity].
        -- exists us. apply (proj2 (omSet_In_iff _ _ _ _ _ Hnd)). right. auto.
      * eexists. apply (proj2 (omSet_In_iff _ _ _ _ _ Hnd)). left. auto.
Qed.

(** ** The rules of the two output loops *)

Lemma markProcessed_elem (classes utilities : list string) (P : gset string) (x : string) :
  x ∈ Css.markProcessed classes utilities P
  <-> x ∈ P \/ exists c u, In c classes /\ In u utilities /\ x = Css.pairKey c u.
Proof.
  unfold Css.markProcessed. revert P.
  induction classes as [|c classes IH]; intros P; simpl.
  - split; [auto|]. intros [?|(c & u & [] & _)]. assumption.
  - rewrite IH. clear IH.
    assert (Hinner : forall Q : gset string, x ∈ List.fold_left
                        (fun acc utility => acc ∪ {[Css.pairKey c utility]}) utilities Q
                      <-> x ∈ Q \/ exists u, In u utilities /\ x = Css.pairKey c u).
    { induction utilities as [|u utilities IHu]; intros Q; simpl.
      - split; [auto|]. intros [?|(u & [] & _)]. assumption.
      - rewrite IHu, elem_of_union, elem_of_singleton. split.
        + intros [[?| ->]|(u' & ? & ->)]; [auto|right; eauto|right; eauto].
        + intros [?|(u' & [<- |?] & ->)]; [auto|auto|right; eauto]. }
    rewrite Hinner. split.
    + intros [[?|(u & ? & ->)]|(c' & u & ? & ? & ->)]; [auto|right..].
      * exists c, u. auto.
      * exists c', u. auto.
    + intros [?|(c' & u & [<- |?] & ? & ->)]; [auto|left; right; eauto|right; eauto].
Qed.

Lemma emitGroupRules_fold (groups : list (string * list string)) :
  forall rules P,
  let R := List.fold_left emitGroupRules groups (rules, P) in
  (forall r, In r (fst R) <->
     In r rules \/ exists e, In e groups /\ groupEmitted e = true
                             /\ r = (classesOfKey (fst e), snd e))
  /\ (forall x, x ∈ snd R <->
        x ∈ P \/ exists e c u, In e groups /\ groupEmitted e = true
                               /\ In c (classesOfKey (fst e)) /\ In u (snd e)
                               /\ x = Css.pairKey c u).
Proof.
  induction groups as [|e groups IH]; intros rules P; cbn zeta.
  - simpl. split; [intros r|intros x]; (split; [auto|]).
    + intros [?|(e & [] & _)]. assumption.
    + intros [?|(e & c & u & [] & _)]. assumption.
  - cbn [List.fold_left]. unfold emitGroupRules at 2 4.
    destruct (groupEmitted e) eqn:He; cbn [fst snd].
    + destruct (IH (rules ++ [(classesOfKey (fst e), snd e)])%list
                  (Css.markProcessed (classesOfKey (fst e)) (snd e) P)) as [IHr IHp].
      split.
      * intros r. rewrite IHr, in_app_iff. simpl. split.
        -- intros [[?|[<- |[]]]|(e' & ? & ? & ->)]; [auto|right; exists e; simpl; intuition auto|].
           right. exists e'. simpl; intuition auto.
        -- intros [?|(e' & [<- |?] & ? & ->)]; [auto|auto|]. right. exists e'. simpl; intuition auto.
      * intros x. rewrite IHp, markProcessed_elem. split.
        -- intros [[?|(c & u & ? & ? & ->)]|(e' & c & u & ? & ? & ? & ? & ->)]; [auto|right..].
           ++ exists e, c, u. simpl; intuition auto.
           ++ exists e', c, u. simpl; intuition auto.
        -- intros [?|(e' & c & u & [<- |?] & ? & ? & ? & ->)]; [auto| |].
           ++ left. right. eauto.
           ++ right. exists e', c, u. simpl; intuition auto.
    + destruct (IH rules P) as [IHr IHp]. split.
      * intros r. rewrite IHr. split.
        -- intros [?|(e' & ? & ? & ->)]; [auto|]. right. exists e'. simpl; intuition auto.
        -- intros [?|(e' & [<- |?] & He' & ->)]; [auto|congruence|]. right. exists e'. simpl; intuition auto.
      * intros x. rewrite IHp. split.
        -- intros [?|(e' & c & u & ? & ? & ? & ? & ->)]; [auto|].
           right. exists e', c, u. simpl; intuition auto.
        -- intros [?|(e' & c & u & [<- |?] & He' & ? & ? & ->)]; [auto|congruence|].
           right. exists e', c, u. simpl; intuition auto.
Qed.

Lemma emitRemainingRules_fold (P : gset string) (defs : list (string * list string)) :
  forall rules r,
  In r (List.fold_left (emitRemainingRules P) defs rules)
  <-> In r rules
      \/ exists e, In e defs /\ remainingOf P e <> [] /\ r = ([fst e], remainingOf P e).
Proof.
  induction defs as [|e defs IH]; intros rules r.
  - simpl. split; [auto|]. intros [?|(e & [] & _)]. assumption.
  - cbn [List.fold_left]. rewrite IH. unfold emitRemainingRules at 1.
    destruct (remainingOf P e) as [|u0 rem] eqn:Hrem; cbn [List.length Nat.ltb Nat.leb].
    + split.
      * intros [?|(e' & ? & ? & ->)]; [auto|]. right. exists e'. simpl; intuition auto.
      * intros [?|(e' & [<- |?] & Hne & ->)]; [auto|congruence|]. right. exists e'. simpl; intuition auto.
    + rewrite in_app_iff. simpl. split.
      * intros [[?|[<- |[]]]|(e' & ? & ? & ->)]; [auto| |].
        -- right. exists e. rewrite Hrem. split; [auto|]. split; [discriminate|reflexivity].
        -- right. exists e'. simpl; intuition auto.
      * intros [?|(e' & [<- |?] & Hne & ->)]; [auto| |].
        -- left. right. left. rewrite Hrem. reflexivity.
        -- right. exists e'. simpl; intuition auto.
Qed.

Lemma ruleAssociations_In (r : Rule) (n u : string) :
  In (n, u) (ruleAssociations r) <-> In n (fst r) /\ In u (snd r).
Proof.
  unfold ruleAssociations. rewrite in_flat_map. split.
  - intros (u' & Hu' & [n' [[= <- <-] Hn']]%in_map_iff). auto.
  - intros [Hn Hu]. exists u. split; [exact Hu|]. apply in_map_iff. eauto.
Qed.

Lemma rules_In (rules : list Rule) (n u : string) :
  In (n, u) (List.flat_map ruleAssociations rules)
  <-> exists r, In r rules /\ In n (fst r) /\ In u (snd r).
Proof.
  rewrite in_flat_map. split; intros (r & Hr & H); exists r;
    (split; [exact Hr|]); apply ruleAssociations_In, H.
Qed.

(** ** Sorting, joining and splitting class names *)

Lemma insertSorted_In (x y : string) (l : list string) :
  In y (Js.insertSorted x l) <-> y = x \/ In y l.
Proof.
  induction l as [|z l IH]; simpl; [intuition|].
  destruct (Js.strLe x z); simpl; [|rewrite IH]; intuition.
Qed.

Lemma sort_In (y : string) (l : list string) : In y (Js.sort l) <-> In y l.
Proof.
  induction l as [|x l IH]; simpl; [reflexivity|].
  rewrite insertSorted_In, IH. intuition.
Qed.

Lemma insertSorted_length (x : string) (l : list string) :
  List.length (Js.insertSorted x l) = S (List.length l).
Proof.
  induction l as [|z l IH]; simpl; [reflexivity|].
  destruct (Js.strLe x z); simpl; [|rewrite IH]; reflexivity.
Qed.

Lemma sort_length (l : list string) : List.length (Js.sort l) = List.length l.
Proof.
  induction l as [|x l IH]; simpl; [reflexivity|].
  rewrite insertSorted_length, IH. reflexivity.
Qed.

Lemma splitChar_join (sep : ascii) (x : string) (xs : list string) :
  (forall y, In y (x :: xs) -> noneStr (Ascii.eqb sep) y = true) ->
  Css.splitChar sep (Js.join (String sep EmptyString) (x :: xs)) = x :: xs.
Proof.
  revert x. induction xs as [|y xs IH]; intros x Hall.
  - simpl. apply splitChar_none, Hall. left. reflexivity.
  - rewrite join_cons2.
    change (x ++ String sep EmptyString ++ Js.join (String sep EmptyString) (y :: xs))
      with (x ++ String sep (Js.join (String sep EmptyString) (y :: xs))).
    rewrite splitChar_sep by (apply Hall; left; reflexivity).
    rewrite IH by (intros; apply Hall; right; assumption). reflexivity.
Qed.

Lemma filterBoolean_id (l : list string) :
  (forall y, In y l -> Js.truthy y = true) -> Js.filterBoolean l = l.
Proof.
  unfold Js.filterBoolean. induction l as [|x l IH]; intros Hall; simpl; [reflexivity|].
  rewrite (Hall x) by (left; reflexivity).
  rewrite IH by (intros; apply Hall; right; assumption). reflexivity.
Qed.

Lemma classesOfKey_classKeyOf (cls : list string) :
  (forall n, In n cls -> isValidCssIdentifier n = true) ->
  classesOfKey (Css.classKeyOf cls) = Js.sort cls.
Proof.
  intros Hv. unfold classesOfKey, Css.classKeyOf.
  assert (Hs : forall n, In n (Js.sort cls) -> isValidCssIdentifier n = true)
    by (intros n Hn; apply Hv, sort_In, Hn).
  destruct (Js.sort cls) as [|x xs]; [reflexivity|].
  rewrite splitChar_join by (intros; apply valid_no_comma, Hs; assumption).
  apply filterBoolean_id. intros y Hy. apply valid_truthy, Hs, Hy.
Qed.

Lemma pairKey_inj (c c' u u' : string) :
  noneStr (Ascii.eqb ":") c = true -> noneStr (Ascii.eqb ":") c' = true ->
  Css.pairKey c u = Css.pairKey c' u' -> c = c' /\ u = u'.
Proof.
  unfold Css.pairKey, noneStr. revert c'.
  induction c as [|a c IH]; intros [|a' c'];
    cbn [String.append Js.existsbStr]; intros Hc Hc' E.
  - injection E as <-. auto.
  - injection E as Ea _. rewrite <- Ea, Ascii.eqb_refl in Hc'. discriminate.
  - injection E as Ea _. rewrite Ea, Ascii.eqb_refl in Hc. discriminate.
  - injection E as <- E.
    apply negb_true_iff, orb_false_iff in Hc as [_ Hc].
    apply negb_true_iff, orb_false_iff in Hc' as [_ Hc'].
    destruct (IH c') as [-> ->]; auto; apply negb_true_iff; assumption.
Qed.

(** The pieces of a split at whitespace hold no whitespace. *)
Lemma splitWs_pieces (s p : string) :
  In p (Js.splitWs s) -> noneStr Js.isWhiteSpace p = true.
Proof.
  revert p. induction s as [|c s IH]; intros p; simpl.
  - intros [<- |[]]. reflexivity.
  - destruct (Js.isWhiteSpace c) eqn:Hc.
    + destruct s as [|c' s'].
      * intros [<- |H]; [reflexivity|apply IH, H].
      * destruct (Js.isWhiteSpace c'); [apply IH|].
        intros [<- |H]; [reflexivity|apply IH, H].
    + destruct (Js.splitWs s) as [|q qs] eqn:Hq.
      * intros [<- |[]]. unfold noneStr. simpl. rewrite Hc. reflexivity.
      * intros [<- |H]; [|apply IH; right; exact H].
        unfold noneStr. simpl. rewrite Hc. simpl.
        apply (IH q). left. reflexivity.
Qed.

Lemma utilitiesOf_no_newline (cm : ClassMapping) (u : string) :
  In u (Css.utilitiesOf cm) -> noneStr isNewline u = true.
Proof.
  unfold Css.utilitiesOf, Js.filterBoolean. intros [Hu _]%filter_In.
  apply splitWs_pieces in Hu. unfold noneStr in *.
  apply negb_true_iff. apply negb_true_iff in Hu.
  induction u as [|c u IH]; simpl in *; [reflexivity|].
  apply orb_false_iff in Hu as [Hc Hu]. rewrite (IH Hu), orb_false_r.
  unfold isNewline. destruct (Ascii.eqb_spec "010" c) as [<- |]; [discriminate Hc|reflexivity].
Qed.

(** ** What the normalizer does keep: idempotence and order *)

Lemma leStr_trans (a b c : string) : leStr a b -> leStr b c -> leStr a c.
Proof.
  unfold leStr, Js.strLe. intros H1 H2.
  apply Is_true_true. apply Is_true_true in H1, H2.
  exact (@transitivity _ String.le _ a b c H1 H2).
Qed.

Lemma leStr_antisym (a b : string) : leStr a b -> leStr b a -> a = b.
Proof. unfold leStr, Js.strLe. apply String.leb_antisym. Qed.

Lemma leStr_total (a b : string) : leStr a b \/ leStr b a.
Proof. unfold leStr, Js.strLe. apply String.leb_total. Qed.

Lemma insertSorted_sorted (x : string) (l : list string) :
  StronglySorted leStr l -> StronglySorted leStr (Js.insertSorted x l).
Proof.
  induction 1 as [|y l Hs IH Hy]; simpl; [repeat constructor|].
  destruct (Js.strLe x y) eqn:E.
  - constructor; [constructor; assumption|].
    constructor; [exact E|].
    rewrite List.Forall_forall in Hy |- *. intros z Hz.
    eapply leStr_trans; [exact E|apply Hy, Hz].
  - constructor; [exact IH|].
    rewrite List.Forall_forall in Hy |- *. intros z [->|Hz]%insertSorted_In.
    + destruct (leStr_total x y) as [H|H]; [unfold leStr in H; congruence|exact H].
    + apply Hy, Hz.
Qed.

Lemma sort_sorted (l : list string) : StronglySorted leStr (Js.sort l).
Proof.
  induction l as [|x l IH]; simpl; [constructor|apply insertSorted_sorted, IH].
Qed.

Lemma sort_of_sorted (l : list string) : StronglySorted leStr l -> Js.sort l = l.
Proof.
  induction 1 as [|x l Hs IH Hx]; simpl; [reflexivity|].
  rewrite IH. destruct l as [|y l]; [reflexivity|].
  simpl. inversion Hx as [|? ? Hxy _]; subst. rewrite Hxy. reflexivity.
Qed.

Lemma sort_Permutation (l : list string) : Permutation (Js.sort l) l.
Proof.
  induction l as [|x l IH]; simpl; [constructor|].
  transitivity (x :: Js.sort l); [|constructor; exact IH].
  clear IH. induction (Js.sort l) as [|y m IHm]; simpl; [reflexivity|].
  destruct (Js.strLe x y); [reflexivity|].
  transitivity (y :: x :: m); [constructor; exact IHm|apply perm_swap].
Qed.

Lemma sorted_Permutation_eq (l1 l2 : list string) :
  StronglySorted leStr l1 -> StronglySorted leStr l2 -> Permutation l1 l2 -> l1 = l2.
Proof.
  intros H1. revert l2. induction H1 as [|x l1 Hs1 IH Hx]; intros l2 H2 Hp.
  - apply Permutation_nil in Hp. subst. reflexivity.
  - destruct H2 as [|y l2 Hs2 Hy].
    + apply Permutation_sym, Permutation_nil in Hp. discriminate Hp.
    + assert (x = y).
      { rewrite List.Forall_forall in Hx, Hy.
        assert (Hyin : In y (x :: l1))
          by (eapply Permutation_in; [apply Permutation_sym, Hp|left; reflexivity]).
        assert (Hxin : In x (y :: l2))
          by (eapply Permutation_in; [exact Hp|left; reflexivity]).
        destruct Hyin as [->|Hyin]; [reflexivity|].
        destruct Hxin as [->|Hxin]; [reflexivity|].
        apply leStr_antisym; [apply Hx, Hyin|apply Hy, Hxin]. }
      subst y. f_equal. apply IH; [exact Hs2|].
      eapply Permutation_cons_inv, Hp.
Qed.

Lemma tokensOf_token (s p : string) :
  In p (tokensOf s) -> Js.truthy p = true /\ noneStr Js.isWhiteSpace p = true.
Proof.
  unfold tokensOf, Js.filterBoolean. intros [Hin Ht]%filter_In.
  split; [exact Ht|eapply splitWs_pieces, Hin].
Qed.

Lemma splitWs_token (x : string) :
  noneStr Js.isWhiteSpace x = true -> Js.splitWs x = [x].
Proof.
  unfold noneStr. induction x as [|c x IH]; simpl; [reflexivity|].
  intros H. apply negb_true_iff, orb_false_iff in H as [Hc Hx].
  rewrite Hc, IH by (apply negb_true_iff, Hx). reflexivity.
Qed.

Lemma splitWs_token_sep (x r : string) (c : ascii) :
  noneStr Js.isWhiteSpace x = true -> Js.isWhiteSpace c = false ->
  Js.splitWs (x ++ String " " (String c r)) = x :: Js.splitWs (String c r).
Proof.
  unfold noneStr. intros Hx Hc. induction x as [|a x IH].
  - change (EmptyString ++ String " " (String c r)) with (String " " (String c r)).
    cbn [Js.splitWs]. change (Js.isWhiteSpace " ") with true. cbn iota.
    rewrite Hc. reflexivity.
  - change (String a x ++ String " " (String c r))
      with (String a (x ++ String " " (String c r))).
    simpl in Hx. apply negb_true_iff, orb_false_iff in Hx as [Ha Hx].
    cbn [Js.splitWs]. rewrite Ha, IH by (apply negb_true_iff, Hx). reflexivity.
Qed.

Lemma token_head (x : string) :
  Js.truthy x = true -> noneStr Js.isWhiteSpace x = true ->
  exists c r, x = String c r /\ Js.isWhiteSpace c = false.
Proof.
  destruct x as [|c r]; [discriminate|]. intros _ H. exists c, r. split; [reflexivity|].
  unfold noneStr in H. simpl in H. apply negb_true_iff, orb_false_iff in H as [Hc _].
  exact Hc.
Qed.

Lemma tokensOf_join (l : list string) :
  (forall p, In p l -> Js.truthy p = true /\ noneStr Js.isWhiteSpace p = true) ->
  tokensOf (Js.join " " l) = l.
Proof.
  unfold tokensOf. induction l as [|x l IH]; intros Hl; [reflexivity|].
  destruct (Hl x (or_introl eq_refl)) as [Hxt Hxw].
  destruct l as [|y l].
  - simpl. rewrite splitWs_token by exact Hxw.
    simpl. rewrite Hxt. reflexivity.
  - rewrite join_cons2.
    destruct (Hl y (or_intror (or_introl eq_refl))) as [Hyt Hyw].
    destruct (token_head y Hyt Hyw) as (c & r & Hy & Hc).
    assert (Hj : exists r', Js.join " " (y :: l) = String c r').
    { rewrite Hy. destruct l as [|z l]; [exists r; reflexivity|].
      rewrite join_cons2. eexists. reflexivity. }
    destruct Hj as [r' Hj].
    change (x ++ " " ++ Js.join " " (y :: l))
      with (x ++ String " " (Js.join " " (y :: l))).
    rewrite Hj, splitWs_token_sep by assumption. rewrite <- Hj.
    cbn [Js.filterBoolean List.filter]. rewrite Hxt.
    f_equal. apply IH. intros p Hp. apply Hl. right. exact Hp.
Qed.

(** Normalizing twice is normalizing once. *)
Lemma normalize_idempotent (s : string) :
  normalizeClassString (normalizeClassString s) = normalizeClassString s.
Proof.
  unfold normalizeClassString at 1. fold (tokensOf (normalizeClassString s)).
  unfold normalizeClassString at 1. fold (tokensOf s).
  rewrite tokensOf_join.
  - rewrite sort_of_sorted by apply sort_sorted. reflexivity.
  - intros p Hp. apply (proj1 (sort_In _ _)) in Hp. eapply tokensOf_token, Hp.
Qed.

(** The order of the tokens does not matter; their number does. *)
Lemma normalize_permutation (s s' : string) :
  Permutation (tokensOf s) (tokensOf s') ->
  normalizeClassString s = normalizeClassString s'.
Proof.
  intros Hp. unfold normalizeClassString. fold (tokensOf s) (tokensOf s'). f_equal.
  apply sorted_Permutation_eq; try apply sort_sorted.
  rewrite (sort_Permutation (tokensOf s)), (sort_Permutation (tokensOf s')). exact Hp.
Qed.

Lemma normalize_tokens (s : string) :
  Permutation (tokensOf (normalizeClassString s)) (tokensOf s).
Proof.
  unfold normalizeClassString. fold (tokensOf s). rewrite tokensOf_join.
  - apply sort_Permutation.
  - intros p Hp. apply (proj1 (sort_In _ _)) in Hp. eapply tokensOf_token, Hp.
Qed.

(** ** What the two stylesheets apply *)

Lemma keys_unique {V : Type} (k : string) (v v' : V) (m : list (string * V)) :
  List.NoDup (List.map fst m) -> In (k, v) m -> In (k, v') m -> v = v'.
Proof.
  intros Hnd H H'. apply (omGet_Some_iff _ _ _ Hnd) in H, H'. congruence.
Qed.

Lemma standardRules_fold (l : list ClassMapping) :
  let R := List.fold_left standardRulesStep l ([], ∅) in
  (forall n, n ∈ snd R <-> exists cm, In cm l /\ generatedClassName cm = n)
  /\ (forall r, In r (fst R) ->
        exists cm, In cm l /\ r = ([generatedClassName cm], Css.utilitiesOf cm))
  /\ (forall cm, In cm l ->
        exists cm', In cm' l /\ generatedClassName cm' = generatedClassName cm
                    /\ In ([generatedClassName cm'], Css.utilitiesOf cm') (fst R)).
Proof.
  induction l as [|cm l IH] using rev_ind; cbn zeta.
  - simpl. split; [|split].
    + intros n. split; [set_solver|]. intros (cm & [] & _).
    + intros r [].
    + intros cm [].
  - rewrite fold_left_app. cbn [List.fold_left]. cbn zeta in IH.
    destruct (List.fold_left standardRulesStep l ([], ∅)) as [rules P].
    cbn [fst snd] in IH. destruct IH as (HP & Hr & Hcov).
    unfold standardRulesStep. case_bool_decide as Hseen; cbn [fst snd].
    + split; [|split].
      * intros n. rewrite HP. split.
        -- intros (cm' & Hin & Hn). exists cm'. split; [apply in_or_app; auto|exact Hn].
        -- intros (cm' & [Hin|[<- |[]]]%in_app_or & Hn); [eauto|].
           subst n. apply HP, Hseen.
      * intros r Hin. destruct (Hr r Hin) as (cm' & Hcm' & ->).
        exists cm'. split; [apply in_or_app; auto|reflexivity].
      * intros cm0 [Hin|[<- |[]]]%in_app_or.
        -- destruct (Hcov cm0 Hin) as (cm' & Hcm' & Hn & Hrule).
           exists cm'. split; [apply in_or_app; auto|auto].
        -- apply HP in Hseen as (cm1 & Hcm1 & Hn1).
           destruct (Hcov cm1 Hcm1) as (cm' & Hcm' & Hn & Hrule).
           exists cm'. split; [apply in_or_app; auto|]. split; [congruence|exact Hrule].
    + split; [|split].
      * intros n. rewrite elem_of_union, elem_of_singleton, HP. split.
        -- intros [(cm' & Hin & Hn)| ->].
           ++ exists cm'. split; [apply in_or_app; auto|exact Hn].
           ++ exists cm. split; [apply in_or_app; right; left; reflexivity|reflexivity].
        -- intros (cm' & [Hin|[<- |[]]]%in_app_or & Hn); [left; eauto|right; auto].
      * intros r [Hin|[<- |[]]]%in_app_or.
        -- destruct (Hr r Hin) as (cm' & Hcm' & ->).
           exists cm'. split; [apply in_or_app; auto|reflexivity].
        -- exists cm. split; [apply in_or_app; right; left; reflexivity|reflexivity].
      * intros cm0 [Hin|[<- |[]]]%in_app_or.
        -- destruct (Hcov cm0 Hin) as (cm' & Hcm' & Hn & Hrule).
           exists cm'. split; [apply in_or_app; auto|]. split; [exact Hn|].
           apply in_or_app. auto.
        -- exists cm. split; [apply in_or_app; right; left; reflexivity|].
           split; [reflexivity|]. apply in_or_app. right. left. reflexivity.
Qed.

Lemma standard_applies (cms : list ClassMapping) (n u : string) :
  consistentNames cms ->
  In (n, u) (List.flat_map ruleAssociations (standardRules cms)) <-> applies cms n u.
Proof.
  intros Hcons. destruct (standardRules_fold cms) as (_ & Hr & Hcov).
  fold (standardRules cms) in Hr, Hcov. rewrite rules_In. split.
  - intros (r & Hin & Hn & Hu). destruct (Hr r Hin) as (cm & Hcm & ->).
    cbn [fst snd] in *. destruct Hn as [<- |[]]. exists cm. auto.
  - intros (cm & Hcm & <- & Hu). destruct (Hcov cm Hcm) as (cm' & Hcm' & Hn & Hrule).
    eexists. split; [exact Hrule|]. cbn [fst snd]. split; [left; exact Hn|].
    apply (Hcons cm cm' Hcm Hcm' (eq_sym Hn)), Hu.
Qed.

Lemma standard_rulesOk (cms : list ClassMapping) :
  (forall cm, In cm cms -> isValidCssIdentifier (generatedClassName cm) = true) ->
  forall r, In r (standardRules cms) -> ruleOk r.
Proof.
  intros Hv r Hin. destruct (standardRules_fold cms) as (_ & Hr & _).
  destruct (Hr r Hin) as (cm & Hcm & ->). split; [discriminate|]. cbn [fst snd]. split.
  - intros n [<- |[]]. apply Hv, Hcm.
  - intros u Hu. eapply utilitiesOf_no_newline, Hu.
Qed.

Section Optimized.
Variable cms : list ClassMapping.
Hypothesis Hvalid :
  forall cm, In cm cms -> isValidCssIdentifier (generatedClassName cm) = true.

Let u2c := fst (List.fold_left Css.recordMapping cms ([], [])).
Let defs := snd (List.fold_left Css.recordMapping cms ([], [])).
Let groups := List.fold_left Css.groupStep u2c [].
Let stage1 := List.fold_left emitGroupRules groups ([], ∅).

Lemma optimizedRules_eq :
  optimizedRules cms = List.fold_left (emitRemainingRules (snd stage1)) defs (fst stage1).
Proof.
  unfold optimizedRules, stage1, groups, defs, u2c.
  destruct (List.fold_left Css.recordMapping cms ([], [])) as [a b]. cbn [fst snd].
  destruct (List.fold_left emitGroupRules _ _) as [rules P]. reflexivity.
Qed.

Lemma applies_valid (n u : string) : applies cms n u -> isValidCssIdentifier n = true.
Proof. intros (cm & Hcm & <- & _). apply Hvalid, Hcm. Qed.

Lemma u2c_classes_valid (u : string) (cls : list string) (n : string) :
  In (u, cls) u2c -> In n cls -> isValidCssIdentifier n = true.
Proof.
  intros Hin Hn. destruct (record_fold cms) as [(_ & Ht & _) _].
  apply (applies_valid n u). apply (Ht u cls Hin), Hn.
Qed.

(** A group holds the utilities of one set of classes. *)
Lemma group_classes (key : string) (us : list string) (u : string) :
  In (key, us) groups -> In u us ->
  exists cls, In (u, cls) u2c /\ Css.classKeyOf cls = key
              /\ classesOfKey key = Js.sort cls.
Proof.
  intros Hin Hu. destruct (group_fold u2c) as (_ & Hg & _).
  apply (Hg key us Hin) in Hu as (cls & Hcls & Hkey).
  exists cls. split; [exact Hcls|]. split; [exact Hkey|].
  rewrite <- Hkey. apply classesOfKey_classKeyOf.
  intros n Hn. eapply u2c_classes_valid; eauto.
Qed.

(** The group of a utility that some class uses. *)
Lemma group_of (n u : string) :
  applies cms n u ->
  exists cls us, In (u, cls) u2c /\ In n cls /\ In (Css.classKeyOf cls, us) groups
                 /\ In u us /\ classesOfKey (Css.classKeyOf cls) = Js.sort cls.
Proof.
  intros Ha. destruct (record_fold cms) as [(_ & Ht & Hcov) _].
  destruct (Hcov n u Ha) as [cls Hcls].
  destruct (group_fold u2c) as (_ & Hg & Hgcov).
  destruct (Hgcov u cls Hcls) as [us Hus].
  exists cls, us. split; [exact Hcls|]. split; [apply (Ht u cls Hcls), Ha|].
  split; [exact Hus|]. split.
  - apply (Hg _ us Hus). eauto.
  - apply classesOfKey_classKeyOf. intros m Hm. eapply u2c_classes_valid; eauto.
Qed.

Lemma processed_spec (n u : string) :
  isValidCssIdentifier n = true ->
  Css.pairKey n u ∈ snd stage1
  <-> exists e, In e groups /\ groupEmitted e = true
                /\ In n (classesOfKey (fst e)) /\ In u (snd e).
Proof.
  intros Hn. destruct (emitGroupRules_fold groups [] ∅) as [_ HP].
  fold stage1 in HP. rewrite HP. split.
  - intros [H|(e & c & u' & He & Hem & Hc & Hu' & E)]; [set_solver|].
    destruct e as [key us]. cbn [fst snd] in *.
    destruct (group_classes key us u' He Hu') as (cls & Hcls & Hkey & Hsort).
    assert (Hcv : isValidCssIdentifier c = true).
    { rewrite Hsort in Hc. apply (proj1 (sort_In _ _)) in Hc. exact (u2c_classes_valid u' cls c Hcls Hc). }
    apply pairKey_inj in E as [-> ->]; [|apply valid_no_colon; assumption..].
    exists (key, us). auto.
  - intros (e & He & Hem & Hc & Hu). right. exists e, n, u. auto 10.
Qed.

Lemma optimized_applies (n u : string) :
  consistentNames cms ->
  In (n, u) (List.flat_map ruleAssociations (optimizedRules cms)) <-> applies cms n u.
Proof.
  intros Hcons. rewrite rules_In, optimizedRules_eq.
  destruct (emitGroupRules_fold groups [] ∅) as [Hrules _]. fold stage1 in Hrules.
  destruct (record_fold cms) as [(Hnd & Ht & Hcov) (Hdnd & Hd & Hdcov)].
  fold u2c in Hnd, Ht, Hcov. fold defs in Hdnd, Hd, Hdcov.
  destruct (group_fold u2c) as (Hgnd & Hg & Hgcov). fold groups in Hgnd, Hg, Hgcov.
  split.
  - intros (r & Hin & Hn & Hu).
    apply emitRemainingRules_fold in Hin as [Hin|(e & He & _ & ->)].
    + apply Hrules in Hin as [[]|([key us] & He & _ & ->)]. cbn [fst snd] in *.
      destruct (group_classes key us u He Hu) as (cls & Hcls & _ & Hsort).
      rewrite Hsort in Hn. apply (proj1 (sort_In _ _)) in Hn. apply (Ht u cls Hcls), Hn.
    + destruct e as [n' us]. cbn [fst snd] in *. destruct Hn as [<- |[]].
      unfold remainingOf in Hu. cbn [fst snd] in Hu. apply filter_In in Hu as [Hu _].
      destruct (Hd n' us He) as (cm & Hcm & Hname & ->). exists cm. auto.
  - intros Ha.
    destruct (group_of n u Ha) as (cls & us & Hcls & Hncls & Hgrp & Hu & Hsort).
    destruct (groupEmitted (Css.classKeyOf cls, us)) eqn:Hem.
    + exists (classesOfKey (Css.classKeyOf cls), us). split.
      * apply emitRemainingRules_fold. left. apply Hrules. right.
        exists (Css.classKeyOf cls, us). auto.
      * cbn [fst snd]. split; [rewrite Hsort; apply sort_In, Hncls|exact Hu].
    + assert (Hnot : Css.pairKey n u ∉ snd stage1).
      { intros HP. apply processed_spec in HP as ([key' us'] & He' & Hem' & _ & Hu');
          [|eapply applies_valid, Ha].
        cbn [fst snd] in *.
        destruct (group_classes key' us' u He' Hu') as (cls' & Hcls' & Hkey' & _).
        assert (cls' = cls) by exact (keys_unique u cls' cls u2c Hnd Hcls' Hcls).
        subst cls'. subst key'.
        assert (us' = us)
          by exact (keys_unique (Css.classKeyOf cls) us' us groups Hgnd He' Hgrp).
        subst us'. congruence. }
      destruct Ha as (cm & Hcm & Hname & Hucm).
      destruct (Hdcov cm Hcm) as [usd Husd].
      destruct (Hd _ usd Husd) as (cm' & Hcm' & Hname' & ->).
      assert (Hrem : In u (remainingOf (snd stage1) (generatedClassName cm, Css.utilitiesOf cm'))).
      { unfold remainingOf. cbn [fst snd]. apply filter_In. split.
        - apply (Hcons cm cm' Hcm Hcm' (eq_sym Hname')), Hucm.
        - rewrite Hname. apply negb_true_iff, bool_decide_eq_false_2, Hnot. }
      exists ([generatedClassName cm], remainingOf (snd stage1)
                (generatedClassName cm, Css.utilitiesOf cm')). split.
      * apply emitRemainingRules_fold. right.
        exists (generatedClassName cm, Css.utilitiesOf cm'). split; [exact Husd|].
        split; [|reflexivity]. intros E. rewrite E in Hrem. destruct Hrem.
      * cbn [fst snd]. split; [left; exact Hname|exact Hrem].
Qed.

Lemma optimized_rulesOk (r : Rule) : In r (optimizedRules cms) -> ruleOk r.
Proof.
  rewrite optimizedRules_eq. intros Hin.
  destruct (emitGroupRules_fold groups [] ∅) as [Hrules _]. fold stage1 in Hrules.
  destruct (record_fold cms) as [(_ & Ht & _) (_ & Hd & _)].
  fold u2c in Ht. fold defs in Hd.
  apply emitRemainingRules_fold in Hin as [Hin|([n us] & He & Hne & ->)].
  - apply Hrules in Hin as [[]|([key us] & He & Hem & ->)].
    unfold groupEmitted in Hem. cbn [fst snd] in Hem.
    apply negb_true_iff, orb_false_iff in Hem as [Hlen Hus].
    apply Nat.leb_gt in Hlen. apply Nat.eqb_neq in Hus.
    destruct us as [|u0 us]; [contradiction|].
    destruct (group_classes key (u0 :: us) u0 He (or_introl eq_refl))
      as (cls0 & Hcls0 & _ & Hsort).
    split; [|split]; cbn [fst snd].
    + intros E. rewrite E in Hlen. simpl in Hlen. lia.
    + intros n Hn. rewrite Hsort in Hn. apply (proj1 (sort_In _ _)) in Hn.
      eapply u2c_classes_valid; eauto.
    + intros u Hu.
      destruct (group_classes key (u0 :: us) u He Hu) as (cls & Hcls & _ & Hsort').
      rewrite Hsort' in Hlen. rewrite sort_length in Hlen.
      destruct cls as [|n cls]; [simpl in Hlen; lia|].
      destruct (proj1 (Ht u (n :: cls) Hcls n) (or_introl eq_refl)) as (cm & _ & _ & Hucm).
      eapply utilitiesOf_no_newline, Hucm.
  - destruct (Hd n us He) as (cm & Hcm & <- & ->).
    split; [discriminate|]. cbn [fst snd]. split.
    + intros m [<- |[]]. apply Hvalid, Hcm.
    + unfold remainingOf. cbn [fst snd]. intros u [Hu _]%filter_In.
      eapply utilitiesOf_no_newline, Hu.
Qed.
End Optimized.

(** C7, as the code has it.  For a file mapping whose generated names are
    valid identifiers and whose class mappings agree on the utilities of
    every generated name, the pairs (generated name, utility) read back
    from the standard stylesheet are those read back from the
    component-optimized stylesheet, and both are the pairs the class
    mappings give. *)
Theorem stylesheet_equivalence (mapping : FileMapping) :
  (forall cm, In cm (mappings mapping) ->
     isValidCssIdentifier (generatedClassName cm) = true) ->
  consistentNames (mappings mapping) ->
  forall n u,
    (In (n, u) (Sheet.associations (Css.generateStandardCss mapping))
     <-> In (n, u) (Sheet.associations (Css.generateOptimizedCss mapping)))
    /\ (In (n, u) (Sheet.associations (Css.generateStandardCss mapping))
        <-> applies (mappings mapping) n u).
Proof.
  intros Hvalid Hcons n u.
  unfold Css.generateStandardCss, Css.generateOptimizedCss.
  rewrite standardCss_rules, optimizedCss_rules.
  rewrite !associations_renderRules
    by (first [apply standard_rulesOk | apply optimized_rulesOk]; exact Hvalid).
  rewrite (standard_applies _ n u Hcons), (optimized_applies _ Hvalid n u Hcons).
  split; reflexivity.
Qed.

Lemma stylesheet_equivalence_witness :
  (forall cm, In cm (mappings sampleFileMapping) ->
     isValidCssIdentifier (generatedClassName cm) = true)
  /\ consistentNames (mappings sampleFileMapping)
  /\ (In ("y", "b") (Sheet.associations (Css.generateStandardCss sampleFileMapping))
      <-> In ("y", "b") (Sheet.associations (Css.generateOptimizedCss sampleFileMapping))).
Proof.
  assert (Hv : forall cm, In cm (mappings sampleFileMapping) ->
                 isValidCssIdentifier (generatedClassName cm) = true).
  { intros cm [<- |[<- |[<- |[]]]]; reflexivity. }
  assert (Hc : consistentNames (mappings sampleFileMapping)).
  { intros cm1 cm2 [<- |[<- |[<- |[]]]] [<- |[<- |[<- |[]]]] E u;
      try reflexivity; discriminate E. }
  split; [exact Hv|]. split; [exact Hc|].
  exact (proj1 (stylesheet_equivalence sampleFileMapping Hv Hc "y" "b")).
Defined.

(** C7, as stated, fails.  In the scan of [collidingSource] the hint btn-1
    and version 1 of the hint btn get the same generated name with
    different utilities.  The standard stylesheet keeps the first of them,
    the optimized one the last. *)
Lemma stylesheet_counterexample :
  List.map (fun cm => (generatedClassName cm, originalClasses cm))
    (mappings collidingMapping)
  = [("btn-1", "p-9"); ("btn", "p-1"); ("btn-1", "p-2")]
  /\ Sheet.associations (Css.generateStandardCss collidingMapping)
     = [("btn-1", "p-9"); ("btn", "p-1")]
  /\ Sheet.associations (Css.generateOptimizedCss collidingMapping)
     = [("btn-1", "p-2"); ("btn", "p-1")]
  /\ ~ (In ("btn-1", "p-9") (Sheet.associations (Css.generateStandardCss collidingMapping))
        <-> In ("btn-1", "p-9")
              (Sheet.associations (Css.generateOptimizedCss collidingMapping))).
Proof.
  assert (H1 : Sheet.associations (Css.generateStandardCss collidingMapping)
               = [("btn-1", "p-9"); ("btn", "p-1")]) by (vm_compute; reflexivity).
  assert (H2 : Sheet.associations (Css.generateOptimizedCss collidingMapping)
               = [("btn-1", "p-2"); ("btn", "p-1")]) by (vm_compute; reflexivity).
  split; [vm_compute; reflexivity|]. split; [exact H1|]. split; [exact H2|].
  rewrite H1, H2. intros [H _].
  destruct (H (or_introl eq_refl)) as [E|[E|[]]]; discriminate E.
Qed.

(** ** The normalizer: canonical forms *)

Lemma tokensOf_sort_tokens (s : string) (p : string) :
  In p (Js.sort (tokensOf s)) -> Js.truthy p = true /\ noneStr Js.isWhiteSpace p = true.
Proof. intros Hp. apply (proj1 (sort_In _ _)) in Hp. eapply tokensOf_token, Hp. Qed.

Lemma tokensOf_normalize (s : string) :
  tokensOf (normalizeClassString s) = Js.sort (tokensOf s).
Proof.
  unfold normalizeClassString. fold (tokensOf s).
  apply tokensOf_join, tokensOf_sort_tokens.
Qed.

Lemma tokensOf_blank (s : string) : tokensOf s = [] <-> Js.isBlank s = true.
Proof.
  unfold tokensOf, Js.isBlank. induction s as [|c s IH]; [simpl; tauto|].
  cbn [Js.splitWs Js.forallbStr].
  destruct (Js.isWhiteSpace c) eqn:Hc; cbn [andb].
  - rewrite <- IH. destruct s as [|c' s']; [reflexivity|].
    destruct (Js.isWhiteSpace c'); reflexivity.
  - split; [|discriminate].
    destruct (Js.splitWs s) as [|p ps]; discriminate.
Qed.

Lemma join_empty (l : list string) :
  (forall p, In p l -> Js.truthy p = true) -> Js.join " " l = EmptyString -> l = [].
Proof.
  destruct l as [|x [|y l]]; intros Hl E; [reflexivity| |].
  - simpl in E. subst x. specialize (Hl EmptyString (or_introl eq_refl)). discriminate Hl.
  - rewrite join_cons2 in E. specialize (Hl x (or_introl eq_refl)).
    destruct x; [discriminate Hl|discriminate E].
Qed.

(** X1.  The canonical form is a fixed point of the normalizer; its tokens
    are the tokens of the class string in sorted order, and it is those
    tokens joined by single spaces, so it has no whitespace at either end
    and no run of whitespace inside. *)
Theorem normalize_canonical (s : string) :
  normalizeClassString (normalizeClassString s) = normalizeClassString s
  /\ tokensOf (normalizeClassString s) = Js.sort (tokensOf s)
  /\ StronglySorted leStr (tokensOf (normalizeClassString s))
  /\ normalizeClassString s = Js.join " " (tokensOf (normalizeClassString s)).
Proof.
  assert (Ht := tokensOf_normalize s).
  assert (Hj : normalizeClassString s = Js.join " " (tokensOf (normalizeClassString s))).
  { rewrite Ht. reflexivity. }
  split; [|split; [exact Ht|split; [rewrite Ht; apply sort_sorted|exact Hj]]].
  unfold normalizeClassString at 1. fold (tokensOf (normalizeClassString s)).
  rewrite Ht, sort_of_sorted by apply sort_sorted. reflexivity.
Qed.

(** X2.  Two class strings have the same canonical form exactly when their
    token lists are permutations of each other: order and whitespace are
    forgotten, the number of times a token occurs is not. *)
Theorem normalize_eq_iff (s s' : string) :
  normalizeClassString s = normalizeClassString s'
  <-> Permutation (tokensOf s) (tokensOf s').
Proof.
  split.
  - intros E.
    rewrite <- (sort_Permutation (tokensOf s)), <- (sort_Permutation (tokensOf s')).
    rewrite <- !tokensOf_normalize, E. reflexivity.
  - intros Hp. unfold normalizeClassString. fold (tokensOf s) (tokensOf s'). f_equal.
    apply sorted_Permutation_eq; try apply sort_sorted.
    rewrite (sort_Permutation (tokensOf s)), (sort_Permutation (tokensOf s')). exact Hp.
Qed.

(** X3.  The canonical form is empty exactly for the class strings made of
    whitespace only, the empty one among them. *)
Theorem normalize_blank (s : string) :
  normalizeClassString s = EmptyString <-> Js.isBlank s = true.
Proof.
  rewrite <- tokensOf_blank. split.
  - intros E. unfold normalizeClassString in E. fold (tokensOf s) in E.
    apply join_empty in E.
    + apply Permutation_nil. rewrite <- E. apply sort_Permutation.
    + intros p Hp. apply (tokensOf_sort_tokens s p Hp).
  - intros E. unfold normalizeClassString. fold (tokensOf s). rewrite E. reflexivity.
Qed.

(** ** The resolver: what a call leaves behind *)

Lemma str_app_inv_head (a b c : string) : a ++ b = a ++ c -> b = c.
Proof. induction a as [|x a IH]; simpl; [auto|]. intros H. injection H as H. auto. Qed.

Lemma str_app_neq_self (a b : string) : b <> EmptyString -> a ++ b <> a.
Proof.
  intros Hb E. apply Hb. apply (f_equal String.length) in E.
  rewrite str_length_app in E. destruct b; [reflexivity|simpl in E; lia].
Qed.

Lemma numberToString_inj (n m : N) : Js.numberToString n = Js.numberToString m -> n = m.
Proof.
  unfold Js.numberToString. intros E.
  apply (f_equal NilEmpty.uint_of_string) in E. rewrite !NilEmpty.usu in E.
  injection E as E. apply (f_equal N.of_uint) in E.
  rewrite !DecimalN.Unsigned.of_to in E. exact E.
Qed.

Lemma versionedName_inj (ns : string) (v v' : N) :
  versionedName ns v = versionedName ns v' -> v = v'.
Proof.
  unfold versionedName. intros E.
  apply str_app_inv_head, str_app_inv_head in E. apply numberToString_inj, E.
Qed.

Lemma versionedName_neq (ns : string) (v : N) : versionedName ns v <> ns.
Proof. unfold versionedName. apply str_app_neq_self. discriminate. Qed.

(** The four ways a call with a usable hint ends. *)
Lemma processClassValue_cases (t : Tables) (classValue ns : string) :
  isValidCssIdentifier ns = true ->
  let c := normalizeClassString classValue in
  let h := highestVersionOf t ns in
  let has (v : N) := setHas (namespaceToClasses t !! versionedName ns v) c in
  (namespaceToClasses t !! ns = None /\
     processClassValue t classValue (Some ns) =
       (mkTables (<[ns := 0%N]> (namespaceVersions t))
                 (<[ns := {[c]}]> (namespaceToClasses t)),
        mkResolution c ns))
  \/ (exists base, namespaceToClasses t !! ns = Some base /\ c ∈ base /\
        processClassValue t classValue (Some ns) = (t, mkResolution c ns))
  \/ (exists base v, namespaceToClasses t !! ns = Some base /\ (c ∉ base) /\
        (1 <= v <= h)%N /\ has v = true /\
        (forall v', (1 <= v' < v)%N -> has v' = false) /\
        processClassValue t classValue (Some ns) = (t, mkResolution c (versionedName ns v)))
  \/ (exists base, namespaceToClasses t !! ns = Some base /\ (c ∉ base) /\
        (forall v, (1 <= v <= h)%N -> has v = false) /\
        processClassValue t classValue (Some ns) =
          (mkTables (<[ns := (h + 1)%N]> (namespaceVersions t))
                    (<[versionedName ns (h + 1) := {[c]}]> (namespaceToClasses t)),
           mkResolution c (versionedName ns (h + 1)))).
Proof.
  intros Hvalid c h has. subst c h has. cbv beta.
  unfold processClassValue. rewrite (usableNamespace_valid _ Hvalid).
  destruct (namespaceToClasses t !! ns) as [base|] eqn:Eb; [|left; auto].
  right. case_bool_decide as Hin; [left; exists base; auto|].
  right.
  pose proof (scanVersions_spec (namespaceToClasses t) ns
                (normalizeClassString classValue) (N.to_nat (highestVersionOf t ns)) 1) as Hs.
  destruct (scanVersions _ _ _ _ _) as [v|].
  - left. exists base, v. destruct Hs as (Hv & Hhas & Hlow).
    repeat split; auto; lia.
  - right. exists base. repeat split; auto. intros v Hv. apply Hs. lia.
Qed.

Lemma processClassValue_normal (t : Tables) (cv cv' : string) (hint : option string) :
  normalizeClassString cv' = normalizeClassString cv ->
  processClassValue t cv' hint = processClassValue t cv hint.
Proof. intros E. unfold processClassValue. rewrite E. reflexivity. Qed.

(** The tables after a call that stores a new version. *)
Lemma new_version_tables (t : Tables) (ns c : string) (base : gset string) :
  namespaceToClasses t !! ns = Some base ->
  let h := highestVersionOf t ns in
  let t1 := mkTables (<[ns := (h + 1)%N]> (namespaceVersions t))
              (<[versionedName ns (h + 1) := {[c]}]> (namespaceToClasses t)) in
  highestVersionOf t1 ns = (h + 1)%N
  /\ namespaceToClasses t1 !! ns = Some base
  /\ (forall v c', v <> (h + 1)%N ->
        setHas (namespaceToClasses t1 !! versionedName ns v) c'
        = setHas (namespaceToClasses t !! versionedName ns v) c')
  /\ setHas (namespaceToClasses t1 !! versionedName ns (h + 1)) c = true.
Proof.
  intros Hb h t1. repeat split.
  - unfold highestVersionOf, t1. cbn. rewrite lookup_insert_eq. reflexivity.
  - unfold t1. cbn. rewrite lookup_insert_ne; [exact Hb|apply versionedName_neq].
  - intros v c' Hv. unfold t1. cbn. rewrite lookup_insert_ne; [reflexivity|].
    intros Ev. apply versionedName_inj in Ev. congruence.
  - unfold t1. cbn. rewrite lookup_insert_eq. cbn. apply bool_decide_eq_true_2. set_solver.
Qed.

(** The same call once more. *)
Lemma processClassValue_again (t : Tables) (cv : string) (hint : option string) :
  processClassValue (fst (processClassValue t cv hint)) cv hint
  = processClassValue t cv hint.
Proof.
  destruct (usableNamespace hint) as [ns|] eqn:Hu.
  - apply usableNamespace_Some in Hu as [-> Hvalid].
    destruct (processClassValue_cases t cv ns Hvalid)
      as [(Hnone & E) | [(base & Hb & Hin & E) | [(base & v & Hb & Hnin & Hv & Hhas & Hlow & E)
          | (base & Hb & Hnin & Hnone & E)]]]; rewrite E; cbn [fst].
    + destruct (processClassValue_cases
                  (mkTables (<[ns := 0%N]> (namespaceVersions t))
                     (<[ns := {[normalizeClassString cv]}]> (namespaceToClasses t)))
                  cv ns Hvalid)
        as [(Hn' & _) | [(base' & Hb' & Hin' & E') | [(base' & v' & Hb' & Hnin' & _)
            | (base' & Hb' & Hnin' & _)]]];
        cbn in Hn' || cbn in Hb'; rewrite lookup_insert_eq in *; try discriminate.
      * exact E'.
      * injection Hb' as <-. exfalso. apply Hnin'. set_solver.
      * injection Hb' as <-. exfalso. apply Hnin'. set_solver.
    + exact E.
    + exact E.
    + destruct (new_version_tables t ns (normalizeClassString cv) base Hb)
        as (Hh1 & Hb1 & Hhas1 & Hnew).
      set (t1 := mkTables _ _) in *.
      destruct (processClassValue_cases t1 cv ns Hvalid)
        as [(Hn' & _) | [(base' & Hb' & Hin' & _)
            | [(base' & v' & Hb' & _ & Hv' & Hhas' & Hlow' & E')
            | (base' & _ & _ & Hnone' & _)]]].
      * congruence.
      * rewrite Hb1 in Hb'. injection Hb' as <-. contradiction.
      * rewrite Hh1 in Hv'.
        destruct (decide (v' = (highestVersionOf t ns + 1)%N)) as [->|Hne]; [exact E'|].
        rewrite Hhas1 in Hhas' by exact Hne. rewrite Hnone in Hhas' by lia. discriminate.
      * rewrite Hh1 in Hnone'. rewrite Hnone' in Hnew by lia. discriminate.
  - unfold processClassValue. rewrite Hu. reflexivity.
Qed.

(** X4.  Asking again changes nothing: right after a call, a call with the
    same hint and a class string of the same canonical form returns the
    same name and leaves the tables as the first call left them. *)
Theorem resolve_repeat (t : Tables) (cv cv' : string) (hint : option string) :
  normalizeClassString cv' = normalizeClassString cv ->
  processClassValue (fst (processClassValue t cv hint)) cv' hint
  = processClassValue t cv hint.
Proof.
  intros E. rewrite (processClassValue_normal _ cv cv' hint E).
  apply processClassValue_again.
Qed.

Lemma resolve_repeat_witness :
  normalizeClassString "p-2   bg-red-500" = normalizeClassString "bg-red-500 p-2"
  /\ processClassValue
       (fst (processClassValue (runOps [Resolve "bg-blue-500 p-2" (Some "btn")])
               "bg-red-500 p-2" (Some "btn")))
       "p-2   bg-red-500" (Some "btn")
     = processClassValue (runOps [Resolve "bg-blue-500 p-2" (Some "btn")])
         "bg-red-500 p-2" (Some "btn").
Proof.
  split; [reflexivity|].
  apply (resolve_repeat _ "bg-red-500 p-2" "p-2   bg-red-500" (Some "btn")). reflexivity.
Defined.

(** What a call under a valid hint leaves in the tables. *)
Lemma resolve_valid_hint (t : Tables) (cv ns : string) :
  isValidCssIdentifier ns = true ->
  let t1 := resolveTables t cv (Some ns) in
  let n := resolveName t cv (Some ns) in
  setHas (namespaceToClasses t1 !! n) (normalizeClassString cv) = true
  /\ (n = ns \/ exists v, (1 <= v <= highestVersionOf t1 ns)%N /\ n = versionedName ns v)
  /\ is_Some (namespaceToClasses t1 !! ns)
  /\ (forall key, key <> n -> namespaceToClasses t1 !! key = namespaceToClasses t !! key)
  /\ (forall key, key <> ns -> namespaceVersions t1 !! key = namespaceVersions t !! key).
Proof.
  intros Hvalid.
  unfold resolveTables, resolveName. cbv zeta.
  destruct (processClassValue_cases t cv ns Hvalid)
    as [(Hnone & E) | [(base & Hb & Hin & E) | [(base & v & Hb & Hnin & Hv & Hhas & Hlow & E)
        | (base & Hb & Hnin & Hnone & E)]]]; rewrite E; cbn [fst snd resGeneratedClassName];
    cbn [namespaceToClasses namespaceVersions].
  - rewrite lookup_insert_eq. repeat split; eauto.
    + cbn. apply bool_decide_eq_true_2. set_solver.
    + intros key Hk. apply lookup_insert_ne. congruence.
    + intros key Hk. apply lookup_insert_ne. congruence.
  - rewrite Hb. repeat split; eauto. cbn. apply bool_decide_eq_true_2, Hin.
  - rewrite Hb. repeat split; eauto.
  - destruct (new_version_tables t ns (normalizeClassString cv) base Hb)
      as (Hh1 & Hb1 & Hhas1 & Hnew).
    cbn [namespaceToClasses namespaceVersions] in Hb1, Hnew.
    repeat split.
    + exact Hnew.
    + right. exists (highestVersionOf t ns + 1)%N. split; [|reflexivity].
      rewrite Hh1. lia.
    + rewrite Hb1. eauto.
    + intros key Hk. apply lookup_insert_ne. congruence.
    + intros key Hk. apply lookup_insert_ne. congruence.
Qed.

(** X5.  With a usable hint, the name returned is the hint or a version of
    it up to the counter; after the call the entry of that name holds the
    canonical form and the hint has a base entry; no other entry of the
    class table and no other counter has changed. *)
Theorem resolve_registers (t : Tables) (cv : string) (hint : option string) (ns : string) :
  usableNamespace hint = Some ns ->
  let t1 := resolveTables t cv hint in
  let n := resolveName t cv hint in
  setHas (namespaceToClasses t1 !! n) (normalizeClassString cv) = true
  /\ (n = ns \/ exists v, (1 <= v <= highestVersionOf t1 ns)%N /\ n = versionedName ns v)
  /\ is_Some (namespaceToClasses t1 !! ns)
  /\ (forall key, key <> n -> namespaceToClasses t1 !! key = namespaceToClasses t !! key)
  /\ (forall key, key <> ns -> namespaceVersions t1 !! key = namespaceVersions t !! key).
Proof.
  intros Hu. apply usableNamespace_Some in Hu as [-> Hvalid].
  exact (resolve_valid_hint t cv ns Hvalid).
Qed.

Lemma resolve_registers_witness :
  usableNamespace (Some "btn") = Some "btn"
  /\ setHas (namespaceToClasses
               (resolveTables (runOps [Resolve "p-1" (Some "btn")]) "p-2" (Some "btn"))
             !! resolveName (runOps [Resolve "p-1" (Some "btn")]) "p-2" (Some "btn"))
       (normalizeClassString "p-2") = true.
Proof.
  split; [reflexivity|].
  exact (proj1 (resolve_registers (runOps [Resolve "p-1" (Some "btn")]) "p-2"
                  (Some "btn") "btn" eq_refl)).
Defined.

Lemma singletons_empty : singletons emptyTables.
Proof. intros key s H. cbn in H. rewrite lookup_empty in H. discriminate. Qed.

Lemma resolve_singletons (t : Tables) (cv : string) (hint : option string) :
  singletons t -> singletons (resolveTables t cv hint).
Proof.
  intros Hs.
  destruct (resolveTables_cases t cv hint)
    as [-> | [(ns & _ & ->) | (ns & _ & ->)]]; [exact Hs| |];
    intros key s; cbn; intros [[_ <-]|[_ H]]%lookup_insert_Some; eauto.
Qed.

Lemma runOps_singletons (ops : list TableOp) :
  Forall isResolve ops -> singletons (runOps ops).
Proof.
  induction ops as [|op ops IH] using rev_ind; intros H.
  - apply singletons_empty.
  - apply Forall_app in H as [Hops Hop]. rewrite runOps_snoc.
    inversion Hop as [|? ? Hr _]; subst. destruct op as [cv hint|fms]; [|destruct Hr].
    apply resolve_singletons, IH, Hops.
Qed.

(** X6.  In tables filled by resolver calls alone, one hint never gives one
    name to two different sets: two calls in a row under the same usable
    hint return the same name exactly when the canonical forms are the
    same. *)
Theorem distinct_sets_distinct_names (ops : list TableOp) (cv1 cv2 ns : string) :
  Forall isResolve ops ->
  isValidCssIdentifier ns = true ->
  let t := runOps ops in
  let t1 := resolveTables t cv1 (Some ns) in
  resolveName t cv1 (Some ns) = resolveName t1 cv2 (Some ns)
  <-> normalizeClassString cv1 = normalizeClassString cv2.
Proof.
  intros Hops Hvalid t t1. split.
  - intros En.
    assert (Hs1 : singletons t1).
    { unfold t1, t. change (singletons (applyOp (runOps ops) (Resolve cv1 (Some ns)))).
      rewrite <- runOps_snoc.
      apply runOps_singletons, Forall_app. split; [exact Hops|repeat constructor]. }
    destruct (resolve_valid_hint t cv1 ns Hvalid) as (H1 & Hn1 & Hb1 & _).
    destruct (resolve_valid_hint t1 cv2 ns Hvalid) as (H2 & _).
    fold t1 in H1, Hn1, Hb1. rewrite En in H1, Hn1.
    set (n := resolveName t1 cv2 (Some ns)) in *.
    assert (Hsame : namespaceToClasses (resolveTables t1 cv2 (Some ns)) !! n
                    = namespaceToClasses t1 !! n).
    { destruct (processClassValue_cases t1 cv2 ns Hvalid)
        as [(Hnone & E) | [(base & Hb & Hin & E) | [(base & v & Hb & Hnin & Hv & Hhas & Hlow & E)
            | (base & Hb & Hnin & Hnone & E)]]];
        unfold resolveTables; try (rewrite E; reflexivity).
      - destruct Hb1 as [b Hb1]. congruence.
      - exfalso. unfold n, resolveName in Hn1. rewrite E in Hn1.
        cbn [snd resGeneratedClassName] in Hn1.
        destruct Hn1 as [Hn1|(v & Hv & Hn1)].
        + exact (versionedName_neq _ _ Hn1).
        + apply versionedName_inj in Hn1. lia. }
    rewrite Hsame in H2.
    destruct (namespaceToClasses t1 !! n) as [s|] eqn:Es; [|discriminate H1].
    destruct (Hs1 n s Es) as [c ->]. cbn in H1, H2.
    apply bool_decide_eq_true_1 in H1, H2. set_solver.
  - intros E. unfold resolveName, t1, resolveTables.
    rewrite (processClassValue_normal _ cv1 cv2 (Some ns)) by (symmetry; exact E).
    rewrite processClassValue_again. reflexivity.
Qed.

Lemma distinct_sets_distinct_names_witness :
  Forall isResolve [Resolve "p-1" (Some "btn")]
  /\ isValidCssIdentifier "btn" = true
  /\ (resolveName (runOps [Resolve "p-1" (Some "btn")]) "p-2 m-1" (Some "btn")
       = resolveName (resolveTables (runOps [Resolve "p-1" (Some "btn")]) "p-2 m-1" (Some "btn"))
           "m-1 p-2" (Some "btn")
       <-> normalizeClassString "p-2 m-1" = normalizeClassString "m-1 p-2").
Proof.
  assert (H : Forall isResolve [Resolve "p-1" (Some "btn")]) by (repeat constructor).
  split; [exact H|]. split; [reflexivity|].
  exact (distinct_sets_distinct_names [Resolve "p-1" (Some "btn")] "p-2 m-1" "m-1 p-2" "btn"
           H eq_refl).
Defined.

(** X7.  A version name can take over a hint of the same spelling.  When
    a call under the hint [ns] stores a new version under the name [k], the
    entry of [k] is replaced by the new set: a set that the hint [k] named
    [k] before the call is no longer named [k] after it. *)
Theorem version_name_shadows_hint (t : Tables) (cv cv' ns : string) :
  isValidCssIdentifier ns = true ->
  let k := resolveName t cv (Some ns) in
  let t1 := resolveTables t cv (Some ns) in
  k <> ns -> t1 <> t ->
  normalizeClassString cv' <> normalizeClassString cv ->
  resolveName t cv' (Some k) = k ->
  namespaceToClasses t1 !! k = Some {[normalizeClassString cv]}
  /\ resolveName t1 cv' (Some k) <> k.
Proof.
  intros Hvalid k t1 Hk Ht Hne Hbefore.
  assert (Hnew : k = versionedName ns (highestVersionOf t ns + 1)
                 /\ namespaceToClasses t1 !! k = Some {[normalizeClassString cv]}).
  { unfold k, t1, resolveName, resolveTables in *.
    destruct (processClassValue_cases t cv ns Hvalid)
      as [(Hnone & E) | [(base & Hb & Hin & E) | [(base & v & Hb & Hnin & Hv & Hhas & Hlow & E)
          | (base & Hb & Hnin & Hnone & E)]]]; rewrite E in *;
      cbn [fst snd resGeneratedClassName] in *; try congruence.
    split; [reflexivity|]. cbn. apply lookup_insert_eq. }
  destruct Hnew as [Ek Hentry]. split; [exact Hentry|].
  assert (Hvk : isValidCssIdentifier k = true).
  { rewrite Ek. apply versionedName_valid, Hvalid. }
  unfold resolveName.
  destruct (processClassValue_cases t1 cv' k Hvk)
    as [(Hnone & E) | [(base & Hb & Hin & E) | [(base & v & Hb & Hnin & Hv & Hhas & Hlow & E)
        | (base & Hb & Hnin & Hnone & E)]]]; rewrite E; cbn [snd resGeneratedClassName].
  - congruence.
  - rewrite Hentry in Hb. injection Hb as <-. exfalso. apply Hne. set_solver.
  - apply versionedName_neq.
  - apply versionedName_neq.
Qed.

Lemma version_name_shadows_hint_witness :
  isValidCssIdentifier "btn" = true
  /\ resolveName (runOps shadowOps) "p-2" (Some "btn") = "btn-1"
  /\ resolveName (runOps shadowOps) "p-9" (Some "btn-1") = "btn-1"
  /\ resolveName (resolveTables (runOps shadowOps) "p-2" (Some "btn")) "p-9" (Some "btn-1")
     <> "btn-1".
Proof.
  split; [reflexivity|]. split; [vm_compute; reflexivity|]. split; [vm_compute; reflexivity|].
  refine (proj2 (version_name_shadows_hint (runOps shadowOps) "p-2" "p-9" "btn"
                   eq_refl _ _ _ _)).
  - vm_compute. discriminate.
  - intros E. apply (f_equal (fun t => highestVersionOf t "btn")) in E.
    vm_compute in E. discriminate E.
  - vm_compute. discriminate.
  - vm_compute. reflexivity.
Defined.

(** ** The rebuild pass: the counters, exactly *)

Section OrderedMapLookup.
Context {K V : Type} `{EqDecision K}.

Lemma omGet_omSet_eq (k : K) (v : V) (m : list (K * V)) : omGet k (omSet k v m) = Some v.
Proof.
  induction m as [|[k' v'] m IH]; simpl.
  - destruct (decide (k = k)); [reflexivity|contradiction].
  - destruct (decide (k = k')) as [->|Hne]; simpl.
    + destruct (decide (k' = k')); [reflexivity|contradiction].
    + destruct (decide (k = k')); [contradiction|exact IH].
Qed.

Lemma omGet_omSet_ne (k k' : K) (v : V) (m : list (K * V)) :
  k' <> k -> omGet k' (omSet k v m) = omGet k' m.
Proof.
  intros Hne. induction m as [|[k0 v0] m IH]; simpl.
  - destruct (decide (k' = k)); [contradiction|reflexivity].
  - destruct (decide (k = k0)) as [->|Hne0]; simpl.
    + destruct (decide (k' = k0)); [contradiction|reflexivity].
    + destruct (decide (k' = k0)); [reflexivity|exact IH].
Qed.
End OrderedMapLookup.

Lemma addTo_old (old : option (gset string)) (x c : string) (s : gset string) :
  old = Some s -> c ∈ s -> c ∈ addTo old x.
Proof. intros -> Hc. unfold addTo. cbn. set_solver. Qed.

Lemma addTo_new (old : option (gset string)) (x : string) : x ∈ addTo old x.
Proof. unfold addTo. set_solver. Qed.

Lemma backed_snoc_base (l : list ClassMapping) (cm : ClassMapping) (ns c : string) :
  baseBacked (l ++ [cm]) ns c ->
  baseBacked l ns c
  \/ (usableNamespace (namespace cm) = Some ns /\ normalizedClasses cm = c
      /\ versionOfName ns (generatedClassName cm) = None).
Proof.
  intros (cm' & Hin & H). apply in_app_or in Hin as [Hin|[<- |[]]].
  - left. exists cm'. auto.
  - right. exact H.
Qed.

Lemma backed_snoc_version (l : list ClassMapping) (cm : ClassMapping) (ns : string) (v : N)
    (c : string) :
  versionBacked (l ++ [cm]) ns v c ->
  versionBacked l ns v c
  \/ (usableNamespace (namespace cm) = Some ns /\ normalizedClasses cm = c
      /\ versionOfName ns (generatedClassName cm) = Some v).
Proof.
  intros (cm' & Hin & H). apply in_app_or in Hin as [Hin|[<- |[]]].
  - left. exists cm'. auto.
  - right. exact H.
Qed.

Lemma collectMapping_collected (l : list ClassMapping) acc (cm : ClassMapping) :
  collected l acc -> collected (l ++ [cm]) (collectMapping acc cm).
Proof.
  intros [Hbase Hver]. destruct acc as [allNs allVer]. unfold collectMapping.
  cbn [fst snd] in *.
  destruct (usableNamespace (namespace cm)) as [ns0|] eqn:Hu.
  2:{ split.
      - intros ns c [H|(Hu' & _)]%backed_snoc_base; [auto|congruence].
      - intros ns v c [H|(Hu' & _)]%backed_snoc_version; [auto|congruence]. }
  destruct (versionOfName ns0 (generatedClassName cm)) as [v0|] eqn:Hv;
    unfold collected; cbn [fst snd].
  - split.
    + intros ns c [H|(Hu' & _ & Hv')]%backed_snoc_base; [auto|congruence].
    + intros ns v c H.
      destruct (decide (ns = ns0)) as [->|Hns].
      * rewrite omGet_omSet_eq.
        destruct (decide (v = v0)) as [->|Hvv].
        -- eexists _, _. split; [reflexivity|]. rewrite omGet_omSet_eq.
           split; [reflexivity|].
           apply backed_snoc_version in H as [H|(_ & <- & _)]; [|apply addTo_new].
           destruct (Hver _ _ _ H) as (vs & s & Hvs & Hs & Hc).
           rewrite Hvs. cbn. eapply addTo_old; eauto.
        -- apply backed_snoc_version in H as [H|(_ & _ & Hv')]; [|congruence].
           destruct (Hver _ _ _ H) as (vs & s & Hvs & Hs & Hc).
           eexists _, s. split; [reflexivity|].
           rewrite omGet_omSet_ne by exact Hvv. rewrite Hvs. cbn. auto.
      * rewrite omGet_omSet_ne by exact Hns.
        apply backed_snoc_version in H as [H|(Hu' & _)]; [auto|congruence].
  - split.
    + intros ns c H.
      destruct (decide (ns = ns0)) as [->|Hns].
      * rewrite omGet_omSet_eq. eexists. split; [reflexivity|].
        apply backed_snoc_base in H as [H|(_ & <- & _)]; [|apply addTo_new].
        destruct (Hbase _ _ H) as (s & Hs & Hc). eapply addTo_old; eauto.
      * rewrite omGet_omSet_ne by exact Hns.
        apply backed_snoc_base in H as [H|(Hu' & _)]; [auto|congruence].
    + intros ns v c [H|(Hu' & _ & Hv')]%backed_snoc_version; [auto|congruence].
Qed.

Lemma collect_collected (l : list ClassMapping) :
  collected l (List.fold_left collectMapping l ([], [])).
Proof.
  induction l as [|cm l IH] using rev_ind.
  - split.
    + intros ns c (cm & [] & _).
    + intros ns v c (cm & [] & _).
  - rewrite fold_left_app. simpl. apply collectMapping_collected, IH.
Qed.

Lemma fold_max_ge (l : list N) (a : N) :
  (a <= List.fold_left N.max l a)%N
  /\ forall x, In x l -> (x <= List.fold_left N.max l a)%N.
Proof.
  revert a. induction l as [|y l IH]; intros a; simpl; [split; [lia|tauto]|].
  destruct (IH (N.max a y)) as [Ha Hl]. split; [lia|].
  intros x [<- |Hx]; [lia|auto].
Qed.

Lemma maxVersionOf_ge (vs : list (N * gset string)) (v : N) (s : gset string) :
  In (v, s) vs -> (v <= maxVersionOf vs)%N.
Proof.
  intros Hin. unfold maxVersionOf. apply fold_max_ge.
  apply in_map_iff. exists (v, s). auto.
Qed.

Lemma rebuild_versions_lookup (allVer : list (string * list (N * gset string)))
    (l : list (string * gset string)) (t0 : Tables) (ns : string) :
  namespaceVersions (List.fold_left (rebuildNamespace allVer) l t0) !! ns
  = match omGet ns l with
    | Some _ => Some (maxVersionOf (default [] (omGet ns allVer)))
    | None => namespaceVersions t0 !! ns
    end.
Proof.
  revert t0. induction l as [|[ns0 s0] l IH]; intros t0; [reflexivity|].
  cbn [List.fold_left omGet]. rewrite IH. cbn.
  destruct (decide (ns = ns0)) as [->|Hne].
  - rewrite lookup_insert_eq. destruct (omGet ns0 l); reflexivity.
  - rewrite lookup_insert_ne by congruence. reflexivity.
Qed.

(** X8.  After a rebuild, a hint has a counter exactly when some live
    mapping carries its bare name, and the counter is the largest version
    of the hint that a live mapping carries, or 0 when none does. *)
Theorem rebuild_counters_exact (fms : FileMappings) (ns : string) :
  let live := allClassMappings fms in
  let t := cleanupNamespaceVersions fms in
  ((exists c, baseBacked live ns c) <-> is_Some (namespaceVersions t !! ns))
  /\ forall h, namespaceVersions t !! ns = Some h ->
       (forall v c, versionBacked live ns v c -> (v <= h)%N)
       /\ (h <> 0%N -> exists c, versionBacked live ns h c).
Proof.
  intros live t.
  destruct (cleanup_backed fms) as [_ Hback]. fold live t in Hback.
  assert (Hlook : namespaceVersions t !! ns
                  = match omGet ns (fst (collectNamespaces fms)) with
                    | Some _ => Some (maxVersionOf
                                        (default [] (omGet ns (snd (collectNamespaces fms)))))
                    | None => None
                    end).
  { unfold t, cleanupNamespaceVersions.
    destruct (collectNamespaces fms) as [allNs allVer]. cbn [fst snd].
    rewrite rebuild_versions_lookup. destruct (omGet ns allNs); [reflexivity|].
    cbn. apply lookup_empty. }
  pose proof (collect_collected live) as [Hcb Hcv].
  unfold collectNamespaces in Hlook. fold live in Hlook.
  split; [split|].
  - intros [c Hc]. destruct (Hcb ns c Hc) as (s & Hs & _).
    rewrite Hlook, Hs. eauto.
  - intros [h Hh]. destruct (Hback ns h Hh) as [Hb _]. exact Hb.
  - intros h Hh. split; [|apply (Hback ns h Hh)].
    intros v c Hv. destruct (Hcv ns v c Hv) as (vs & s & Hvs & Hs & _).
    rewrite Hlook in Hh. destruct (omGet ns (fst _)); [|discriminate].
    injection Hh as <-. rewrite Hvs. cbn. eapply maxVersionOf_ge, omGet_In, Hs.
Qed.

(** X9.  A rebuild forgets the versions of a hint whose bare name no live
    mapping carries: when no live mapping backs an entry named [ns], the
    next call under the hint [ns] finds no entry and answers with the bare
    name, whatever versions of [ns] live mappings still carry. *)
Theorem rebuild_forgets_versions (fms : FileMappings) (cv ns : string) :
  isValidCssIdentifier ns = true ->
  (forall c, ~ entryBacked (allClassMappings fms) ns c) ->
  let t := cleanupNamespaceVersions fms in
  namespaceToClasses t !! ns = None
  /\ namespaceVersions t !! ns = None
  /\ resolveName t cv (Some ns) = ns.
Proof.
  intros Hvalid Hno t.
  destruct (cleanup_backed fms) as [Hcls Hver]. fold t in Hcls, Hver.
  assert (Hnone : namespaceToClasses t !! ns = None).
  { destruct (namespaceToClasses t !! ns) as [s|] eqn:E; [|reflexivity].
    destruct (Hcls ns s E) as [[c Hc] Hb]. destruct (Hno c (Hb c Hc)). }
  split; [exact Hnone|]. split.
  - destruct (namespaceVersions t !! ns) as [h|] eqn:E; [|reflexivity].
    destruct (Hver ns h E) as [[c Hc] _]. destruct (Hno c). left. exact Hc.
  - unfold resolveName, processClassValue.
    rewrite (usableNamespace_valid _ Hvalid), Hnone. reflexivity.
Qed.

Lemma rebuild_forgets_versions_witness :
  let fms := fileMappings (unlink (OptimizeBool true) pluginABC "src/A.svelte") in
  List.map generatedClassName (allClassMappings fms) = ["btn-1"; "btn-2"]
  /\ resolveName (cleanupNamespaceVersions fms) "p-2" (Some "btn") = "btn".
Proof.
  cbv zeta. split; [vm_compute; reflexivity|].
  refine (proj2 (proj2 (rebuild_forgets_versions _ "p-2" "btn" eq_refl _))).
  intros c [(cm & Hin & Hu & _ & Hv)|(ns & v & Hk & cm & Hin & Hu & _ & Hv)].
  - vm_compute in Hin. destruct Hin as [<- |[<- |[]]]; vm_compute in Hv; discriminate Hv.
  - vm_compute in Hin. destruct Hin as [<- |[<- |[]]];
      vm_compute in Hu; injection Hu as <-;
      apply (f_equal String.length) in Hk; unfold versionedName in Hk;
      rewrite !str_length_app in Hk; simpl in Hk; lia.
Defined.

(** ** The scanner: what it records *)

Lemma processClassValue_result (t : Tables) (cv : string) (hint : option string) :
  let r := snd (processClassValue t cv hint) in
  resNormalizedClasses r = normalizeClassString cv
  /\ isValidCssIdentifier (resGeneratedClassName r) = true
  /\ match usableNamespace hint with
     | None => resGeneratedClassName r = hashName (normalizeClassString cv)
                /\ fst (processClassValue t cv hint) = t
     | Some ns =>
         resGeneratedClassName r = ns
         \/ exists v, (1 <= v)%N /\ resGeneratedClassName r = versionedName ns v
     end.
Proof.
  cbv zeta. destruct (usableNamespace hint) as [ns|] eqn:Hu.
  - apply usableNamespace_Some in Hu as [-> Hvalid].
    destruct (processClassValue_cases t cv ns Hvalid)
      as [(Hnone & E) | [(base & Hb & Hin & E) | [(base & v & Hb & Hnin & Hv & Hhas & Hlow & E)
          | (base & Hb & Hnin & Hnone & E)]]]; rewrite E; cbn;
      repeat split; auto using versionedName_valid.
    + right. exists v. split; [lia|reflexivity].
    + right. eexists. split; [|reflexivity]. lia.
  - unfold processClassValue. rewrite Hu. cbn. repeat split. apply hashName_valid.
Qed.

Lemma resolveInOrder_In (id : string) (namespaces : list NamespaceAttr)
    (occs : list (nat * Scan.Attr)) :
  forall (t : Tables) (a : Scan.Attr) (m : ClassMapping),
    In (a, m) (snd (resolveInOrder id namespaces t occs)) ->
    exists i t',
      In (i, a) occs
      /\ m = mkClassMapping (Scan.classValue a)
               (resNormalizedClasses
                  (snd (processClassValue t' (Scan.classValue a)
                          (findNamespaceForPosition namespaces i))))
               (resGeneratedClassName
                  (snd (processClassValue t' (Scan.classValue a)
                          (findNamespaceForPosition namespaces i))))
               (findNamespaceForPosition namespaces i) id.
Proof.
  induction occs as [|[i a0] occs IH]; intros t a m; simpl; [intros []|].
  destruct (processClassValue t (Scan.classValue a0) (findNamespaceForPosition namespaces i))
    as [t1 res] eqn:E.
  destruct (resolveInOrder id namespaces t1 occs) as [t2 ms] eqn:E2.
  cbn [snd]. intros [H|H].
  - injection H as <- <-. exists i, t. split; [left; reflexivity|]. rewrite E. reflexivity.
  - specialize (IH t1 a m). rewrite E2 in IH. destruct (IH H) as (i' & t' & Hin & Hm).
    exists i', t'. split; [right; exact Hin|exact Hm].
Qed.

Lemma resolved_wellFormed (id : string) (namespaces : list NamespaceAttr) (t : Tables)
    (skipBraces : bool) (occs : list (nat * Scan.Attr)) (m : ClassMapping) :
  In m (List.map snd
          (snd (resolveInOrder id namespaces t (List.filter (keptOccurrence skipBraces) occs)))) ->
  wellFormedMapping id m.
Proof.
  intros ([a m'] & <- & Hin)%in_map_iff. cbn [snd].
  apply resolveInOrder_In in Hin as (i & t' & [Hocc Hkept]%filter_In & ->).
  destruct (processClassValue_result t' (Scan.classValue a)
              (findNamespaceForPosition namespaces i)) as (Hn & Hv & Hname).
  unfold wellFormedMapping. cbn.
  split; [reflexivity|]. split; [exact Hn|]. split.
  - unfold keptOccurrence in Hkept. cbn [snd] in Hkept.
    apply negb_true_iff, orb_false_iff in Hkept as [Hb _]. exact Hb.
  - split; [exact Hv|].
    destruct (usableNamespace (findNamespaceForPosition namespaces i));
      [exact Hname|]. rewrite Hn. apply Hname.
Qed.

Lemma processFile_two_passes (t : Tables) (code id : string) :
  let namespaces := findNamespaces code in
  let p1 := rewritePass Scan.matchClassAttr true namespaces code id t [] false in
  passChanged p1 = true ->
  let p2 := rewritePass Scan.matchJsxClassAttr false namespaces (resultCode p1) id
              (passTables p1) (passMappings p1) true in
  processFile t code id
  = (passTables p2,
     mkProcessed (Scan.removeAll Scan.matchNamespaceRemoval (resultCode p2))
       true (passMappings p2)).
Proof. intros namespaces p1 Hch p2. unfold processFile. fold namespaces p1. rewrite Hch. reflexivity. Qed.

Lemma processFile_mappings_from (t : Tables) (code id : string) (m : ClassMapping) :
  In m (fileClassMappings (snd (processFile t code id))) -> wellFormedMapping id m.
Proof.
  set (namespaces := findNamespaces code).
  set (p1 := rewritePass Scan.matchClassAttr true namespaces code id t [] false).
  destruct (rewritePass_spec Scan.matchClassAttr true namespaces code id t [] false
              matchClassAttr_sound) as (_ & Hm1 & _). fold p1 in Hm1. cbn [app] in Hm1.
  destruct (passChanged p1) eqn:Hch.
  - rewrite (processFile_two_passes t code id Hch). fold namespaces p1. cbn [snd fileClassMappings].
    destruct (rewritePass_spec Scan.matchJsxClassAttr false namespaces (resultCode p1) id
                (passTables p1) (passMappings p1) true matchJsxClassAttr_sound)
      as (_ & Hm2 & _).
    rewrite Hm2, Hm1. intros [H|H]%in_app_or; eapply resolved_wellFormed, H.
  - unfold processFile. fold namespaces p1. rewrite Hch. cbn [snd fileClassMappings].
    rewrite Hm1. apply resolved_wellFormed.
Qed.

(** X10.  What a scan records is well formed: every class mapping names the
    scanned file, keeps a class text that is not blank together with its
    canonical form, and carries a valid identifier that is the hash name
    when the hint is absent or unusable, and the hint or a version of it
    otherwise.  A scan reports a change exactly when it records a mapping. *)
Theorem processFile_mappings (t : Tables) (code id : string) :
  let r := snd (processFile t code id) in
  (changed r = true <-> fileClassMappings r <> [])
  /\ forall m, In m (fileClassMappings r) -> wellFormedMapping id m.
Proof.
  cbv zeta. split; [|intros m; apply processFile_mappings_from].
  destruct (processFile_passes t code id) as (gaps & _ & _ & H). cbv zeta in H.
  destruct (List.filter (keptOccurrence true) (Scan.execAll Scan.matchClassAttr code 0 0))
    as [|[i a] kept].
  - rewrite H. cbn. split; [discriminate|congruence].
  - destruct H as [H [later Hl]]. rewrite H. cbn [snd changed fileClassMappings].
    split; [intros _|reflexivity]. rewrite Hl.
    cbn [resolveInOrder].
    destruct (processClassValue t (Scan.classValue a) _) as [t1 res].
    destruct (resolveInOrder id (findNamespaces code) t1 kept) as [t2 ms].
    discriminate.
Qed.

(** ** The scanner: sources without hints *)

Lemma splitAtFirst_spec (pattern s before after : string) :
  Str.splitAtFirst pattern s = Some (before, after) -> s = before ++ pattern ++ after.
Proof.
  revert before. induction s as [|c s IH]; intros before; cbn [Str.splitAtFirst].
  - destruct (Js.stripPrefix pattern EmptyString) as [r|] eqn:E; [|discriminate].
    intros [= <- <-]. apply stripPrefix_app in E. exact E.
  - destruct (Js.stripPrefix pattern (String c s)) as [r|] eqn:E.
    + intros [= <- <-]. apply stripPrefix_app in E. exact E.
    + destruct (Str.splitAtFirst pattern s) as [[b a]|]; [|discriminate].
      intros [= <- <-]. rewrite (IH b eq_refl). reflexivity.
Qed.

Lemma includes_app (pattern before after : string) :
  Str.includes pattern (before ++ pattern ++ after) = true.
Proof.
  unfold Str.includes. induction before as [|c b IH].
  - change (EmptyString ++ pattern ++ after) with (pattern ++ after).
    destruct (pattern ++ after) eqn:E; cbn [Str.splitAtFirst];
      rewrite <- E, stripPrefix_same; reflexivity.
  - change (String c b ++ pattern ++ after) with (String c (b ++ pattern ++ after)).
    cbn [Str.splitAtFirst].
    destruct (Js.stripPrefix pattern (String c (b ++ pattern ++ after))); [reflexivity|].
    destruct (Str.splitAtFirst pattern (b ++ pattern ++ after)) as [[x y]|];
      [reflexivity|discriminate IH].
Qed.

Lemma matchNamespaceAttr_prefix (s : string) (a : Scan.Attr) :
  Scan.matchNamespaceAttr s = Some a -> exists eq, Scan.prefix a = "tw-namespace" ++ eq.
Proof.
  unfold Scan.matchNamespaceAttr.
  destruct (Js.stripPrefix "tw-namespace" s) as [s1|]; [|discriminate].
  destruct (Scan.matchEqQuote false s1) as [[eq s2]|]; [|discriminate].
  destruct (Scan.span Scan.notQuote s2) as [v s3].
  destruct s3 as [|q s4]; [discriminate|]. intros [= <-]. exists eq. reflexivity.
Qed.

Lemma no_hint_no_namespaces (code : string) :
  Str.includes "tw-namespace" code = false -> findNamespaces code = [].
Proof.
  intros Hno. unfold findNamespaces.
  destruct (Scan.execAll Scan.matchNamespaceAttr code 0 0) as [|[i a] occs] eqn:E;
    [reflexivity|exfalso].
  pose proof (execAll_located_0 Scan.matchNamespaceAttr code matchNamespaceAttr_sound) as Hl.
  rewrite E in Hl. inversion Hl as [|? ? ? ? _ [_ [rest Hocc]] _]; subst.
  assert (Hin : In (i, a) (Scan.execAll Scan.matchNamespaceAttr code 0 0))
    by (rewrite E; left; reflexivity).
  apply execAll_In in Hin as [s' Hm]. apply matchNamespaceAttr_prefix in Hm as [eq Hp].
  rewrite <- (take_substringFrom i code), Hocc in Hno.
  unfold Scan.fullMatch in Hno. rewrite Hp, !str_app_assoc in Hno.
  rewrite includes_app in Hno. discriminate Hno.
Qed.

Lemma resolveInOrder_no_hints (id : string) (occs : list (nat * Scan.Attr)) (t : Tables) :
  fst (resolveInOrder id [] t occs) = t
  /\ forall m, In m (List.map snd (snd (resolveInOrder id [] t occs))) ->
       namespace m = None
       /\ generatedClassName m = hashName (normalizeClassString (originalClasses m)).
Proof.
  induction occs as [|[i a] occs [IHt IHm]]; [split; [reflexivity|intros m []]|].
  cbn [resolveInOrder]. change (findNamespaceForPosition [] i) with (@None string).
  change (processClassValue t (Scan.classValue a) None)
    with (t, mkResolution (normalizeClassString (Scan.classValue a))
               (hashName (normalizeClassString (Scan.classValue a)))).
  cbv beta iota.
  destruct (resolveInOrder id [] t occs) as [t2 ms]. cbn [fst snd List.map] in *.
  split; [exact IHt|]. intros m [<- |Hm]; [split; reflexivity|apply IHm, Hm].
Qed.

(** X11.  A source in which the text tw-namespace does not occur leaves
    the namespace tables as they are, and every class mapping of its scan
    has no hint and the hash name of its canonical form. *)
Theorem scan_without_hints (t : Tables) (code id : string) :
  Str.includes "tw-namespace" code = false ->
  fst (processFile t code id) = t
  /\ forall m, In m (fileClassMappings (snd (processFile t code id))) ->
       namespace m = None
       /\ generatedClassName m = hashName (normalizeClassString (originalClasses m)).
Proof.
  intros Hno. apply no_hint_no_namespaces in Hno.
  destruct (rewritePass_spec Scan.matchClassAttr true (findNamespaces code) code id t []
              false matchClassAttr_sound) as (Ht1 & Hm1 & _).
  set (p1 := rewritePass Scan.matchClassAttr true (findNamespaces code) code id t [] false)
    in *.
  destruct (rewritePass_spec Scan.matchJsxClassAttr false (findNamespaces code)
              (resultCode p1) id (passTables p1) (passMappings p1) true
              matchJsxClassAttr_sound) as (Ht2 & Hm2 & _).
  rewrite Hno in Ht1, Hm1, Ht2, Hm2. cbn [app] in Hm1.
  destruct (resolveInOrder_no_hints id
              (List.filter (keptOccurrence true) (Scan.execAll Scan.matchClassAttr code 0 0)) t)
    as [E1 M1].
  destruct (resolveInOrder_no_hints id
              (List.filter (keptOccurrence false)
                 (Scan.execAll Scan.matchJsxClassAttr (resultCode p1) 0 0)) (passTables p1))
    as [E2 M2].
  rewrite E1 in Ht1. rewrite E2 in Ht2.
  destruct (passChanged p1) eqn:Hch.
  - rewrite (processFile_two_passes t code id Hch). fold p1. rewrite Hno.
    cbn [fst snd fileClassMappings]. split; [rewrite Ht2; exact Ht1|].
    rewrite Hm2, Hm1. intros m [H|H]%in_app_or; auto.
  - unfold processFile. fold p1. rewrite Hch. cbn [fst snd fileClassMappings].
    split; [exact Ht1|]. rewrite Hm1. exact M1.
Qed.

Lemma scan_without_hints_witness :
  Str.includes "tw-namespace" "<div class='p-2 m-1'>" = false
  /\ fst (processFile (runOps [Resolve "p-1" (Some "btn")]) "<div class='p-2 m-1'>" "App.svelte")
     = runOps [Resolve "p-1" (Some "btn")].
Proof.
  split; [reflexivity|].
  exact (proj1 (scan_without_hints _ "<div class='p-2 m-1'>" "App.svelte" eq_refl)).
Defined.

(** ** The scanner: no match is missed *)

Lemma execAll_complete_at (matchAt : string -> option Scan.Attr) (a : Scan.Attr) :
  forall (s : string) (pos skip k : nat),
    matchAt (Scan.substringFrom (skip + k) s) = Some a ->
    (skip + k < String.length s)%nat ->
    In ((pos + skip + k)%nat, a) (Scan.execAll matchAt s pos skip)
    \/ exists j b, In (j, b) (Scan.execAll matchAt s pos skip)
                   /\ (j < pos + skip + k < j + String.length (Scan.fullMatch b))%nat.
Proof.
  induction s as [|c s IH]; intros pos skip k Hm Hlen; [simpl in Hlen; lia|].
  cbn [Scan.execAll]. destruct skip as [|sk].
  - destruct k as [|k'].
    + cbn in Hm. rewrite Hm. left. left. f_equal. lia.
    + cbn [plus Scan.substringFrom] in Hm. simpl in Hlen.
      destruct (matchAt (String c s)) as [b|] eqn:Eb.
      * destruct (Nat.lt_ge_cases k' (String.length (Scan.fullMatch b) - 1)) as [Hin|Hout].
        -- right. exists pos, b. split; [left; reflexivity|lia].
        -- destruct (IH (S pos) (String.length (Scan.fullMatch b) - 1)
                       (k' - (String.length (Scan.fullMatch b) - 1))%nat) as [H|(j & b' & H & Hj)].
           ++ replace (String.length (Scan.fullMatch b) - 1
                       + (k' - (String.length (Scan.fullMatch b) - 1)))%nat with k' by lia.
              exact Hm.
           ++ lia.
           ++ left. right.
              replace (pos + 0 + S k')%nat
                with (S pos + (String.length (Scan.fullMatch b) - 1)
                      + (k' - (String.length (Scan.fullMatch b) - 1)))%nat by lia.
              exact H.
           ++ right. exists j, b'. split; [right; exact H|lia].
      * destruct (IH (S pos) 0%nat k') as [H|(j & b' & H & Hj)]; [exact Hm|lia| |].
        -- left. replace (pos + 0 + S k')%nat with (S pos + 0 + k')%nat by lia. exact H.
        -- right. exists j, b'. split; [exact H|lia].
  - cbn [plus Scan.substringFrom] in Hm. simpl in Hlen.
    destruct (IH (S pos) sk k) as [H|(j & b' & H & Hj)]; [exact Hm|lia| |].
    + left. replace (pos + S sk + k)%nat with (S pos + sk + k)%nat by lia. exact H.
    + right. exists j, b'. split; [exact H|lia].
Qed.

(** X12.  The loop over the matches of a pattern misses nothing: wherever
    the pattern matches in the text, that match is among those the loop
    visits, unless it starts inside a match visited before it. *)
Theorem execAll_complete (matchAt : string -> option Scan.Attr) (text : string)
    (i : nat) (a : Scan.Attr) :
  (i < String.length text)%nat ->
  matchAt (Scan.substringFrom i text) = Some a ->
  In (i, a) (Scan.execAll matchAt text 0 0)
  \/ exists j b, In (j, b) (Scan.execAll matchAt text 0 0)
                 /\ (j < i < j + String.length (Scan.fullMatch b))%nat.
Proof.
  intros Hlen Hm. exact (execAll_complete_at matchAt a text 0 0 i Hm Hlen).
Qed.

Lemma execAll_complete_witness :
  (14 < String.length "<a class='x'> class='p-2'")%nat
  /\ (In (13%nat, Scan.mkAttr " class='" "p-2" "'")
        (Scan.execAll Scan.matchClassAttr "<a class='x'> class='p-2'" 0 0)
      \/ exists j b, In (j, b) (Scan.execAll Scan.matchClassAttr "<a class='x'> class='p-2'" 0 0)
                     /\ (j < 13 < j + String.length (Scan.fullMatch b))%nat).
Proof.
  split; [simpl; lia|].
  apply (execAll_complete Scan.matchClassAttr "<a class='x'> class='p-2'" 13).
  - simpl. lia.
  - reflexivity.
Defined.

(** ** The scanner: the className pass *)

(** X13.  When the first pass has rewritten something, the className
    attributes are looked for in its output.  Those with a class text that
    is not blank, an opening brace in it or not, are resolved in order,
    after the mappings of the first pass, each with the hint that the
    source has below the offset of the attribute in the output of the first
    pass; the class text of each is replaced by its name and the hint
    attributes are removed from the result. *)
Theorem scanner_jsx_pass (t : Tables) (code id : string) :
  let namespaces := findNamespaces code in
  let p1 := rewritePass Scan.matchClassAttr true namespaces code id t [] false in
  let text1 := resultCode p1 in
  let occurrences := Scan.execAll Scan.matchJsxClassAttr text1 0 0 in
  let kept := List.filter (fun o => negb (Js.isBlank (Scan.classValue (snd o)))) occurrences in
  let resolved := resolveInOrder id namespaces (passTables p1) kept in
  passChanged p1 = true ->
  located text1 0 occurrences
  /\ exists gaps,
       List.length gaps = S (List.length kept)
       /\ text1 = interleave gaps (List.map (fun o => Scan.fullMatch (snd o)) kept)
       /\ processFile t code id
          = (fst resolved,
             mkProcessed
               (Scan.removeAll Scan.matchNamespaceRemoval
                  (interleave gaps (List.map rewrittenText (snd resolved))))
               true
               (passMappings p1 ++ List.map snd (snd resolved))%list).
Proof.
  intros namespaces p1 text1 occurrences kept resolved Hch.
  split; [apply execAll_located_0, matchJsxClassAttr_sound|].
  destruct (rewritePass_spec Scan.matchJsxClassAttr false namespaces text1 id
              (passTables p1) (passMappings p1) true matchJsxClassAttr_sound)
    as (Ht & Hm & _ & gaps & Hlen & Hsrc & Hout).
  assert (Hk : List.filter (keptOccurrence false) occurrences = kept).
  { unfold kept. apply filter_ext. intros o. unfold keptOccurrence.
    cbn [andb]. rewrite orb_false_r. reflexivity. }
  fold occurrences in Ht, Hm, Hlen, Hsrc, Hout. rewrite Hk in Ht, Hm, Hlen, Hsrc, Hout.
  fold resolved in Ht, Hm, Hout.
  exists gaps. split; [exact Hlen|]. split; [exact Hsrc|].
  rewrite (processFile_two_passes t code id Hch). fold namespaces p1 text1.
  rewrite Ht, Hm, Hout. reflexivity.
Qed.

Lemma scanner_jsx_pass_witness :
  passChanged (rewritePass Scan.matchClassAttr true
                 (findNamespaces "<a class='x' className={'p-2 {m}'}>")
                 "<a class='x' className={'p-2 {m}'}>" "App.jsx" emptyTables [] false) = true
  /\ located
       (resultCode (rewritePass Scan.matchClassAttr true
                      (findNamespaces "<a class='x' className={'p-2 {m}'}>")
                      "<a class='x' className={'p-2 {m}'}>" "App.jsx" emptyTables [] false))
       0
       (Scan.execAll Scan.matchJsxClassAttr
          (resultCode (rewritePass Scan.matchClassAttr true
                         (findNamespaces "<a class='x' className={'p-2 {m}'}>")
                         "<a class='x' className={'p-2 {m}'}>" "App.jsx" emptyTables [] false))
          0 0).
Proof.
  assert (H : passChanged (rewritePass Scan.matchClassAttr true
                 (findNamespaces "<a class='x' className={'p-2 {m}'}>")
                 "<a class='x' className={'p-2 {m}'}>" "App.jsx" emptyTables [] false) = true)
    by (vm_compute; reflexivity).
  split; [exact H|].
  exact (proj1 (scanner_jsx_pass emptyTables "<a class='x' className={'p-2 {m}'}>" "App.jsx" H)).
Defined.

(** ** The scanner: its output is input again *)







(** ** The scanner: the tables only grow *)

Lemma resolve_keeps (t : Tables) (cv : string) (hint : option string) (key : string) :
  (is_Some (namespaceToClasses t !! key) ->
   is_Some (namespaceToClasses (resolveTables t cv hint) !! key))
  /\ (is_Some (namespaceVersions t !! key) ->
      is_Some (namespaceVersions (resolveTables t cv hint) !! key)).
Proof.
  destruct (resolveTables_cases t cv hint)
    as [-> | [(ns & _ & ->) | (ns & _ & ->)]]; [auto| |];
    cbn [namespaceToClasses namespaceVersions];
    split; intros H; apply lookup_insert_is_Some'; right; exact H.
Qed.

Lemma resolveInOrder_keeps (id : string) (namespaces : list NamespaceAttr)
    (occs : list (nat * Scan.Attr)) (key : string) :
  forall t,
    (is_Some (namespaceToClasses t !! key) ->
     is_Some (namespaceToClasses (fst (resolveInOrder id namespaces t occs)) !! key))
    /\ (is_Some (namespaceVersions t !! key) ->
        is_Some (namespaceVersions (fst (resolveInOrder id namespaces t occs)) !! key)).
Proof.
  induction occs as [|[i a] occs IH]; intros t; [cbn; auto|].
  cbn [resolveInOrder].
  pose proof (resolve_keeps t (Scan.classValue a) (findNamespaceForPosition namespaces i) key)
    as [Hc Hv].
  unfold resolveTables in Hc, Hv.
  destruct (processClassValue t (Scan.classValue a) (findNamespaceForPosition namespaces i))
    as [t1 res].
  specialize (IH t1). destruct (resolveInOrder id namespaces t1 occs) as [t2 ms].
  cbn [fst] in *. split; intros H; [apply IH, Hc, H|apply IH, Hv, H].
Qed.

(** X27.  A scan never takes an entry out of the namespace tables: a name
    that has a set of classes before the scan has one after it, and a hint
    that has a counter keeps one. *)
Theorem scan_keeps_entries (t : Tables) (code id key : string) :
  (is_Some (namespaceToClasses t !! key) ->
   is_Some (namespaceToClasses (fst (processFile t code id)) !! key))
  /\ (is_Some (namespaceVersions t !! key) ->
      is_Some (namespaceVersions (fst (processFile t code id)) !! key)).
Proof.
  destruct (rewritePass_spec Scan.matchClassAttr true (findNamespaces code) code id t []
              false matchClassAttr_sound) as (Ht1 & _).
  set (p1 := rewritePass Scan.matchClassAttr true (findNamespaces code) code id t [] false)
    in *.
  destruct (rewritePass_spec Scan.matchJsxClassAttr false (findNamespaces code)
              (resultCode p1) id (passTables p1) (passMappings p1) true
              matchJsxClassAttr_sound) as (Ht2 & _).
  pose proof (resolveInOrder_keeps id (findNamespaces code)
                (List.filter (keptOccurrence true) (Scan.execAll Scan.matchClassAttr code 0 0))
                key t) as K1.
  rewrite <- Ht1 in K1.
  pose proof (resolveInOrder_keeps id (findNamespaces code)
                (List.filter (keptOccurrence false)
                   (Scan.execAll Scan.matchJsxClassAttr (resultCode p1) 0 0))
                key (passTables p1)) as K2.
  rewrite <- Ht2 in K2.
  destruct (passChanged p1) eqn:Hch.
  - rewrite (processFile_two_passes t code id Hch). fold p1. cbn [fst].
    split; intros H; [apply K2, K1, H|apply K2, K1, H].
  - unfold processFile. fold p1. rewrite Hch. cbn [fst]. exact K1.
Qed.

(** ** The standard stylesheet: the first mapping of a name wins *)

Lemma standardRules_firstByName (cms : list ClassMapping) :
  forall rules seen,
    fst (List.fold_left standardRulesStep cms (rules, seen))
    = (rules ++ List.map ruleOfMapping (firstByName seen cms))%list.
Proof.
  induction cms as [|cm cms IH]; intros rules seen; cbn [List.fold_left firstByName].
  - cbn. rewrite List.app_nil_r. reflexivity.
  - unfold standardRulesStep at 2. case_bool_decide.
    + apply IH.
    + rewrite IH, <- List.app_assoc. reflexivity.
Qed.

Lemma firstByName_In (cms : list ClassMapping) :
  forall seen cm,
    In cm (firstByName seen cms) ->
    (generatedClassName cm ∉ seen)
    /\ exists l1 l2, cms = (l1 ++ cm :: l2)%list
         /\ forall cm', In cm' l1 -> generatedClassName cm' <> generatedClassName cm.
Proof.
  induction cms as [|cm0 cms IH]; intros seen cm; cbn [firstByName]; [intros []|].
  case_bool_decide as Hseen.
  - intros Hin. destruct (IH seen cm Hin) as (Hn & l1 & l2 & E & Hl1).
    split; [exact Hn|]. exists (cm0 :: l1), l2. split; [rewrite E; reflexivity|].
    intros cm' [E'|Hin']; [subst cm'; congruence|auto].
  - intros [<- |Hin].
    + split; [exact Hseen|]. exists [], cms. split; [reflexivity|intros cm' []].
    + destruct (IH _ cm Hin) as (Hn & l1 & l2 & E & Hl1).
      split; [intros Hs; apply Hn, elem_of_union; left; exact Hs|].
      exists (cm0 :: l1), l2. split; [rewrite E; reflexivity|].
      intros cm' [E'|Hin']; [subst cm'|auto].
      intros En. apply Hn, elem_of_union. right. apply elem_of_singleton. congruence.
Qed.

Lemma firstByName_NoDup (cms : list ClassMapping) :
  forall seen, List.NoDup (List.map generatedClassName (firstByName seen cms)).
Proof.
  induction cms as [|cm cms IH]; intros seen; cbn [firstByName]; [constructor|].
  case_bool_decide; [apply IH|]. cbn [List.map]. constructor; [|apply IH].
  intros (cm' & Hn & Hin)%in_map_iff. apply firstByName_In in Hin as [Hnot _].
  set_solver.
Qed.

Lemma firstByName_names (cms : list ClassMapping) :
  forall seen n,
    In n (List.map generatedClassName cms) ->
    n ∈ seen \/ In n (List.map generatedClassName (firstByName seen cms)).
Proof.
  induction cms as [|cm cms IH]; intros seen n; cbn [List.map firstByName]; [intros []|].
  intros [<- |Hin].
  - case_bool_decide; [left; assumption|right; left; reflexivity].
  - case_bool_decide as Hseen; [apply IH, Hin|].
    destruct (IH (seen ∪ {[generatedClassName cm]}) n Hin) as [H|H].
    + apply elem_of_union in H as [H|H]; [left; exact H|].
      apply elem_of_singleton in H. subst n. right. left. reflexivity.
    + right. right. exact H.
Qed.

(** X15.  The standard stylesheet has one rule for each generated name, in
    the order in which the names first occur, and the rule of a name
    applies the utilities of the first class mapping that carries it;
    later mappings of the name are ignored. *)
Theorem standard_first_wins (mapping : FileMapping) :
  let firsts := firstByName ∅ (mappings mapping) in
  Css.generateStandardCss mapping = renderRules (List.map ruleOfMapping firsts)
  /\ List.NoDup (List.map generatedClassName firsts)
  /\ (forall n, In n (List.map generatedClassName firsts)
                <-> In n (List.map generatedClassName (mappings mapping)))
  /\ (forall cm, In cm firsts ->
        exists l1 l2, mappings mapping = (l1 ++ cm :: l2)%list
          /\ forall cm', In cm' l1 -> generatedClassName cm' <> generatedClassName cm).
Proof.
  cbv zeta. split; [|split; [apply firstByName_NoDup|split]].
  - unfold Css.generateStandardCss. rewrite standardCss_rules. unfold standardRules.
    rewrite standardRules_firstByName. reflexivity.
  - intros n. split.
    + intros (cm & <- & Hin)%in_map_iff.
      apply firstByName_In in Hin as (_ & l1 & l2 & -> & _).
      apply in_map, in_or_app. right. left. reflexivity.
    + intros Hin. destruct (firstByName_names _ ∅ n Hin) as [H|H]; [set_solver|exact H].
  - intros cm Hin. apply firstByName_In in Hin as (_ & H). exact H.
Qed.

(** ** Neither stylesheet invents an association *)

Section OptimizedSound.
Variable cms : list ClassMapping.
Hypothesis Hvalid :
  forall cm, In cm cms -> isValidCssIdentifier (generatedClassName cm) = true.

Lemma optimized_sound (n u : string) :
  In (n, u) (List.flat_map ruleAssociations (optimizedRules cms)) -> applies cms n u.
Proof.
  rewrite rules_In, (optimizedRules_eq cms).
  destruct (emitGroupRules_fold
              (List.fold_left Css.groupStep
                 (fst (List.fold_left Css.recordMapping cms ([], []))) []) [] ∅)
    as [Hrules _].
  destruct (record_fold cms) as [(Hnd & Ht & Hcov) (Hdnd & Hd & Hdcov)].
  intros (r & Hin & Hn & Hu).
  apply emitRemainingRules_fold in Hin as [Hin|(e & He & _ & ->)].
  - apply Hrules in Hin as [[]|([key us] & He & _ & ->)]. cbn [fst snd] in *.
    destruct (group_classes cms Hvalid key us u He Hu) as (cls & Hcls & _ & Hsort).
    rewrite Hsort in Hn. apply (proj1 (sort_In _ _)) in Hn. apply (Ht u cls Hcls), Hn.
  - destruct e as [n' us]. cbn [fst snd] in *. destruct Hn as [<- |[]].
    unfold remainingOf in Hu. cbn [fst snd] in Hu. apply filter_In in Hu as [Hu _].
    destruct (Hd n' us He) as (cm & Hcm & Hname & ->). exists cm. auto.
Qed.
End OptimizedSound.

Lemma standard_sound (cms : list ClassMapping) (n u : string) :
  In (n, u) (List.flat_map ruleAssociations (standardRules cms)) -> applies cms n u.
Proof.
  destruct (standardRules_fold cms) as (_ & Hr & _).
  fold (standardRules cms) in Hr. rewrite rules_In.
  intros (r & Hin & Hn & Hu). destruct (Hr r Hin) as (cm & Hcm & ->).
  cbn [fst snd] in *. destruct Hn as [<- |[]]. exists cm. auto.
Qed.

(** X16.  Whether or not the class mappings agree on the utilities of a
    name, neither stylesheet applies anything of its own making: every
    pair (generated name, utility) read back from the standard or from the
    optimized stylesheet is given by some class mapping of the file. *)
Theorem stylesheets_sound (mapping : FileMapping) (n u : string) :
  (forall cm, In cm (mappings mapping) ->
     isValidCssIdentifier (generatedClassName cm) = true) ->
  (In (n, u) (Sheet.associations (Css.generateStandardCss mapping))
   -> applies (mappings mapping) n u)
  /\ (In (n, u) (Sheet.associations (Css.generateOptimizedCss mapping))
      -> applies (mappings mapping) n u).
Proof.
  intros Hvalid. unfold Css.generateStandardCss, Css.generateOptimizedCss.
  rewrite standardCss_rules, optimizedCss_rules.
  rewrite !associations_renderRules
    by (first [apply standard_rulesOk | apply optimized_rulesOk]; exact Hvalid).
  split; [apply standard_sound|apply optimized_sound, Hvalid].
Qed.

Lemma stylesheets_sound_witness :
  (forall cm, In cm (mappings collidingMapping) ->
     isValidCssIdentifier (generatedClassName cm) = true)
  /\ (In ("btn-1", "p-2") (Sheet.associations (Css.generateOptimizedCss collidingMapping))
      -> applies (mappings collidingMapping) "btn-1" "p-2").
Proof.
  assert (Hv : forall cm, In cm (mappings collidingMapping) ->
                 isValidCssIdentifier (generatedClassName cm) = true).
  { intros cm Hin. vm_compute in Hin.
    destruct Hin as [<- |[<- |[<- |[]]]]; reflexivity. }
  split; [exact Hv|].
  exact (proj2 (stylesheets_sound collidingMapping "btn-1" "p-2" Hv)).
Defined.

(** ** The main stylesheet and the component stylesheets *)

Lemma str_app_last (a b : string) (x y : ascii) :
  a ++ String x EmptyString = b ++ String y EmptyString -> x = y.
Proof.
  revert b. induction a as [|c a IH]; intros [|d b]; simpl; intros E.
  - congruence.
  - injection E as _ E. destruct b; discriminate E.
  - injection E as _ E. destruct a; discriminate E.
  - injection E as _ E. eauto.
Qed.

Lemma dropBrace_Some (line sel : string) :
  Sheet.dropBrace line = Some sel -> line = sel ++ " {".
Proof.
  revert sel. induction line as [|c line IH]; intros sel; cbn [Sheet.dropBrace];
    [discriminate|].
  destruct (String.eqb_spec (String c line) " {") as [E|_].
  - intros [= <-]. exact E.
  - destruct (Sheet.dropBrace line) as [s|]; [|discriminate].
    cbn. intros [= <-]. rewrite (IH s eq_refl). reflexivity.
Qed.

(** A line that ends a comment opens no rule. *)
Lemma comment_line_skipped (text : string) (current rest : list string) :
  Sheet.parseLines current (("/*" ++ text ++ " */") :: EmptyString :: rest)
  = Sheet.parseLines current rest.
Proof.
  cbn [Sheet.parseLines].
  change (Js.stripPrefix "  @apply " ("/*" ++ text ++ " */")) with (@None string).
  change (String.eqb ("/*" ++ text ++ " */") "}") with false.
  cbv iota.
  destruct (Sheet.dropBrace ("/*" ++ text ++ " */")) as [sel|] eqn:E; [|reflexivity].
  exfalso. apply dropBrace_Some in E.
  change ("/*" ++ text ++ " */") with (String "/" (String "*" (text ++ " */"))) in E.
  assert (E' : (String "/" (String "*" (text ++ " *"))) ++ String "/" EmptyString
               = (sel ++ " ") ++ String "{" EmptyString).
  { rewrite (str_app_assoc sel). cbn [String.append].
    rewrite str_app_assoc. exact E. }
  apply str_app_last in E'. discriminate E'.
Qed.

Lemma comment_lines (text rest : string) :
  noneStr isNewline text = true ->
  Css.splitChar "010" (("/*" ++ text ++ " */") ++ Css.nl ++ Css.nl ++ rest)
  = ("/*" ++ text ++ " */") :: EmptyString :: Css.splitChar "010" rest.
Proof.
  intros Ht. change (Css.nl ++ Css.nl ++ rest) with (String "010" (EmptyString ++ String "010" rest)).
  rewrite splitChar_sep.
  - rewrite splitChar_sep by reflexivity. reflexivity.
  - rewrite !noneStr_app. fold isNewline. rewrite Ht. reflexivity.
Qed.

Lemma comment_block (pre text rest : string) (current : list string) :
  (exists pre', pre = "/*" ++ pre') ->
  noneStr isNewline pre = true ->
  noneStr isNewline text = true ->
  Sheet.parseLines current
    (Css.splitChar "010" (pre ++ text ++ " */" ++ Css.nl ++ Css.nl ++ rest))
  = Sheet.parseLines current (Css.splitChar "010" rest).
Proof.
  intros [pre' ->] Hp Ht.
  replace (("/*" ++ pre') ++ text ++ " */" ++ Css.nl ++ Css.nl ++ rest)
    with (("/*" ++ (pre' ++ text) ++ " */") ++ Css.nl ++ Css.nl ++ rest)
    by (rewrite !str_app_assoc; reflexivity).
  rewrite comment_lines, comment_line_skipped; [reflexivity|].
  rewrite noneStr_app, Ht, andb_true_r.
  change (noneStr isNewline ("/*" ++ pre')) with (noneStr isNewline pre') in Hp. exact Hp.
Qed.

Lemma parse_rules_rest (rules : list Rule) (rest : string) :
  (forall r, In r rules -> ruleOk r) ->
  Sheet.parseLines [] (Css.splitChar "010" (renderRules rules ++ rest))
  = (List.flat_map ruleAssociations rules
     ++ Sheet.parseLines [] (Css.splitChar "010" rest))%list.
Proof.
  induction rules as [|[names us] rules IH]; intros Hok; [reflexivity|].
  cbn [renderRules List.flat_map]. rewrite str_app_assoc.
  rewrite lines_rule by (apply Hok; left; reflexivity).
  rewrite parse_rule by (apply Hok; left; reflexivity).
  rewrite IH by (intros; apply Hok; right; assumption).
  rewrite List.app_assoc. reflexivity.
Qed.

Lemma rulesOfFile_text (optimize : bool) (mapping : FileMapping) :
  (if optimize then Css.generateOptimizedCss mapping else Css.generateStandardCss mapping)
  = renderRules (rulesOfFile optimize mapping).
Proof.
  unfold rulesOfFile, Css.generateOptimizedCss, Css.generateStandardCss.
  destruct optimize; [apply optimizedCss_rules|apply standardCss_rules].
Qed.

Lemma rulesOfFile_ok (optimize : bool) (mapping : FileMapping) :
  (forall cm, In cm (mappings mapping) ->
     isValidCssIdentifier (generatedClassName cm) = true) ->
  forall r, In r (rulesOfFile optimize mapping) -> ruleOk r.
Proof.
  intros Hv. unfold rulesOfFile.
  destruct optimize; [apply optimized_rulesOk, Hv|apply standard_rulesOk, Hv].
Qed.

Lemma flat_map_ext_In {A B : Type} (f g : A -> list B) (l : list A) :
  (forall a, In a l -> f a = g a) -> List.flat_map f l = List.flat_map g l.
Proof.
  induction l as [|a l IH]; intros H; [reflexivity|]. cbn [List.flat_map].
  rewrite (H a) by (left; reflexivity). rewrite IH; [reflexivity|].
  intros; apply H; right; assumption.
Qed.

Lemma generateCssContent_fold (optimize : bool) (fms : FileMappings) (content rest : string) :
  (forall e, In e fms -> noneStr isNewline (fst e) = true) ->
  (forall e cm, In e fms -> In cm (mappings (snd e)) ->
     isValidCssIdentifier (generatedClassName cm) = true) ->
  exists sections,
    List.fold_left
      (fun content e =>
         content ++ "/* Styles for " ++ fst e ++ " */" ++ Css.nl ++ Css.nl
         ++ (if optimize then Css.generateOptimizedCss (snd e)
             else Css.generateStandardCss (snd e)))
      fms content
    = content ++ sections
    /\ Sheet.parseLines [] (Css.splitChar "010" (sections ++ rest))
       = (List.flat_map (fun e => List.flat_map ruleAssociations (rulesOfFile optimize (snd e)))
            fms
          ++ Sheet.parseLines [] (Css.splitChar "010" rest))%list.
Proof.
  revert content. induction fms as [|e fms IH]; intros content Hnames Hvalid.
  - exists EmptyString. split; [symmetry; apply str_app_nil_r|reflexivity].
  - cbn [List.fold_left]. rewrite rulesOfFile_text.
    destruct (IH (content ++ "/* Styles for " ++ fst e ++ " */" ++ Css.nl ++ Css.nl
                  ++ renderRules (rulesOfFile optimize (snd e))))
      as (sections & Hfold & Hparse).
    { intros; apply Hnames; right; assumption. }
    { intros e' cm He'; apply Hvalid; right; assumption. }
    exists ("/* Styles for " ++ fst e ++ " */" ++ Css.nl ++ Css.nl
            ++ renderRules (rulesOfFile optimize (snd e)) ++ sections).
    split.
    + rewrite Hfold. rewrite !str_app_assoc. reflexivity.
    + replace (("/* Styles for " ++ fst e ++ " */" ++ Css.nl ++ Css.nl
                ++ renderRules (rulesOfFile optimize (snd e)) ++ sections) ++ rest)
        with ("/* Styles for " ++ fst e ++ " */" ++ Css.nl ++ Css.nl
              ++ renderRules (rulesOfFile optimize (snd e)) ++ sections ++ rest)
        by (rewrite !str_app_assoc; reflexivity).
      rewrite comment_block;
        [|eexists; reflexivity|reflexivity|apply Hnames; left; reflexivity].
      rewrite parse_rules_rest.
      2:{ apply rulesOfFile_ok. intros cm Hcm.
          apply (Hvalid e cm); [left; reflexivity|exact Hcm]. }
      rewrite Hparse. cbn [List.flat_map]. rewrite List.app_assoc. reflexivity.
Qed.

Lemma component_associations (optimize : bool) (file : string) (mapping : FileMapping) :
  noneStr isNewline file = true ->
  (forall cm, In cm (mappings mapping) ->
     isValidCssIdentifier (generatedClassName cm) = true) ->
  Sheet.associations (generateIndividualComponentCss file mapping optimize)
  = List.flat_map ruleAssociations (rulesOfFile optimize mapping).
Proof.
  intros Hf Hv. unfold Sheet.associations, generateIndividualComponentCss, componentHeader.
  rewrite rulesOfFile_text.
  replace (("/* Generated for " ++ file ++ " */" ++ Css.nl ++ Css.nl)
           ++ renderRules (rulesOfFile optimize mapping))
    with ("/* Generated for " ++ file ++ " */" ++ Css.nl ++ Css.nl
          ++ renderRules (rulesOfFile optimize mapping) ++ EmptyString)
    by (rewrite !str_app_assoc, str_app_nil_r; reflexivity).
  rewrite comment_block; [|eexists; reflexivity|reflexivity|exact Hf].
  rewrite parse_rules_rest by (apply rulesOfFile_ok, Hv).
  cbn. apply List.app_nil_r.
Qed.

(** X17.  With the optimization switched on or off for all files, the
    main stylesheet applies what the component stylesheets apply: read
    back, it gives the pairs (generated name, utility) of the component
    stylesheets, file after file, when no source path holds a line feed
    and the generated names are valid identifiers. *)
Theorem main_applies_components (optimize : bool) (fms : FileMappings) :
  (forall e, In e fms -> noneStr isNewline (fst e) = true) ->
  (forall e cm, In e fms -> In cm (mappings (snd e)) ->
     isValidCssIdentifier (generatedClassName cm) = true) ->
  Sheet.associations (Css.generateCssContent fms optimize)
  = List.flat_map
      (fun e => Sheet.associations (generateIndividualComponentCss (fst e) (snd e) optimize))
      fms.
Proof.
  intros Hnames Hvalid. unfold Sheet.associations at 1, Css.generateCssContent.
  destruct (generateCssContent_fold optimize fms
              ("/* Generated by tailwindcss-namespace */" ++ Css.nl ++ Css.nl) EmptyString
              Hnames Hvalid) as (sections & -> & Hparse).
  replace (("/* Generated by tailwindcss-namespace */" ++ Css.nl ++ Css.nl) ++ sections)
    with ("/* Generated by tailwindcss-namespace" ++ EmptyString ++ " */" ++ Css.nl ++ Css.nl
          ++ sections ++ EmptyString)
    by (rewrite str_app_nil_r; reflexivity).
  rewrite comment_block; [|eexists; reflexivity|reflexivity|reflexivity].
  rewrite Hparse. cbn [Css.splitChar Sheet.parseLines].
  change (Js.stripPrefix "  @apply " EmptyString) with (@None string). cbn.
  rewrite List.app_nil_r.
  apply flat_map_ext_In. intros e He. symmetry. apply component_associations.
  - apply Hnames, He.
  - intros cm Hcm. apply (Hvalid e cm He Hcm).
Qed.

Lemma main_applies_components_witness :
  (forall e, In e sampleFiles -> noneStr isNewline (fst e) = true)
  /\ Sheet.associations (Css.generateCssContent sampleFiles true)
     = List.flat_map
         (fun e => Sheet.associations (generateIndividualComponentCss (fst e) (snd e) true))
         sampleFiles.
Proof.
  assert (Hn : forall e, In e sampleFiles -> noneStr isNewline (fst e) = true).
  { intros e [<- |[]]. reflexivity. }
  split; [exact Hn|].
  apply (main_applies_components true sampleFiles Hn).
  intros e cm [<- |[]] [<- |[<- |[<- |[]]]]; reflexivity.
Defined.

(** ** The length without comments and blank lines *)

Lemma removeAllAt_length (matchAt : option ascii -> string -> option nat) (s : string) :
  forall prev skip,
    (String.length (Scan.removeAllAt matchAt s prev skip) <= String.length s)%nat.
Proof.
  induction s as [|c s IH]; intros prev skip; cbn [Scan.removeAllAt]; [reflexivity|].
  destruct skip as [|k].
  - destruct (matchAt prev (String c s)) as [len|]; simpl.
    + specialize (IH (Some c) (len - 1)%nat). lia.
    + specialize (IH (Some c) 0%nat). lia.
  - specialize (IH (Some c) k). simpl. lia.
Qed.

Lemma removeAllAt_skip (matchAt : option ascii -> string -> option nat) (a b : string) :
  forall prev,
    Scan.removeAllAt matchAt (a ++ b) prev (String.length a)
    = Scan.removeAllAt matchAt b (lastOf prev a) 0.
Proof.
  induction a as [|c a IH]; intros prev.
  - reflexivity.
  - change (String c a ++ b) with (String c (a ++ b)).
    cbn [Scan.removeAllAt String.length lastOf]. apply IH.
Qed.

Lemma removeAllAt_prev_ext (m m' : option ascii -> string -> option nat) (s : string) :
  (forall prev x, m (Some prev) x = m' (Some prev) x) ->
  forall prev prev' skip,
    (forall x, m prev x = m' prev' x) ->
    Scan.removeAllAt m s prev skip = Scan.removeAllAt m' s prev' skip.
Proof.
  intros Hsome. induction s as [|c s IH]; intros prev prev' skip H0; [reflexivity|].
  cbn [Scan.removeAllAt]. destruct skip as [|k].
  - rewrite H0. destruct (m' prev' (String c s)); [|f_equal]; apply IH; intros; apply Hsome.
  - apply IH. intros; apply Hsome.
Qed.

Lemma commentEnd_step (x : ascii) (s : string) :
  Css.commentEnd (String x s)
  = if Ascii.eqb x "*" && match s with String y _ => Ascii.eqb y "/" | EmptyString => false end
    then Some 0%nat
    else option_map S (Css.commentEnd s).
Proof.
  destruct (Ascii.eqb_spec x "*") as [->|Hx].
  - destruct s as [|y s]; [reflexivity|].
    destruct y as [[] [] [] [] [] [] [] []]; reflexivity.
  - destruct x as [[] [] [] [] [] [] [] []]; try reflexivity. contradiction.
Qed.

Lemma commentEnd_first (text rest : string) :
  Str.includes "*/" text = false ->
  Css.commentEnd (text ++ "*/" ++ rest) = Some (String.length text).
Proof.
  induction text as [|x text IH]; intros Hno; [reflexivity|].
  change (String x text ++ "*/" ++ rest) with (String x (text ++ "*/" ++ rest)).
  rewrite commentEnd_step.
  unfold Str.includes in Hno. cbn [Str.splitAtFirst] in Hno.
  destruct (Js.stripPrefix "*/" (String x text)) as [r|] eqn:Es; [discriminate Hno|].
  assert (Hno' : Str.includes "*/" text = false).
  { unfold Str.includes. destruct (Str.splitAtFirst "*/" text) as [[b a]|];
      [discriminate Hno|reflexivity]. }
  rewrite (IH Hno'). cbn [option_map String.length].
  destruct (Ascii.eqb_spec x "*") as [->|_]; [|reflexivity].
  destruct text as [|y text]; [reflexivity|].
  change (String y text ++ "*/" ++ rest) with (String y (text ++ "*/" ++ rest)).
  cbn [andb]. destruct (Ascii.eqb_spec y "/") as [->|_]; [|reflexivity].
  discriminate Es.
Qed.

Lemma removeAllAt_match (matchAt : option ascii -> string -> option nat) (c : ascii)
    (r : string) (prev : option ascii) :
  Scan.removeAllAt matchAt (String c r) prev 0
  = match matchAt prev (String c r) with
    | Some len => Scan.removeAllAt matchAt r (Some c) (len - 1)
    | None => String c (Scan.removeAllAt matchAt r (Some c) 0)
    end.
Proof. reflexivity. Qed.

Lemma matchComment_head (text rest : string) :
  Str.includes "*/" text = false ->
  Css.matchComment ("/*" ++ text ++ "*/" ++ rest) = Some (2 + String.length text + 2)%nat.
Proof.
  intros Hno.
  change (Css.matchComment ("/*" ++ text ++ "*/" ++ rest))
    with (option_map (fun n => (2 + n + 2)%nat) (Css.commentEnd (text ++ "*/" ++ rest))).
  rewrite (commentEnd_first text rest Hno). reflexivity.
Qed.

Lemma removeAll_comment_head (text rest : string) :
  Str.includes "*/" text = false ->
  Scan.removeAll Css.matchComment ("/*" ++ text ++ "*/" ++ rest)
  = Scan.removeAll Css.matchComment rest.
Proof.
  intros Hno. unfold Scan.removeAll.
  pose proof (matchComment_head text rest Hno) as Hm.
  change ("/*" ++ text ++ "*/" ++ rest) with (String "/" ("*" ++ text ++ "*/" ++ rest)) in *.
  rewrite removeAllAt_match. cbv beta. rewrite Hm.
  replace ("*" ++ text ++ "*/" ++ rest) with (("*" ++ text ++ "*/") ++ rest)
    by (rewrite !str_app_assoc; reflexivity).
  replace (2 + String.length text + 2 - 1)%nat with (String.length ("*" ++ text ++ "*/"))
    by (rewrite !str_length_app; simpl; lia).
  rewrite removeAllAt_skip.
  apply removeAllAt_prev_ext; reflexivity.
Qed.

Lemma lastLineBreak_shift (w : string) (n : nat) :
  Css.lastLineBreak w n = option_map (fun k => (n + k)%nat) (Css.lastLineBreak w 0).
Proof.
  revert n. induction w as [|c w IH]; intros n; [reflexivity|].
  cbn [Css.lastLineBreak]. rewrite (IH (S n)), (IH 1%nat).
  destruct (Css.lastLineBreak w 0) as [k|]; cbn [option_map].
  - f_equal. lia.
  - destruct (Css.isLineBreak c); cbn [option_map]; [f_equal; lia|reflexivity].
Qed.

Lemma lastLineBreak_bound (w : string) (k : nat) :
  Css.lastLineBreak w 0 = Some k -> (1 <= k <= String.length w)%nat.
Proof.
  revert k. induction w as [|c w IH]; intros k; [discriminate|].
  cbn [Css.lastLineBreak]. rewrite lastLineBreak_shift.
  destruct (Css.lastLineBreak w 0) as [k0|]; cbn [option_map].
  - intros [= <-]. specialize (IH k0 eq_refl). simpl. lia.
  - destruct (Css.isLineBreak c); [|discriminate]. intros [= <-]. simpl. lia.
Qed.

Lemma split_at (k : nat) (s : string) :
  (k <= String.length s)%nat ->
  exists a b, s = a ++ b /\ String.length a = k.
Proof.
  intros Hk. exists (Js.take k s), (Scan.substringFrom k s).
  split; [symmetry; apply take_substringFrom|apply take_length, Hk].
Qed.

Lemma matchBlankLine_head (x : string) :
  Css.matchBlankLine None (String "010" (String "010" x))
  = Some (2 + default 0 (Css.lastLineBreak (fst (Scan.span Js.isWhiteSpace x)) 0))%nat.
Proof.
  unfold Css.matchBlankLine. cbn [Scan.span].
  change (Js.isWhiteSpace "010") with true. cbv iota.
  destruct (Scan.span Js.isWhiteSpace x) as [w x']. cbn [fst Css.lastLineBreak].
  change (Css.isLineBreak "010") with true. cbv iota.
  rewrite (lastLineBreak_shift w 2).
  destruct (Css.lastLineBreak w 0); reflexivity.
Qed.

Lemma blank_lines_head (x : string) :
  Scan.removeAllAt Css.matchBlankLine (Css.nl ++ Css.nl ++ x) None 0
  = Scan.removeAllAt Css.matchBlankLine x None 0.
Proof.
  change (Css.nl ++ Css.nl ++ x) with (String "010" (String "010" x)).
  rewrite removeAllAt_match, matchBlankLine_head.
  destruct (Scan.span Js.isWhiteSpace x) as [w x'] eqn:Ew. cbn [fst].
  destruct (Css.lastLineBreak w 0) as [k|] eqn:Ek; cbn [default from_option]; unfold id.
  - pose proof (lastLineBreak_bound w k Ek) as Hk.
    apply span_eq in Ew as Hx.
    destruct (split_at k w) as (a & b & Hw & Ha); [lia|].
    assert (Hxa : x = a ++ (b ++ x')) by (rewrite Hx, Hw, str_app_assoc; reflexivity).
    destruct a as [|c a]; [simpl in Ha; lia|]. simpl in Ha.
    assert (Hm : Css.matchBlankLine None x = Some k).
    { unfold Css.matchBlankLine. rewrite Ew. exact Ek. }
    rewrite Hxa in Hm |- *.
    change (String "010" (String c a ++ b ++ x'))
      with (String "010" (String c a) ++ (b ++ x')).
    replace (2 + k - 1)%nat with (String.length (String "010" (String c a)))
      by (simpl; lia).
    rewrite removeAllAt_skip.
    change (String c a ++ b ++ x') with (String c (a ++ b ++ x')) in *.
    rewrite removeAllAt_match, Hm.
    replace (k - 1)%nat with (String.length a) by lia.
    rewrite removeAllAt_skip. reflexivity.
  - change (2 + 0 - 1)%nat with 1%nat. cbn [Scan.removeAllAt].
    apply removeAllAt_prev_ext; reflexivity.
Qed.

(** X18.  The length that the auto mode compares never exceeds the length
    of the text, and a comment at the head of the text, with the blank
    line after it, counts for nothing: the global candidate is measured as
    its rules alone. *)
Theorem content_length_excluding_comments (fms : FileMappings) :
  (forall content,
     (Css.getContentLengthExcludingComments content <= String.length content)%nat)
  /\ (forall text body,
        Str.includes "*/" text = false ->
        Css.getContentLengthExcludingComments
          ("/*" ++ text ++ "*/" ++ Css.nl ++ Css.nl ++ body)
        = Css.getContentLengthExcludingComments body)
  /\ Css.getContentLengthExcludingComments (Css.generateGlobalOptimizedCss fms)
     = Css.getContentLengthExcludingComments (Css.optimizedCss (allClassMappings fms)).
Proof.
  assert (Hhead : forall text body,
            Str.includes "*/" text = false ->
            Css.getContentLengthExcludingComments
              ("/*" ++ text ++ "*/" ++ Css.nl ++ Css.nl ++ body)
            = Css.getContentLengthExcludingComments body).
  { intros text body Hno. unfold Css.getContentLengthExcludingComments.
    rewrite (removeAll_comment_head text _ Hno).
    assert (Hnl : Scan.removeAll Css.matchComment (Css.nl ++ Css.nl ++ body)
                  = Css.nl ++ Css.nl ++ Scan.removeAll Css.matchComment body).
    { unfold Scan.removeAll.
      change (Css.nl ++ Css.nl ++ body) with (String "010" (String "010" body)).
      rewrite !removeAllAt_match. cbv beta.
      change (Css.matchComment (String "010" (String "010" body))) with (@None nat).
      change (Css.matchComment (String "010" body)) with (@None nat). cbv iota.
      change (String "010" (String "010" ?y)) with (Css.nl ++ Css.nl ++ y).
      do 2 f_equal. apply removeAllAt_prev_ext; reflexivity. }
    rewrite Hnl, blank_lines_head. reflexivity. }
  split; [|split; [exact Hhead|]].
  - intros content. unfold Css.getContentLengthExcludingComments, Scan.removeAll.
    etransitivity; [apply removeAllAt_length|apply removeAllAt_length].
  - unfold Css.generateGlobalOptimizedCss.
    exact (Hhead " Generated by tailwindcss-namespace with global optimization " _ eq_refl).
Qed.

Lemma content_length_excluding_comments_witness :
  Str.includes "*/" " a comment " = false
  /\ Css.getContentLengthExcludingComments
       ("/*" ++ " a comment " ++ "*/" ++ Css.nl ++ Css.nl ++ ".x {}")
     = Css.getContentLengthExcludingComments ".x {}".
Proof.
  split; [reflexivity|].
  exact (proj1 (proj2 (content_length_excluding_comments [])) " a comment " ".x {}" eq_refl).
Defined.

(** ** Component stylesheets cut out of the global one *)

Lemma includesChar_noneStr (c : ascii) (s : string) :
  noneStr (Ascii.eqb c) s = true -> Js.includesChar c s = false.
Proof. unfold noneStr, Js.includesChar. apply negb_true_iff. Qed.

Lemma noneStr_weaken (p q : ascii -> bool) (s : string) :
  (forall c, q c = true -> p c = true) -> noneStr p s = true -> noneStr q s = true.
Proof.
  intros Hpq. unfold noneStr. intros H. apply negb_true_iff in H. apply negb_true_iff.
  induction s as [|x s IH]; [reflexivity|]. simpl in *.
  apply orb_false_iff in H as [Hx Hs]. rewrite (IH Hs), orb_false_r.
  destruct (q x) eqn:E; [|reflexivity]. rewrite (Hpq x E) in Hx. discriminate Hx.
Qed.

Lemma braceFree_open (u : string) :
  noneStr isBrace u = true -> noneStr (Ascii.eqb "{") u = true.
Proof.
  apply noneStr_weaken. intros c H. apply Ascii.eqb_eq in H. subst c. reflexivity.
Qed.

Lemma braceFree_close (u : string) :
  noneStr isBrace u = true -> noneStr (Ascii.eqb "}") u = true.
Proof.
  apply noneStr_weaken. intros c H. apply Ascii.eqb_eq in H. subst c. reflexivity.
Qed.

Lemma includesChar_app (c : ascii) (a b : string) :
  Js.includesChar c (a ++ b) = Js.includesChar c a || Js.includesChar c b.
Proof.
  unfold Js.includesChar. induction a as [|x a IH]; [reflexivity|].
  change (String x a ++ b) with (String x (a ++ b)). simpl. rewrite IH. apply orb_assoc.
Qed.

Lemma applyLine_no_brace (u : string) :
  noneStr isBrace u = true ->
  Js.includesChar "{" (applyLine u) = false /\ Js.includesChar "}" (applyLine u) = false.
Proof.
  intros Hu. unfold applyLine. rewrite !includesChar_app.
  rewrite (includesChar_noneStr "{" u (braceFree_open u Hu)).
  rewrite (includesChar_noneStr "}" u (braceFree_close u Hu)). split; reflexivity.
Qed.

(** *** Trimming a selector line *)

Lemma trimEnd_end (x : string) (c : ascii) :
  Js.isWhiteSpace c = false ->
  Str.trimEnd (x ++ String c EmptyString) = x ++ String c EmptyString.
Proof.
  intros Hc. induction x as [|d x IH].
  - cbn. rewrite Hc. reflexivity.
  - change (String d x ++ String c EmptyString) with (String d (x ++ String c EmptyString)).
    cbn [Str.trimEnd]. rewrite IH. destruct x; reflexivity.
Qed.

Lemma trimEnd_space (s : string) : Str.trimEnd (s ++ " ") = Str.trimEnd s.
Proof.
  induction s as [|d s IH]; [reflexivity|].
  change (String d s ++ " ") with (String d (s ++ " ")).
  cbn [Str.trimEnd]. rewrite IH. reflexivity.
Qed.

Lemma str_last (s : string) :
  s <> EmptyString ->
  exists x c, s = x ++ String c EmptyString /\ Js.existsbStr (Ascii.eqb c) s = true.
Proof.
  induction s as [|d s IH]; [contradiction|]. intros _.
  destruct s as [|e s].
  - exists EmptyString, d. split; [reflexivity|]. simpl. rewrite Ascii.eqb_refl. reflexivity.
  - destruct IH as (x & c & E & Hc); [discriminate|].
    exists (String d x), c. split; [rewrite E; reflexivity|].
    change (Js.existsbStr (Ascii.eqb c) (String d (String e s)))
      with (Ascii.eqb c d || Js.existsbStr (Ascii.eqb c) (String e s)).
    rewrite Hc. apply orb_true_r.
Qed.

Lemma forallbStr_existsbStr (p : ascii -> bool) (c : ascii) (s : string) :
  Js.forallbStr p s = true -> Js.existsbStr (Ascii.eqb c) s = true -> p c = true.
Proof.
  induction s as [|d s IH]; simpl; [discriminate|].
  intros [Hd Hs]%andb_true_iff [E|E]%orb_true_iff; [|auto].
  apply Ascii.eqb_eq in E. subst. exact Hd.
Qed.

Lemma valid_all_parts (n : string) :
  isValidCssIdentifier n = true -> Js.forallbStr isIdentPart n = true.
Proof.
  destruct n as [|c n]; [discriminate|]. simpl. intros [Hc Hn]%andb_true_iff.
  rewrite Hn. unfold isIdentPart. rewrite Hc. reflexivity.
Qed.

Lemma identPart_not_ws (c : ascii) : isIdentPart c = true -> Js.isWhiteSpace c = false.
Proof.
  intros H. destruct c as [[] [] [] [] [] [] [] []];
    first [reflexivity | discriminate H].
Qed.

Lemma valid_last (n : string) :
  isValidCssIdentifier n = true ->
  exists x c, n = x ++ String c EmptyString /\ Js.isWhiteSpace c = false.
Proof.
  intros Hv. destruct (str_last n) as (x & c & E & Hc); [destruct n; discriminate|].
  exists x, c. split; [exact E|].
  apply identPart_not_ws. eapply forallbStr_existsbStr; [apply valid_all_parts, Hv|exact Hc].
Qed.

Lemma selectorOf_cons (n m : string) (names : list string) :
  selectorOf (n :: m :: names) = ("." ++ n) ++ ", " ++ selectorOf (m :: names).
Proof. reflexivity. Qed.

Lemma selectorOf_last (names : list string) :
  names <> [] ->
  (forall n, In n names -> isValidCssIdentifier n = true) ->
  exists x c, selectorOf names = x ++ String c EmptyString /\ Js.isWhiteSpace c = false.
Proof.
  induction names as [|n [|m names] IH]; intros Hne Hv; [contradiction| |].
  - destruct (valid_last n) as (x & c & E & Hc); [apply Hv; left; reflexivity|].
    exists ("." ++ x), c. split; [|exact Hc]. rewrite selectorOf_single, E. reflexivity.
  - destruct IH as (x & c & E & Hc); [discriminate|intros; apply Hv; right; assumption|].
    exists (("." ++ n) ++ ", " ++ x), c. split; [|exact Hc].
    rewrite selectorOf_cons, E, !str_app_assoc. reflexivity.
Qed.

Lemma selectorOf_noneStr (p : ascii -> bool) (names : list string) :
  p "."%char = false -> p ","%char = false -> p " "%char = false ->
  (forall c, p c = true -> isIdentPart c = false) ->
  (forall n, In n names -> isValidCssIdentifier n = true) ->
  noneStr p (selectorOf names) = true.
Proof.
  intros Hdot Hcomma Hsp Hp.
  induction names as [|n [|m names] IH]; intros Hv; [reflexivity| |].
  - rewrite selectorOf_single, noneStr_app.
    rewrite (valid_noneStr p n Hp) by (apply Hv; left; reflexivity).
    unfold noneStr. simpl. rewrite Hdot. reflexivity.
  - rewrite selectorOf_cons, !noneStr_app.
    rewrite (valid_noneStr p n Hp) by (apply Hv; left; reflexivity).
    rewrite IH by (intros; apply Hv; right; assumption).
    unfold noneStr. simpl. rewrite Hdot, Hcomma, Hsp. reflexivity.
Qed.

Lemma selector_line_head (names : list string) :
  (forall n, In n names -> isValidCssIdentifier n = true) ->
  List.hd EmptyString (Css.splitChar "{" (selectorOf names ++ " {"))
  = selectorOf names ++ " ".
Proof.
  intros Hv.
  replace (selectorOf names ++ " {") with ((selectorOf names ++ " ") ++ String "{" EmptyString)
    by (rewrite str_app_assoc; reflexivity).
  rewrite splitChar_sep; [reflexivity|].
  rewrite noneStr_app. rewrite selectorOf_noneStr; try reflexivity; [|exact Hv].
  apply eqb_not_identPart. reflexivity.
Qed.

Lemma selector_line_trim (names : list string) :
  names <> [] ->
  (forall n, In n names -> isValidCssIdentifier n = true) ->
  Str.trim (selectorOf names ++ " ") = selectorOf names.
Proof.
  intros Hne Hv. unfold Str.trim, Str.trimStart.
  destruct (selectorOf_dot names Hne) as [r Hr].
  assert (Hs : Scan.span Js.isWhiteSpace (selectorOf names ++ " ")
               = (EmptyString, selectorOf names ++ " ")).
  { rewrite Hr. reflexivity. }
  rewrite Hs. cbn [snd]. rewrite trimEnd_space.
  destruct (selectorOf_last names Hne Hv) as (x & c & E & Hc).
  rewrite E. apply trimEnd_end, Hc.
Qed.

(** *** The loop, line by line *)

Section Extract.
Variable names : list string.

Let quiet (css : string) : Extraction := mkExtraction css false EmptyString.

Lemma extract_selector_line (css : string) (r : Rule) :
  ruleOk r ->
  extractLine names (quiet css) (selectorOf (fst r) ++ " {")
  = if relevantRule names r
    then mkExtraction css true ((selectorOf (fst r) ++ " {") ++ Css.nl)
    else quiet css.
Proof.
  intros (Hne & Hv & _). unfold extractLine.
  rewrite selector_line_head, selector_line_trim by assumption.
  rewrite includesChar_app. change (Js.includesChar "{" " {") with true.
  rewrite orb_true_r. cbn [andb]. fold (relevantRule names r).
  destruct (relevantRule names r); reflexivity.
Qed.

Lemma extract_apply_lines (css : string) (us : list string) :
  (forall u, In u us -> noneStr isBrace u = true) ->
  forall cur,
    List.fold_left (extractLine names) (List.map applyLine us) (mkExtraction css true cur)
    = mkExtraction css true (cur ++ Css.applyLines EmptyString us).
Proof.
  induction us as [|u us IH]; intros Hus cur.
  - cbn. rewrite str_app_nil_r. reflexivity.
  - cbn [List.map List.fold_left].
    destruct (applyLine_no_brace u (Hus u (or_introl eq_refl))) as [Ho Hc].
    unfold extractLine at 2. rewrite Ho, Hc. cbn [andb inRelevantRule componentCss currentRule].
    rewrite IH by (intros; apply Hus; right; assumption).
    rewrite applyLines_cons, !str_app_assoc. reflexivity.
Qed.

Lemma extract_apply_lines_quiet (css : string) (us : list string) :
  (forall u, In u us -> noneStr isBrace u = true) ->
  List.fold_left (extractLine names) (List.map applyLine us) (quiet css) = quiet css.
Proof.
  induction us as [|u us IH]; intros Hus; [reflexivity|].
  cbn [List.map List.fold_left].
  destruct (applyLine_no_brace u (Hus u (or_introl eq_refl))) as [Ho _].
  unfold extractLine at 2. rewrite Ho. cbn [andb quiet inRelevantRule].
  apply IH. intros; apply Hus; right; assumption.
Qed.

Lemma extract_rule (css : string) (r : Rule) :
  ruleOk r ->
  (forall u, In u (snd r) -> noneStr isBrace u = true) ->
  List.fold_left (extractLine names) (ruleLines r) (quiet css)
  = quiet (css ++ (if relevantRule names r then compactRuleText r else EmptyString)).
Proof.
  intros Hok Hus. unfold ruleLines. cbn [List.fold_left].
  rewrite extract_selector_line by exact Hok.
  rewrite fold_left_app.
  destruct (relevantRule names r).
  - rewrite extract_apply_lines by exact Hus. cbn. unfold quiet, compactRuleText.
    rewrite !str_app_assoc. reflexivity.
  - rewrite extract_apply_lines_quiet by exact Hus. cbn. unfold quiet.
    rewrite str_app_nil_r. reflexivity.
Qed.

Lemma extract_rules (rules : list Rule) :
  (forall r, In r rules -> ruleOk r) ->
  (forall r u, In r rules -> In u (snd r) -> noneStr isBrace u = true) ->
  forall css,
    List.fold_left (extractLine names) (List.flat_map ruleLines rules) (quiet css)
    = quiet (css ++ renderCompact (List.filter (relevantRule names) rules)).
Proof.
  induction rules as [|r rules IH]; intros Hok Hus css.
  - cbn. unfold quiet. rewrite str_app_nil_r. reflexivity.
  - cbn [List.flat_map List.filter]. rewrite fold_left_app.
    rewrite extract_rule; [|apply Hok; left; reflexivity|intros u; apply Hus; left; reflexivity].
    rewrite IH; [|intros; apply Hok; right; assumption
                 |intros r' u Hr'; apply Hus; right; assumption].
    destruct (relevantRule names r); cbn [renderCompact];
      rewrite ?str_app_assoc, ?str_app_nil_r; reflexivity.
Qed.
End Extract.

Lemma app_cons2 {A : Type} (l : list A) (a b : A) (r : list A) :
  ((l ++ [a; b]) ++ r = l ++ a :: b :: r)%list.
Proof. rewrite <- List.app_assoc. reflexivity. Qed.

Lemma lines_rules (rules : list Rule) (rest : string) :
  (forall r, In r rules -> ruleOk r) ->
  Css.splitChar "010" (renderRules rules ++ rest)
  = (List.flat_map ruleLines rules ++ Css.splitChar "010" rest)%list.
Proof.
  induction rules as [|[ns us] rules IH]; intros Hok; [reflexivity|].
  cbn [renderRules List.flat_map]. rewrite str_app_assoc.
  rewrite lines_rule by (apply Hok; left; reflexivity).
  rewrite IH by (intros; apply Hok; right; assumption).
  unfold ruleLines. cbn [fst snd app]. f_equal.
  rewrite <- List.app_assoc, app_cons2. reflexivity.
Qed.

Lemma componentClassNames_In (mapping : FileMapping) (n : string) :
  In n (componentClassNames mapping)
  <-> exists cm, In cm (mappings mapping) /\ generatedClassName cm = n.
Proof.
  unfold componentClassNames.
  assert (H : forall l acc,
            In n (List.fold_left
                    (fun names cm => Css.setAdd (generatedClassName cm) names) l acc)
            <-> In n acc \/ exists cm, In cm l /\ generatedClassName cm = n).
  { induction l as [|cm l IH]; intros acc; cbn [List.fold_left].
    - split; [auto|]. intros [H|(cm & [] & _)]. exact H.
    - rewrite IH, setAdd_In. split.
      + intros [[->|H]|(cm' & Hin & E)]; eauto.
        * right. exists cm. split; [left; reflexivity|reflexivity].
        * right. exists cm'. split; [right; exact Hin|exact E].
      + intros [H|(cm' & [<- |Hin] & E)]; eauto. }
  rewrite H. split; [intros [[]|H']; exact H'|auto].
Qed.

Lemma extraction_of_rules (sourceFile : string) (mapping : FileMapping) (rules : list Rule) :
  (forall r, In r rules -> ruleOk r) ->
  (forall r u, In r rules -> In u (snd r) -> noneStr isBrace u = true) ->
  generateComponentCssFromGlobal sourceFile mapping
    ("/* Generated by tailwindcss-namespace with global optimization */"
     ++ Css.nl ++ Css.nl ++ renderRules rules)
  = componentHeader sourceFile
    ++ renderCompact (List.filter (relevantRule (componentClassNames mapping)) rules).
Proof.
  intros Hok Hus. unfold generateComponentCssFromGlobal.
  change ("/* Generated by tailwindcss-namespace with global optimization */"
          ++ Css.nl ++ Css.nl ++ renderRules rules)
    with (("/*" ++ " Generated by tailwindcss-namespace with global optimization" ++ " */")
          ++ Css.nl ++ Css.nl ++ renderRules rules).
  rewrite comment_lines by reflexivity.
  rewrite <- (str_app_nil_r (renderRules rules)), lines_rules by exact Hok.
  cbn [List.fold_left]. rewrite fold_left_app.
  change (extractLine (componentClassNames mapping)
            (extractLine (componentClassNames mapping)
               (mkExtraction (componentHeader sourceFile) false EmptyString)
               ("/*" ++ " Generated by tailwindcss-namespace with global optimization" ++ " */"))
            EmptyString)
    with (mkExtraction (componentHeader sourceFile) false EmptyString).
  rewrite extract_rules by assumption. reflexivity.
Qed.

Lemma splitWs_pieces_none (p : ascii -> bool) (s piece : string) :
  noneStr p s = true -> In piece (Js.splitWs s) -> noneStr p piece = true.
Proof.
  unfold noneStr. revert piece. induction s as [|c s IH]; intros piece; simpl.
  - intros _ [<- |[]]. reflexivity.
  - intros H. apply negb_true_iff, orb_false_iff in H as [Hc Hs].
    specialize (IH) as IH'.
    assert (IHs : forall q, In q (Js.splitWs s) -> negb (Js.existsbStr p q) = true).
    { intros q Hq. apply IH; [apply negb_true_iff, Hs|exact Hq]. }
    destruct (Js.isWhiteSpace c).
    + destruct s as [|c' s'].
      * intros [<- |H]; [reflexivity|apply IHs, H].
      * destruct (Js.isWhiteSpace c'); [apply IHs|].
        intros [<- |H]; [reflexivity|apply IHs, H].
    + destruct (Js.splitWs s) as [|q qs] eqn:Hq.
      * intros [<- |[]]. simpl. rewrite Hc. reflexivity.
      * intros [<- |H]; [|apply IHs; right; exact H].
        simpl. rewrite Hc. simpl. apply (IHs q). left. reflexivity.
Qed.

Lemma utilitiesOf_braceFree (cm : ClassMapping) (u : string) :
  noneStr isBrace (originalClasses cm) = true ->
  In u (Css.utilitiesOf cm) -> noneStr isBrace u = true.
Proof.
  intros Hb [Hu _]%filter_In. eapply splitWs_pieces_none; eauto.
Qed.

Lemma optimizedRules_utilities (cms : list ClassMapping) (r : Rule) (u : string) :
  (forall cm, In cm cms -> isValidCssIdentifier (generatedClassName cm) = true) ->
  In r (optimizedRules cms) -> In u (snd r) ->
  exists cm, In cm cms /\ In u (Css.utilitiesOf cm).
Proof.
  intros Hv Hr Hu.
  destruct (optimized_rulesOk cms Hv r Hr) as (Hne & _).
  destruct (fst r) as [|n ns] eqn:En; [contradiction|].
  destruct (optimized_sound cms Hv n u) as (cm & Hcm & _ & Hucm).
  { apply rules_In. exists r. rewrite En. split; [exact Hr|]. split; [left; reflexivity|exact Hu]. }
  eauto.
Qed.

Lemma includes_join (sep x : string) (l : list string) :
  In x l -> exists a b, Js.join sep l = a ++ x ++ b.
Proof.
  induction l as [|y [|z l] IH]; [intros []| |].
  - intros [<- |[]]. exists EmptyString, EmptyString. cbn. rewrite str_app_nil_r. reflexivity.
  - intros [<- |Hin].
    + exists EmptyString, (sep ++ Js.join sep (z :: l)). reflexivity.
    + destruct (IH Hin) as (a & b & E).
      exists (y ++ sep ++ a), b. rewrite join_cons2, E, !str_app_assoc. reflexivity.
Qed.

Lemma relevantRule_prefix (names : list string) (r : Rule) (c suffix : string) :
  In c names -> In (c ++ suffix) (fst r) -> relevantRule names r = true.
Proof.
  intros Hc Hn. unfold relevantRule. apply existsb_exists. exists c. split; [exact Hc|].
  unfold selectorOf.
  destruct (includes_join ", " ("." ++ c ++ suffix) (List.map (fun x => "." ++ x) (fst r)))
    as (a & b & E).
  { apply in_map_iff. exists (c ++ suffix). auto. }
  rewrite E.
  replace (a ++ ("." ++ c ++ suffix) ++ b) with (a ++ ("." ++ c) ++ (suffix ++ b))
    by (rewrite !str_app_assoc; reflexivity).
  apply includes_app.
Qed.

Lemma global_extraction (file : string) (mapping : FileMapping) (fms : FileMappings) :
  (forall cm, In cm (allClassMappings fms) ->
     isValidCssIdentifier (generatedClassName cm) = true) ->
  (forall cm, In cm (allClassMappings fms) -> noneStr isBrace (originalClasses cm) = true) ->
  generateComponentCssFromGlobal file mapping (Css.generateGlobalOptimizedCss fms)
  = componentHeader file
    ++ renderCompact (List.filter (relevantRule (componentClassNames mapping))
                        (optimizedRules (allClassMappings fms))).
Proof.
  intros Hv Hb. unfold Css.generateGlobalOptimizedCss. rewrite optimizedCss_rules.
  apply extraction_of_rules.
  - apply optimized_rulesOk, Hv.
  - intros r u Hr Hu.
    destruct (optimizedRules_utilities (allClassMappings fms) r u Hv Hr Hu)
      as (cm & Hcm & Hucm).
    eapply utilitiesOf_braceFree; [apply Hb, Hcm|exact Hucm].
Qed.

(** X19.  In the auto mode with the global candidate kept, the stylesheet
    of a component is cut out of the global one rule by rule: after its own
    comment it holds, without the blank lines, the rules of the global
    stylesheet in whose selector list a class name of the component occurs
    after a dot, and only those.  The test is on text, so a rule is also
    taken when one of its class names merely begins with a class name of
    the component. *)
Theorem component_from_global (sourceFile : string) (mapping : FileMapping)
    (fms : FileMappings) :
  let all := allClassMappings fms in
  let names := componentClassNames mapping in
  (forall cm, In cm all -> isValidCssIdentifier (generatedClassName cm) = true) ->
  (forall cm, In cm all -> noneStr isBrace (originalClasses cm) = true) ->
  generateComponentCssFromGlobal sourceFile mapping (Css.generateGlobalOptimizedCss fms)
  = componentHeader sourceFile
    ++ renderCompact (List.filter (relevantRule names) (optimizedRules all))
  /\ forall r cm suffix,
       In r (optimizedRules all) -> In cm (mappings mapping) ->
       In (generatedClassName cm ++ suffix) (fst r) ->
       In r (List.filter (relevantRule names) (optimizedRules all)).
Proof.
  intros all names Hv Hb. split.
  - exact (global_extraction sourceFile mapping fms Hv Hb).
  - intros r cm suffix Hr Hcm Hn. apply filter_In. split; [exact Hr|].
    apply (relevantRule_prefix names r (generatedClassName cm) suffix); [|exact Hn].
    apply componentClassNames_In. eauto.
Qed.

Lemma component_from_global_witness :
  (forall cm, In cm (allClassMappings leakFiles) ->
     isValidCssIdentifier (generatedClassName cm) = true)
  /\ (forall cm, In cm (allClassMappings leakFiles) ->
        noneStr isBrace (originalClasses cm) = true)
  /\ generateComponentCssFromGlobal "A.svelte"
       (mkFileMapping "A.svelte" "A.css"
          [mkClassMapping "p-1" "p-1" "btn" (Some "btn") "A.svelte"])
       (Css.generateGlobalOptimizedCss leakFiles)
     = componentHeader "A.svelte"
       ++ renderCompact [(["btn"], ["p-1"]); (["btn-1x"], ["p-2"; "m-1"])].
Proof.
  assert (Hv : forall cm, In cm (allClassMappings leakFiles) ->
                 isValidCssIdentifier (generatedClassName cm) = true).
  { intros cm [<- |[<- |[]]]; reflexivity. }
  assert (Hb : forall cm, In cm (allClassMappings leakFiles) ->
                 noneStr isBrace (originalClasses cm) = true).
  { intros cm [<- |[<- |[]]]; reflexivity. }
  split; [exact Hv|]. split; [exact Hb|].
  rewrite (proj1 (component_from_global "A.svelte" _ leakFiles Hv Hb)). reflexivity.
Defined.

(** *** Reading a component stylesheet back *)

Lemma lines_compact (r : Rule) (rest : string) :
  ruleOk r ->
  Css.splitChar "010" (compactRuleText r ++ rest)
  = (selectorOf (fst r) ++ " {")
    :: (List.map applyLine (snd r) ++ "}" :: Css.splitChar "010" rest)%list.
Proof.
  intros (Hne & Hnames & Hus).
  replace (compactRuleText r ++ rest)
    with ((selectorOf (fst r) ++ " {")
          ++ String "010" (Css.applyLines EmptyString (snd r)
                           ++ "}" ++ String "010" rest))
    by (unfold compactRuleText; rewrite !str_app_assoc; reflexivity).
  rewrite splitChar_sep.
  - rewrite lines_applyLines by exact Hus.
    rewrite splitChar_sep by reflexivity. reflexivity.
  - rewrite noneStr_app, selectorOf_no_newline by exact Hnames. reflexivity.
Qed.

Lemma parse_compact (r : Rule) (current rest : list string) :
  ruleOk r ->
  Sheet.parseLines current
    ((selectorOf (fst r) ++ " {") :: (List.map applyLine (snd r) ++ "}" :: rest)%list)
  = (ruleAssociations r ++ Sheet.parseLines [] rest)%list.
Proof.
  intros (Hne & Hnames & Hus). destruct r as [names us]. cbn [fst snd] in *.
  destruct (selectorOf_dot names Hne) as [x Hx].
  cbn [Sheet.parseLines].
  assert (H1 : Js.stripPrefix "  @apply " (selectorOf names ++ " {") = None)
    by (rewrite Hx; reflexivity).
  assert (H2 : String.eqb (selectorOf names ++ " {") "}" = false)
    by (rewrite Hx; reflexivity).
  rewrite H1, H2, dropBrace_app, selectorNames_selectorOf by assumption.
  rewrite parse_applyLines. reflexivity.
Qed.

Lemma parse_compact_rules (rules : list Rule) (rest : string) :
  (forall r, In r rules -> ruleOk r) ->
  Sheet.parseLines [] (Css.splitChar "010" (renderCompact rules ++ rest))
  = (List.flat_map ruleAssociations rules
     ++ Sheet.parseLines [] (Css.splitChar "010" rest))%list.
Proof.
  induction rules as [|r rules IH]; intros Hok; [reflexivity|].
  cbn [renderCompact List.flat_map]. rewrite str_app_assoc.
  rewrite lines_compact by (apply Hok; left; reflexivity).
  rewrite parse_compact by (apply Hok; left; reflexivity).
  rewrite IH by (intros; apply Hok; right; assumption).
  rewrite List.app_assoc. reflexivity.
Qed.

Lemma associations_compact (file : string) (rules : list Rule) :
  noneStr isNewline file = true ->
  (forall r, In r rules -> ruleOk r) ->
  Sheet.associations (componentHeader file ++ renderCompact rules)
  = List.flat_map ruleAssociations rules.
Proof.
  intros Hf Hok. unfold Sheet.associations, componentHeader.
  replace (("/* Generated for " ++ file ++ " */" ++ Css.nl ++ Css.nl) ++ renderCompact rules)
    with ("/* Generated for " ++ file ++ " */" ++ Css.nl ++ Css.nl
          ++ renderCompact rules ++ EmptyString)
    by (rewrite !str_app_assoc, str_app_nil_r; reflexivity).
  rewrite comment_block; [|eexists; reflexivity|reflexivity|exact Hf].
  rewrite parse_compact_rules by exact Hok. cbn. apply List.app_nil_r.
Qed.

(** X20.  Nothing of a component is lost when its stylesheet is cut out
    of the global one: when the generated names are valid identifiers, no
    class text holds a brace and the class mappings of all files agree on
    the utilities of every name, the stylesheet of a tracked file, read
    back, applies every utility of every class of the file; and whatever
    it applies, some class mapping of some file gives. *)
Theorem component_from_global_covers (file : string) (mapping : FileMapping)
    (fms : FileMappings) (n u : string) :
  let all := allClassMappings fms in
  let sheet := generateComponentCssFromGlobal file mapping
                 (Css.generateGlobalOptimizedCss fms) in
  In (file, mapping) fms ->
  noneStr isNewline file = true ->
  (forall cm, In cm all -> isValidCssIdentifier (generatedClassName cm) = true) ->
  (forall cm, In cm all -> noneStr isBrace (originalClasses cm) = true) ->
  consistentNames all ->
  (applies (mappings mapping) n u -> In (n, u) (Sheet.associations sheet))
  /\ (In (n, u) (Sheet.associations sheet) -> applies all n u).
Proof.
  cbv zeta. set (all := allClassMappings fms). intros Hin Hf Hv Hb Hcons.
  rewrite (global_extraction file mapping fms Hv Hb). fold all.
  assert (Hok : forall r, In r (List.filter (relevantRule (componentClassNames mapping))
                                  (optimizedRules all)) -> ruleOk r).
  { intros r [Hr _]%filter_In. exact (optimized_rulesOk all Hv r Hr). }
  rewrite (associations_compact file _ Hf Hok), rules_In. split.
  - intros (cm & Hcm & Hname & Hu).
    assert (Ha : applies all n u).
    { exists cm. split; [|auto]. apply allClassMappings_In. eauto. }
    apply (optimized_applies all Hv n u Hcons), rules_In in Ha as (r & Hr & Hn & Hur).
    exists r. split; [|auto]. apply filter_In. split; [exact Hr|].
    apply (relevantRule_prefix _ r n EmptyString).
    + apply componentClassNames_In. eauto.
    + rewrite str_app_nil_r. exact Hn.
  - intros (r & [Hr _]%filter_In & Hn & Hu).
    apply (optimized_applies all Hv n u Hcons), rules_In. eauto.
Qed.

Lemma component_from_global_covers_witness :
  In ("B.svelte",
      mkFileMapping "B.svelte" "B.css"
        [mkClassMapping "p-2 m-1" "m-1 p-2" "btn-1x" (Some "btn-1x") "B.svelte"]) leakFiles
  /\ consistentNames (allClassMappings leakFiles)
  /\ In ("btn-1x", "m-1")
       (Sheet.associations
          (generateComponentCssFromGlobal "B.svelte"
             (mkFileMapping "B.svelte" "B.css"
                [mkClassMapping "p-2 m-1" "m-1 p-2" "btn-1x" (Some "btn-1x") "B.svelte"])
             (Css.generateGlobalOptimizedCss leakFiles))).
Proof.
  assert (Hin : In ("B.svelte",
                    mkFileMapping "B.svelte" "B.css"
                      [mkClassMapping "p-2 m-1" "m-1 p-2" "btn-1x" (Some "btn-1x") "B.svelte"])
                  leakFiles) by (right; left; reflexivity).
  assert (Hc : consistentNames (allClassMappings leakFiles)).
  { intros cm1 cm2 [<- |[<- |[]]] [<- |[<- |[]]] E u; try reflexivity; discriminate E. }
  split; [exact Hin|]. split; [exact Hc|].
  refine (proj1 (component_from_global_covers "B.svelte" _ leakFiles "btn-1x" "m-1"
                   Hin eq_refl _ _ Hc) _).
  - intros cm [<- |[<- |[]]]; reflexivity.
  - intros cm [<- |[<- |[]]]; reflexivity.
  - eexists. split; [left; reflexivity|]. split; [reflexivity|]. right. left. reflexivity.
Defined.

(** ** The hooks *)

Lemma updateCssFiles_state (o : OptimizeCss) (p : Plugin) :
  let p' := fst (updateCssFiles o p) in
  fileMappings p' = fileMappings p
  /\ (fileMappings p = [] -> p' = p)
  /\ (fileMappings p <> [] -> tables p' = cleanupNamespaceVersions (fileMappings p)).
Proof.
  unfold updateCssFiles. destruct (fileMappings p) as [|e fms] eqn:E; cbn [fst].
  - split; [exact E|]. split; [reflexivity|contradiction].
  - cbn. split; [reflexivity|]. split; [discriminate|reflexivity].
Qed.

Lemma updateCssFiles_synced (o : OptimizeCss) (p : Plugin) :
  synced (fst (updateCssFiles o p)).
Proof.
  destruct (updateCssFiles_state o p) as (Hf & He & Hn). unfold synced.
  rewrite Hf. destruct (fileMappings p) as [|e fms] eqn:E; [left; reflexivity|right].
  apply Hn. discriminate.
Qed.

Lemma omSet_not_nil {K V : Type} `{EqDecision K} (k : K) (v : V) (m : list (K * V)) :
  omSet k v m <> [].
Proof. destruct m as [|[k' v'] m]; simpl; [|destruct (decide (k = k'))]; discriminate. Qed.

Lemma plugin_eta (p : Plugin) : mkPlugin (tables p) (fileMappings p) = p.
Proof. destruct p. reflexivity. Qed.

Lemma transform_cases (o : OptimizeCss) (p : Plugin) (id rel css code : string) :
  let r := snd (processFile (tables p) code id) in
  (changed r = false /\ transform o p id rel css code = (p, None))
  \/ (changed r = true
      /\ transform o p id rel css code
         = (fst (updateCssFiles o
                   (mkPlugin (fst (processFile (tables p) code id))
                      (omSet rel (mkFileMapping rel css (fileClassMappings r))
                         (fileMappings p)))),
            Some (processedCode r))).
Proof.
  cbv zeta. unfold transform.
  destruct (processFile (tables p) code id) as [t r] eqn:E. cbn [fst snd].
  destruct (changed r) eqn:Hch; [right; auto|left].
  split; [reflexivity|].
  assert (Hu := processFile_unchanged (tables p) code id).
  rewrite E in Hu. cbn [snd] in Hu. specialize (Hu Hch). injection Hu as -> _.
  rewrite plugin_eta. reflexivity.
Qed.

(** X21.  When the transform hook returns null, the state of the plugin is
    what it was: neither the namespace tables nor the file mappings have
    changed.  So a tracked file in which nothing is left to rewrite keeps
    the mappings of its last rewrite. *)
Theorem transform_null_untouched (cfg : Config) (production : bool) (p : Plugin)
    (code id relativeToMain relativePath cssFilePath : string) :
  snd (transformHook cfg production p code id relativeToMain relativePath cssFilePath) = None ->
  fst (transformHook cfg production p code id relativeToMain relativePath cssFilePath) = p.
Proof.
  unfold transformHook.
  destruct (isCssFile id); [reflexivity|].
  destruct (match cfgMode cfg with ModeBuild => negb production | ModeAll => false end);
    [reflexivity|].
  destruct (negb (hasSupportedExtension cfg id)); [reflexivity|].
  destruct (transform_cases (cfgOptimizeCss cfg) p id relativePath cssFilePath code)
    as [[_ ->]|[_ ->]]; [reflexivity|discriminate].
Qed.

Lemma transform_null_untouched_witness :
  snd (transformHook (configure (mkOptions None None None None)) false pluginA
         "<button>A</button>" "/app/src/A.svelte" EmptyString "src/A.svelte" "src/A.css") = None
  /\ fileMappings
       (fst (transformHook (configure (mkOptions None None None None)) false pluginA
               "<button>A</button>" "/app/src/A.svelte" EmptyString "src/A.svelte" "src/A.css"))
     = fileMappings pluginA.
Proof.
  assert (H : snd (transformHook (configure (mkOptions None None None None)) false pluginA
                     "<button>A</button>" "/app/src/A.svelte" EmptyString "src/A.svelte" "src/A.css")
              = None) by (vm_compute; reflexivity).
  split; [exact H|].
  rewrite (transform_null_untouched _ _ _ _ _ _ _ _ H). reflexivity.
Defined.

(** X22.  When the transform hook rewrites a source file, it returns the
    rewritten text of the scan, the file is tracked under its relative path
    with the class mappings of that scan, the entries of the other files
    are as before, and the namespace tables are those of a rebuild over the
    file mappings, not those the scan left. *)
Theorem transform_rewrites (cfg : Config) (production : bool) (p : Plugin)
    (code id relativeToMain relativePath cssFilePath out : string) :
  isCssFile id = false ->
  snd (transformHook cfg production p code id relativeToMain relativePath cssFilePath)
    = Some out ->
  let p' := fst (transformHook cfg production p code id relativeToMain relativePath
                   cssFilePath) in
  let r := snd (processFile (tables p) code id) in
  changed r = true
  /\ out = processedCode r
  /\ omGet relativePath (fileMappings p')
     = Some (mkFileMapping relativePath cssFilePath (fileClassMappings r))
  /\ (forall other, other <> relativePath ->
        omGet other (fileMappings p') = omGet other (fileMappings p))
  /\ tables p' = cleanupNamespaceVersions (fileMappings p').
Proof.
  intros Hcss. unfold transformHook. rewrite Hcss.
  destruct (match cfgMode cfg with ModeBuild => negb production | ModeAll => false end);
    [discriminate|].
  destruct (negb (hasSupportedExtension cfg id)); [discriminate|].
  destruct (transform_cases (cfgOptimizeCss cfg) p id relativePath cssFilePath code)
    as [[_ ->]|[Hch ->]]; [discriminate|].
  cbn [fst snd]. intros [= <-]. cbv zeta.
  set (stored := omSet relativePath _ (fileMappings p)).
  destruct (updateCssFiles_state (cfgOptimizeCss cfg)
              (mkPlugin (fst (processFile (tables p) code id)) stored)) as (Hf & _ & Hn).
  cbn [fileMappings] in Hf, Hn.
  split; [exact Hch|]. split; [reflexivity|]. rewrite Hf.
  split; [apply omGet_omSet_eq|]. split.
  - intros other Hne. apply omGet_omSet_ne, Hne.
  - apply Hn, omSet_not_nil.
Qed.

Lemma transform_rewrites_witness :
  isCssFile "/app/src/A.svelte" = false
  /\ snd (transformHook (configure (mkOptions None None None None)) false emptyPlugin
            srcA "/app/src/A.svelte" EmptyString "src/A.svelte" "src/A.css")
     = Some "<button class='btn'>A</button>"
  /\ changed (snd (processFile (tables emptyPlugin) srcA "/app/src/A.svelte")) = true.
Proof.
  assert (H : snd (transformHook (configure (mkOptions None None None None)) false emptyPlugin
                     srcA "/app/src/A.svelte" EmptyString "src/A.svelte" "src/A.css")
              = Some "<button class='btn'>A</button>") by (vm_compute; reflexivity).
  split; [reflexivity|]. split; [exact H|].
  exact (proj1 (transform_rewrites (configure (mkOptions None None None None)) false
                  emptyPlugin srcA "/app/src/A.svelte" EmptyString "src/A.svelte" "src/A.css"
                  "<button class='btn'>A</button>" eq_refl H)).
Defined.

(** *** The state after any run of events *)

Lemma transformHook_synced (cfg : Config) (production : bool) (p : Plugin)
    (code id relativeToMain relativePath cssFilePath : string) :
  synced p ->
  synced (fst (transformHook cfg production p code id relativeToMain relativePath cssFilePath)).
Proof.
  intros Hp. unfold transformHook.
  destruct (isCssFile id); [exact Hp|].
  destruct (match cfgMode cfg with ModeBuild => negb production | ModeAll => false end);
    [exact Hp|].
  destruct (negb (hasSupportedExtension cfg id)); [exact Hp|].
  destruct (transform_cases (cfgOptimizeCss cfg) p id relativePath cssFilePath code)
    as [[_ ->]|[_ ->]]; [exact Hp|apply updateCssFiles_synced].
Qed.

Lemma watchChange_synced (cfg : Config) (p : Plugin) (file rel css code : string) :
  synced p -> synced (watchChange cfg p file rel css code).
Proof.
  intros Hp. unfold watchChange.
  destruct (hasSupportedExtension cfg file); [|exact Hp].
  destruct (omHas rel (fileMappings p)); [|exact Hp].
  destruct (processFile (tables p) code file) as [t r] eqn:E.
  destruct (changed r) eqn:Hch; [apply updateCssFiles_synced|].
  assert (Hu := processFile_unchanged (tables p) code file).
  rewrite E in Hu. cbn [snd] in Hu. specialize (Hu Hch). injection Hu as -> _.
  rewrite plugin_eta. exact Hp.
Qed.

Lemma handle_synced (cfg : Config) (p : Plugin) (e : Event) :
  synced p -> synced (handle cfg p e).
Proof.
  intros Hp. destruct e; cbn [handle].
  - apply transformHook_synced, Hp.
  - destruct (cfgMode cfg); [exact Hp|apply watchChange_synced, Hp].
  - destruct (cfgMode cfg); [exact Hp|]. unfold unlink.
    destruct (omHas _ _); [apply updateCssFiles_synced|exact Hp].
  - destruct (cfgMode cfg); [exact Hp|]. apply updateCssFiles_synced.
  - apply updateCssFiles_synced.
  - apply updateCssFiles_synced.
Qed.

(** X23.  Whatever the hooks and the watcher have been through since the
    plugin was created, the namespace tables are those that a rebuild
    gives for the file mappings of the moment, unless no file is tracked;
    then they are what the last rebuild or scan left. *)
Theorem tables_follow_mappings (cfg : Config) (events : list Event) :
  synced (run cfg events).
Proof.
  unfold run. induction events as [|e events IH] using rev_ind.
  - left. reflexivity.
  - rewrite fold_left_app. cbn [List.fold_left]. apply handle_synced, IH.
Qed.

(** *** The scan at the start of a build *)

Lemma rewritable_changed (t : Tables) (code id : string) :
  changed (snd (processFile t code id)) = rewritable code.
Proof. apply processFile_changed. Qed.

Lemma changed_has_mappings (t : Tables) (code id : string) :
  changed (snd (processFile t code id)) = true ->
  (0 <? List.length (fileClassMappings (snd (processFile t code id))))%nat = true.
Proof.
  intros Hch.
  destruct (processFile_passes t code id) as (gaps & _ & _ & H). cbv zeta in H.
  destruct (List.filter (keptOccurrence true) (Scan.execAll Scan.matchClassAttr code 0 0))
    as [|[i a] kept].
  - rewrite H in Hch. discriminate Hch.
  - destruct H as [H [later Hl]]. rewrite H. cbn [snd fileClassMappings]. rewrite Hl.
    cbn [resolveInOrder].
    destruct (processClassValue t (Scan.classValue a) _) as [t1 res].
    destruct (resolveInOrder id (findNamespaces code) t1 kept) as [t2 ms].
    reflexivity.
Qed.

Section OrderedMapInsert.
Context {K V : Type} `{EqDecision K}.

Lemma omSet_keys_present (k : K) (v : V) (m : list (K * V)) :
  omHas k m = true -> List.map fst (omSet k v m) = List.map fst m.
Proof.
  unfold omHas. induction m as [|[k0 v0] m IH]; simpl; [discriminate|].
  destruct (decide (k = k0)) as [->|Hne]; simpl; [reflexivity|].
  intros H. rewrite (IH H). reflexivity.
Qed.
End OrderedMapInsert.

Lemma scanSourceFile_keys (p : Plugin) (f : SourceFile) (k : string) :
  In k (List.map fst (fileMappings (scanSourceFile p f)))
  <-> In k (List.map fst (fileMappings p))
      \/ (sfRelativePath f = k /\ rewritable (sfContent f) = true).
Proof.
  unfold scanSourceFile.
  pose proof (rewritable_changed (tables p) (sfContent f) (sfFile f)) as Hr.
  pose proof (changed_has_mappings (tables p) (sfContent f) (sfFile f)) as Hm.
  destruct (processFile (tables p) (sfContent f) (sfFile f)) as [t r]. cbn [snd] in Hr, Hm.
  rewrite <- Hr. destruct (changed r).
  - rewrite (Hm eq_refl). cbn [andb fileMappings]. rewrite omSet_keys.
    split; [intros [->|H]; auto|intros [H|[<- _]]; auto].
  - cbn [andb fileMappings]. split; [auto|intros [H|[_ H]]; [exact H|discriminate H]].
Qed.

(** X24.  The scan at the start of a production build tracks the files
    it is given that have something to rewrite, and no other: after it the
    tracked paths are those tracked before and the relative paths of the
    scanned files in which some plain class attribute has a class text
    that is neither blank nor holds an opening brace.  The test on the
    number of mappings never turns a rewritten file away. *)
Theorem scan_tracks_rewritable (o : OptimizeCss) (p : Plugin) (files : list SourceFile)
    (k : string) :
  In k (List.map fst (fileMappings (scanAllSourceFiles o p files)))
  <-> In k (List.map fst (fileMappings p))
      \/ exists f, In f files /\ sfRelativePath f = k /\ rewritable (sfContent f) = true.
Proof.
  unfold scanAllSourceFiles.
  destruct (updateCssFiles_state o (List.fold_left scanSourceFile files p)) as (-> & _).
  revert p. induction files as [|f files IH]; intros p; cbn [List.fold_left].
  - split; [auto|intros [H|(f & [] & _)]; exact H].
  - rewrite IH, scanSourceFile_keys. split.
    + intros [[H|[E Hr]]|(f' & Hin & E & Hr)]; eauto 6 using in_eq, in_cons.
    + intros [H|(f' & [<- |Hin] & E & Hr)]; eauto 6.
Qed.

(** X25.  A change event never adds a file to the tracked ones, drops
    one, or reorders them; with the watcher set up, it does not reach files
    that are not tracked at all. *)
Theorem change_keeps_tracked (cfg : Config) (p : Plugin) (file rel css code : string) :
  List.map fst (fileMappings (watchChange cfg p file rel css code))
    = List.map fst (fileMappings p)
  /\ (omHas rel (fileMappings p) = false -> watchChange cfg p file rel css code = p).
Proof.
  unfold watchChange. split.
  - destruct (hasSupportedExtension cfg file); [|reflexivity].
    destruct (omHas rel (fileMappings p)) eqn:Hhas; [|reflexivity].
    destruct (processFile (tables p) code file) as [t r].
    destruct (changed r); [|reflexivity].
    destruct (updateCssFiles_state (cfgOptimizeCss cfg)
                (mkPlugin t (omSet rel (mkFileMapping rel css (fileClassMappings r))
                               (fileMappings p)))) as (-> & _).
    cbn [fileMappings]. apply omSet_keys_present, Hhas.
  - intros ->. destruct (hasSupportedExtension cfg file); reflexivity.
Qed.

Lemma change_keeps_tracked_witness :
  omHas "src/B.svelte" (fileMappings pluginA) = false
  /\ watchChange (configure (mkOptions None None None None)) pluginA
       "/app/src/B.svelte" "src/B.svelte" "src/B.css" srcB = pluginA.
Proof.
  split; [reflexivity|].
  exact (proj2 (change_keeps_tracked _ pluginA "/app/src/B.svelte" "src/B.svelte"
                  "src/B.css" srcB) eq_refl).
Defined.

(** *** The virtual import *)

Lemma getSubstitution_plain (matched before after replacement : string) :
  noneStr (Ascii.eqb "$") replacement = true ->
  Str.getSubstitution matched before after replacement = replacement.
Proof.
  unfold noneStr. intros H. apply negb_true_iff in H.
  induction replacement as [|c r IH]; [reflexivity|]. cbn [Js.existsbStr] in H.
  apply orb_false_iff in H as [Hc Hr]. cbn [Str.getSubstitution].
  rewrite Ascii.eqb_sym, Hc, (IH Hr). reflexivity.
Qed.

Lemma replaceChar_noneStr (p : ascii -> bool) (c d : ascii) (s : string) :
  p d = false -> noneStr p s = true -> noneStr p (Str.replaceChar c d s) = true.
Proof.
  intros Hd. unfold noneStr. intros H. apply negb_true_iff in H. apply negb_true_iff.
  induction s as [|x s IH]; [reflexivity|].
  cbn [Js.existsbStr Str.replaceChar] in *.
  apply orb_false_iff in H as [Hx Hs]. rewrite (IH Hs), orb_false_r.
  destruct (Ascii.eqb x c); assumption.
Qed.

Lemma splitAtFirst_least (pattern : string) (before' after' : string) :
  exists before after,
    Str.splitAtFirst pattern (before' ++ pattern ++ after') = Some (before, after)
    /\ (String.length before <= String.length before')%nat.
Proof.
  induction before' as [|c b IH].
  - exists EmptyString, after'. split; [|reflexivity].
    change (EmptyString ++ pattern ++ after') with (pattern ++ after').
    destruct (pattern ++ after') eqn:E; cbn [Str.splitAtFirst];
      rewrite <- E, stripPrefix_same; reflexivity.
  - change (String c b ++ pattern ++ after') with (String c (b ++ pattern ++ after')).
    cbn [Str.splitAtFirst].
    destruct (Js.stripPrefix pattern (String c (b ++ pattern ++ after'))) as [r|].
    + exists EmptyString, r. split; [reflexivity|simpl; lia].
    + destruct IH as (b0 & a0 & -> & Hlen). exists (String c b0), a0.
      split; [reflexivity|simpl; lia].
Qed.

Lemma str_app_same_length (a b c d : string) :
  a ++ b = c ++ d -> String.length a = String.length c -> a = c /\ b = d.
Proof.
  revert c. induction a as [|x a IH]; intros [|y c] E Hl; try discriminate Hl.
  - auto.
  - simpl in E. injection E as -> E. simpl in Hl.
    destruct (IH c E) as [-> ->]; [lia|auto].
Qed.

Lemma splitAtFirst_first (pattern s before after : string) :
  firstOccurrence pattern s before after ->
  Str.splitAtFirst pattern s = Some (before, after).
Proof.
  intros [Hs Hmin].
  destruct (splitAtFirst_least pattern before after) as (b & a & E & Hle).
  rewrite <- Hs in E. rewrite E.
  pose proof (splitAtFirst_spec pattern s b a E) as Hs'.
  pose proof (Hmin b a Hs') as Hge.
  rewrite Hs in Hs'. apply str_app_same_length in Hs' as [-> Hs']; [|lia].
  apply str_app_inv_head in Hs'. subst a. reflexivity.
Qed.

(** X26.  In a stylesheet the transform hook replaces the first virtual
    import, and only that one, by an import of the main stylesheet, under
    the relative path with its backslashes turned into slashes; the text
    before and after it, further virtual imports included, is kept as it
    is.  This is for a path without a dollar sign, which the replacement
    would read as a pattern. *)
Theorem virtual_import_replaced (code relativeToMain before after : string) :
  firstOccurrence VIRTUAL_CSS_IMPORT code before after ->
  noneStr (Ascii.eqb "$") relativeToMain = true ->
  transformCss code relativeToMain
  = Some (before
          ++ ("@import " ++ dq ++ Str.replaceChar backslash "/" relativeToMain ++ dq ++ ";")
          ++ after).
Proof.
  intros Hfirst Hrel. unfold transformCss, Str.includes, Str.replaceFirst.
  rewrite (splitAtFirst_first _ _ _ _ Hfirst).
  rewrite getSubstitution_plain; [reflexivity|].
  rewrite !noneStr_app, replaceChar_noneStr by (reflexivity || exact Hrel). reflexivity.
Qed.

Lemma virtual_import_replaced_witness :
  firstOccurrence VIRTUAL_CSS_IMPORT
    ("a{}" ++ VIRTUAL_CSS_IMPORT ++ "b{}" ++ VIRTUAL_CSS_IMPORT) "a{}"
    ("b{}" ++ VIRTUAL_CSS_IMPORT)
  /\ transformCss ("a{}" ++ VIRTUAL_CSS_IMPORT ++ "b{}" ++ VIRTUAL_CSS_IMPORT)
       (".." ++ String backslash ".tw-namespace" ++ String backslash "tw-namespace.css")
     = Some ("a{}" ++ ("@import " ++ dq ++ "../.tw-namespace/tw-namespace.css" ++ dq ++ ";")
             ++ "b{}" ++ VIRTUAL_CSS_IMPORT).
Proof.
  assert (H : firstOccurrence VIRTUAL_CSS_IMPORT
                ("a{}" ++ VIRTUAL_CSS_IMPORT ++ "b{}" ++ VIRTUAL_CSS_IMPORT) "a{}"
                ("b{}" ++ VIRTUAL_CSS_IMPORT)).
  { split; [reflexivity|]. intros b' a' E.
    destruct b' as [|c1 [|c2 [|c3 b']]]; [discriminate E..|simpl; lia]. }
  split; [exact H|].
  exact (virtual_import_replaced _
           (".." ++ String backslash ".tw-namespace" ++ String backslash "tw-namespace.css")
           _ _ H eq_refl).
Defined.

(** ** What the plugin writes *)





Section Written.
Variable fms : FileMappings.
Hypothesis Hnames : forall e, In e fms -> noneStr isNewline (fst e) = true.
Hypothesis Hvalid :
  forall cm, In cm (allClassMappings fms) -> isValidCssIdentifier (generatedClassName cm) = true.
Hypothesis Hbraces :
  forall cm, In cm (allClassMappings fms) -> noneStr isBrace (originalClasses cm) = true.
Hypothesis Hcons : consistentNames (allClassMappings fms).







End Written.


